(** * FlowForge backend: criteria evaluation and workflow execution engine

    A shallow embedding of [services/criteria.js] (completion criteria and
    context extraction), of the parts of [db/schema.js] the engine uses, and
    of [services/executor.js] (the [WorkflowExecutor] class), then of the
    rest of [db/schema.js], of [services/unbound.js] and of the routes of the
    workflows and of the runs, followed by the properties of the run
    execution engine and of the services around it.

    Conventions of the embedding:
    - a JavaScript string is a [string]: a sequence of code units, here the
      code units below 256 (the ISO-8859-1 range), so that the character
      classes of the regular expressions are finite tables;
    - a JavaScript integer-valued number is a [Z]; a monetary cost is a
      binary64 [float], as in the engine;
    - [uuidv4()] is a supply of fresh identifiers ([nat]);
    - the completion provider and the clock are oracles indexed by the number
      of reads of the environment made so far;
    - the operations of the database and the sending of a message do not
      throw; what may throw is what the services catch or let through: the
      provider, the construction of a regular expression, [JSON.parse], and
      the reading of a step execution that is missing;
    - [execute] returns the run identifier while the steps are processed in
      the background; [Executor.execute] follows the run it starts to the end
      of that background sequence, and [Spec.Reachable] lets the sequences of
      several runs end in any order. *)

From Stdlib Require Import ZArith Ascii Floats.PrimFloat.
From Stdlib Require String Uint63.
From stdpp Require Import gmap strings list.

Open Scope Z_scope.

(** ** JavaScript built-ins used by the services *)

Module JS.

(** Truthiness of a string: the empty string is the only falsy one. *)
Definition truthy (s : string) : bool :=
  match s with
  | EmptyString => false
  | String _ _ => true
  end.

(** The double quote, the backslash and the line feed. *)
Definition dquote : ascii := ascii_of_nat 34.
Definition backslash : ascii := ascii_of_nat 92.
Definition DQ : string := String dquote EmptyString.
Definition LF : string := String (ascii_of_nat 10) EmptyString.

(** [s.length]. *)
Definition len (s : string) : Z := Z.of_nat (String.length s).

(** [s.substring(n)]: the string without its first [n] code units. *)
Fixpoint drop (n : nat) (s : string) : string :=
  match n, s with
  | O, _ => s
  | S _, EmptyString => EmptyString
  | S k, String _ r => drop k r
  end.

(** [s.substring(0, n)]. *)
Fixpoint take (n : nat) (s : string) : string :=
  match n, s with
  | O, _ => EmptyString
  | S _, EmptyString => EmptyString
  | S k, String c r => String c (take k r)
  end.

(** [s.startsWith(p)]. *)
Definition startsWith (s p : string) : bool := String.prefix p s.

(** [s.includes(sub)]: [sub] occurs at some position of [s]. *)
Fixpoint includes (s sub : string) : bool :=
  if startsWith s sub then true
  else match s with
       | EmptyString => false
       | String _ r => includes r sub
       end.

(** The replacement-template expansion of [String.prototype.replace]
    (GetSubstitution) for a pattern without capture groups: [$$] is a
    dollar sign, [$&] the matched text, [$`] the text before the match and
    [$'] the text after it; every other character stands for itself. *)
Fixpoint GetSubstitution (matched before after template : string) : string :=
  match template with
  | EmptyString => EmptyString
  | String c r =>
      if Ascii.eqb c "$" then
        match r with
        | EmptyString => String c EmptyString
        | String d r' =>
            if Ascii.eqb d "$" then String "$" (GetSubstitution matched before after r')
            else if Ascii.eqb d "&" then matched +:+ GetSubstitution matched before after r'
            else if Ascii.eqb d "`" then before +:+ GetSubstitution matched before after r'
            else if Ascii.eqb d "'" then after +:+ GetSubstitution matched before after r'
            else String c (GetSubstitution matched before after r)
        end
      else String c (GetSubstitution matched before after r)
  end.

(** [str.replace(/pat/g, repl)] for a non-empty literal pattern [pat]: the
    string is scanned from the left; [before] is the part of the original
    string already scanned, [skip] counts the code units of the current
    match still to be passed over. Matches do not overlap. *)
Fixpoint replace_scan (pat repl before s : string) (skip : nat) : string :=
  match s with
  | EmptyString => EmptyString
  | String c r =>
      match skip with
      | S k => replace_scan pat repl (before +:+ String c EmptyString) r k
      | O =>
          if startsWith s pat then
            GetSubstitution pat before (drop (String.length pat) s) repl
              +:+ replace_scan pat repl (before +:+ String c EmptyString) r
                    (String.length pat - 1)
          else String c (replace_scan pat repl (before +:+ String c EmptyString) r 0)
      end
  end.

Definition replace_global (pat repl s : string) : string :=
  replace_scan pat repl EmptyString s 0.


(** *** Character classes *)

Definition code (c : ascii) : nat := nat_of_ascii c.

Definition in_range (lo hi : nat) (c : ascii) : bool :=
  (lo <=? code c)%nat && (code c <=? hi)%nat.

(** White space and line terminators: the class [\s] of regular
    expressions, also what [trim] and [parseInt] strip. In the modelled
    range: TAB, LF, VT, FF, CR, SP and NBSP. *)
Definition isWhiteSpace (c : ascii) : bool :=
  in_range 9 13 c || (code c =? 32)%nat || (code c =? 160)%nat.

(** The white space of the JSON grammar: TAB, LF, CR, SP. *)
Definition isJSONWhiteSpace (c : ascii) : bool :=
  (code c =? 9)%nat || (code c =? 10)%nat || (code c =? 13)%nat || (code c =? 32)%nat.

Definition isDigit (c : ascii) : bool := in_range 48 57 c.

Definition isHexDigit (c : ascii) : bool :=
  isDigit c || in_range 65 70 c || in_range 97 102 c.

(** The class [\w]: ASCII letters, digits and the underscore. *)
Definition isWordChar (c : ascii) : bool :=
  in_range 65 90 c || in_range 97 122 c || isDigit c || (code c =? 95)%nat.

(** Case conversion of a code unit below 256: the letters A-Z and a-z, and
    in the upper half the letters from 192 to 222 but the sign at 215, with
    the letters from 224 to 254 but the sign at 247. *)
Definition isUpper (c : ascii) : bool :=
  in_range 65 90 c || in_range 192 214 c || in_range 216 222 c.

Definition isLower (c : ascii) : bool :=
  in_range 97 122 c || in_range 224 246 c || in_range 248 254 c.

Definition lowerChar (c : ascii) : ascii :=
  if isUpper c then ascii_of_nat (code c + 32) else c.

Definition upperChar (c : ascii) : ascii :=
  if isLower c then ascii_of_nat (code c - 32) else c.

Fixpoint mapChars (f : ascii -> ascii) (s : string) : string :=
  match s with
  | EmptyString => EmptyString
  | String c r => String (f c) (mapChars f r)
  end.

(** [s.toLowerCase()]. *)
Definition toLowerCase : string -> string := mapChars lowerChar.

(** [s.toUpperCase()]: the sharp s (223) becomes SS. The capitals of the
    code units 181 and 255 are the code units 924 and 376, beyond the
    modelled range; these two are left in place, which no test of the
    services can tell from their capitals: the result is only compared with
    ASCII text. *)
Fixpoint toUpperCase (s : string) : string :=
  match s with
  | EmptyString => EmptyString
  | String c r =>
      if (code c =? 223)%nat then String "S" (String "S" (toUpperCase r))
      else String (upperChar c) (toUpperCase r)
  end.

(** Strips the longest prefix of characters of a class. *)
Fixpoint skip (cls : ascii -> bool) (s : string) : string :=
  match s with
  | EmptyString => EmptyString
  | String c r => if cls c then skip cls r else s
  end.

(** [s.trimEnd()] and [s.trim()]. *)
Fixpoint trimEnd (s : string) : string :=
  match s with
  | EmptyString => EmptyString
  | String c r =>
      match trimEnd r with
      | EmptyString => if isWhiteSpace c then EmptyString else String c EmptyString
      | t => String c t
      end
  end.

Definition trim (s : string) : string := trimEnd (skip isWhiteSpace s).

(** [pieces.join(sep)]. *)
Fixpoint join (sep : string) (pieces : list string) : string :=
  match pieces with
  | [] => EmptyString
  | [p] => p
  | p :: ps => p +:+ sep +:+ join sep ps
  end.

(** *** Numbers *)

(** The value of a digit in the given radix, when it is one. *)
Definition digitValue (radix : Z) (c : ascii) : option Z :=
  let v :=
    if isDigit c then Some (Z.of_nat (code c) - 48)
    else if in_range 97 122 c then Some (Z.of_nat (code c) - 87)
    else if in_range 65 90 c then Some (Z.of_nat (code c) - 55)
    else None in
  match v with
  | Some d => if d <? radix then Some d else None
  | None => None
  end.

(** Reads the longest prefix of digits; [acc] is [None] until a digit has
    been read. *)
Fixpoint readDigits (radix : Z) (acc : option Z) (s : string) : option Z :=
  match s with
  | EmptyString => acc
  | String c r =>
      match digitValue radix c with
      | Some d => readDigits radix (Some (radix * default 0 acc + d)) r
      | None => acc
      end
  end.

(** [parseInt(s)] without a radix: leading white space is skipped, a sign
    is read, a [0x] or [0X] prefix selects radix 16, and the longest prefix
    of digits is the value; [None] is [NaN]. The value is the mathematical
    integer: a double that rounds it compares with a string length (below
    2^53) as the integer itself does, rounding being monotone. *)
Definition parseInt (s : string) : option Z :=
  let s1 := skip isWhiteSpace s in
  let '(sign, s2) :=
    match s1 with
    | String c r =>
        if Ascii.eqb c "-" then (-1, r)
        else if Ascii.eqb c "+" then (1, r)
        else (1, s1)
    | EmptyString => (1, s1)
    end in
  let '(radix, s3) :=
    match s2 with
    | String c (String x r) =>
        if Ascii.eqb c "0" && (Ascii.eqb x "x" || Ascii.eqb x "X") then (16, r)
        else (10, s2)
    | _ => (10, s2)
    end in
  match readDigits radix None s3 with
  | Some n => Some (sign * n)
  | None => None
  end.

(** A number as the services use them after [parseInt(..) || d]: an
    integer or [Infinity]. *)
Inductive Num : Type :=
| Int (n : Z)
| Infinity.

(** [parseInt(s) || d]: [NaN] and [0] are falsy. *)
Definition parseIntOr (s : string) (d : Num) : Num :=
  match parseInt s with
  | Some n => if n =? 0 then d else Int n
  | None => d
  end.

(** [len <= n] and [len >= n] for a length [len]. *)
Definition leNum (len : Z) (n : Num) : bool :=
  match n with
  | Int m => len <=? m
  | Infinity => true
  end.

Definition geNum (len : Z) (n : Num) : bool :=
  match n with
  | Int m => m <=? len
  | Infinity => false
  end.

(** The decimal digits of a natural number, most significant first. *)
Fixpoint digits (fuel : nat) (n : N) (acc : string) : string :=
  match fuel with
  | O => acc
  | S f =>
      let acc' := String (ascii_of_N (48 + n mod 10)) acc in
      if (n <? 10)%N then acc' else digits f (n / 10)%N acc'
  end.

Definition decimal (n : Z) : string :=
  digits (S (N.to_nat (N.log2 (Z.abs_N n)))) (Z.abs_N n) EmptyString.

(** The double nearest to an integer that is not negative, ties to even:
    53 bits are kept. From 2^1024 on it stands for [Infinity]. *)
Definition roundDouble (a : Z) : Z :=
  let e := Z.log2 a - 52 in
  if e <=? 0 then a
  else
    let unit := 2 ^ e in
    let q := a / unit in
    let r := a mod unit in
    let half := unit / 2 in
    let q' :=
      if r <? half then q
      else if half <? r then q + 1
      else if Z.even q then q else q + 1 in
    q' * unit.

(** The digits [Number::toString] prints for a double [x] that is a positive
    integer: the least number of digits [s], with [p] zeros to follow, such
    that [s * 10^p] is read back as [x]; of two such [s] the nearer to [x],
    the even one when they are as near. [p] is tried from the number of
    digits of [x] down. *)
Fixpoint shortest (fuel : nat) (p : Z) (x : Z) : Z * Z :=
  let unit := 10 ^ p in
  let lo := x / unit in
  let hi := lo + 1 in
  let okLo := (0 <? lo) && (roundDouble (lo * unit) =? x) in
  let okHi := roundDouble (hi * unit) =? x in
  let pick :=
    if okLo && okHi then
      let dLo := x - lo * unit in
      let dHi := hi * unit - x in
      Some (if dLo <? dHi then lo
            else if dHi <? dLo then hi
            else if Z.even lo then lo else hi)
    else if okLo then Some lo
    else if okHi then Some hi
    else None in
  match pick with
  | Some s => (s, p)
  | None =>
      match fuel with
      | O => (x, 0)
      | S f => shortest f (p - 1) x
      end
  end.

Fixpoint zeros (n : nat) : string :=
  match n with
  | O => EmptyString
  | S k => String "0" (zeros k)
  end.

(** [String(x)] for a double [x] that is a positive integer below 2^1024:
    all the digits up to 21 of them, the exponent form beyond. *)
Definition positiveToString (x : Z) : string :=
  let nd := Z.of_nat (String.length (decimal x)) in
  let '(s, p) := shortest (Z.to_nat nd) nd x in
  let ds := decimal s in
  let n := Z.of_nat (String.length ds) + p in
  if n <=? 21 then ds +:+ zeros (Z.to_nat p)
  else
    match ds with
    | String d EmptyString => String d EmptyString +:+ "e+" +:+ decimal (n - 1)
    | String d rest => String d EmptyString +:+ "." +:+ rest +:+ "e+" +:+ decimal (n - 1)
    | EmptyString => EmptyString
    end.

(** [String(n)] for the number an integer is read as, the double nearest
    to it. *)
Definition ZtoString (n : Z) : string :=
  let x := roundDouble (Z.abs n) in
  let body :=
    if x =? 0 then "0"
    else if 2 ^ 1024 <=? x then "Infinity"
    else positiveToString x in
  if (n <? 0) && negb (x =? 0) then String "-" body else body.

Definition NumToString (n : Num) : string :=
  match n with
  | Int m => ZtoString m
  | Infinity => "Infinity"
  end.

(** *** JSON.parse, as a recognizer

    [JSON.parse(text)] either returns a value or throws a SyntaxError; the
    criteria only test whether it throws. The recognizers below follow the
    JSON grammar and return the rest of the input after the phrase they
    read. *)

(** The characters of a string literal after its opening quote. *)
Fixpoint json_string_tail (s : string) : option string :=
  match s with
  | EmptyString => None
  | String c r =>
      if Ascii.eqb c dquote then Some r
      else if Ascii.eqb c backslash then
        match r with
        | EmptyString => None
        | String e r' =>
            if Ascii.eqb e dquote || Ascii.eqb e backslash || Ascii.eqb e "/" || Ascii.eqb e "b"
               || Ascii.eqb e "f" || Ascii.eqb e "n" || Ascii.eqb e "r" || Ascii.eqb e "t"
            then json_string_tail r'
            else if Ascii.eqb e "u" then
              match r' with
              | String h1 (String h2 (String h3 (String h4 r''))) =>
                  if isHexDigit h1 && isHexDigit h2 && isHexDigit h3 && isHexDigit h4
                  then json_string_tail r''
                  else None
              | _ => None
              end
            else None
        end
      else if (code c <? 32)%nat then None
      else json_string_tail r
  end.

(** At least one digit, then the longest run of digits. *)
Definition json_digits (s : string) : option string :=
  match s with
  | String d r => if isDigit d then Some (skip isDigit r) else None
  | EmptyString => None
  end.

Definition json_exponent (s : string) : option string :=
  match s with
  | String e r =>
      if Ascii.eqb e "e" || Ascii.eqb e "E" then
        match r with
        | String g r' =>
            if Ascii.eqb g "+" || Ascii.eqb g "-" then json_digits r' else json_digits r
        | EmptyString => None
        end
      else Some s
  | EmptyString => Some s
  end.

Definition json_fraction (s : string) : option string :=
  match s with
  | String p r =>
      if Ascii.eqb p "." then
        match json_digits r with
        | Some r' => json_exponent r'
        | None => None
        end
      else json_exponent s
  | EmptyString => Some s
  end.

(** A number: an optional minus sign, [0] or a digit from 1 to 9 followed
    by digits, an optional fraction and an optional exponent. *)
Definition json_number (s : string) : option string :=
  let s1 := match s with
            | String m r => if Ascii.eqb m "-" then r else s
            | EmptyString => s
            end in
  match s1 with
  | String d r =>
      if Ascii.eqb d "0" then json_fraction r
      else if isDigit d then json_fraction (skip isDigit r)
      else None
  | EmptyString => None
  end.

Definition json_literal (lit s : string) : option string :=
  if startsWith s lit then Some (drop (String.length lit) s) else None.

(** A value, the members of an object after its opening brace and the
    elements of an array after its opening bracket; the input of each has
    its leading white space skipped. [fuel] bounds the depth of nesting
    and the number of members, both below the length of the text. *)
Fixpoint json_value (fuel : nat) (s : string) : option string :=
  match fuel with
  | O => None
  | S f =>
      match s with
      | EmptyString => None
      | String c r =>
          if Ascii.eqb c "{" then
            match skip isJSONWhiteSpace r with
            | String c' r' =>
                if Ascii.eqb c' "}" then Some r'
                else json_members f (String c' r')
            | EmptyString => None
            end
          else if Ascii.eqb c "[" then
            match skip isJSONWhiteSpace r with
            | String c' r' =>
                if Ascii.eqb c' "]" then Some r'
                else json_elements f (String c' r')
            | EmptyString => None
            end
          else if Ascii.eqb c dquote then json_string_tail r
          else if Ascii.eqb c "t" then json_literal "true" s
          else if Ascii.eqb c "f" then json_literal "false" s
          else if Ascii.eqb c "n" then json_literal "null" s
          else json_number s
      end
  end
with json_members (fuel : nat) (s : string) : option string :=
  match fuel with
  | O => None
  | S f =>
      match s with
      | String q r =>
          if Ascii.eqb q dquote then
            match json_string_tail r with
            | Some r1 =>
                match skip isJSONWhiteSpace r1 with
                | String c r2 =>
                    if Ascii.eqb c ":" then
                      match json_value f (skip isJSONWhiteSpace r2) with
                      | Some r3 =>
                          match skip isJSONWhiteSpace r3 with
                          | String d r4 =>
                              if Ascii.eqb d "," then json_members f (skip isJSONWhiteSpace r4)
                              else if Ascii.eqb d "}" then Some r4
                              else None
                          | EmptyString => None
                          end
                      | None => None
                      end
                    else None
                | EmptyString => None
                end
            | None => None
            end
          else None
      | EmptyString => None
      end
  end
with json_elements (fuel : nat) (s : string) : option string :=
  match fuel with
  | O => None
  | S f =>
      match json_value f s with
      | Some r1 =>
          match skip isJSONWhiteSpace r1 with
          | String d r2 =>
              if Ascii.eqb d "," then json_elements f (skip isJSONWhiteSpace r2)
              else if Ascii.eqb d "]" then Some r2
              else None
          | EmptyString => None
          end
      | None => None
      end
  end.

(** [JSON.parse(text)] returns: the text is white space, one value, white
    space. *)
Definition JSON_parses (text : string) : bool :=
  match json_value (S (String.length text)) (skip isJSONWhiteSpace text) with
  | Some rest =>
      match skip isJSONWhiteSpace rest with
      | EmptyString => true
      | String _ _ => false
      end
  | None => false
  end.

(** *** The regular expressions of the services, as matchers

    An anchored matcher tries one start position and returns what the
    expression matches there; a search tries the positions from the left,
    as [RegExp] does. *)

Fixpoint search {A} (anchored : string -> option A) (s : string) : option A :=
  match anchored s with
  | Some m => Some m
  | None =>
      match s with
      | EmptyString => None
      | String _ r => search anchored r
      end
  end.

Definition fence : string := "```".

(** The lazy group [([\s\S]*?)] followed by [\s*```]: the shortest prefix
    after which optional white space and a closing fence follow. *)
Fixpoint lazy_until_fence (s : string) : option string :=
  if startsWith (skip isWhiteSpace s) fence then Some EmptyString
  else match s with
       | EmptyString => None
       | String c r =>
           match lazy_until_fence r with
           | Some m => Some (String c m)
           | None => None
           end
       end.

(** [/```tag\s*([\s\S]*?)\s*```/] at one position; the result is group 1.
    The greedy [\s*] after the tag takes all the white space there: giving
    some back cannot turn a failure into a match, as the group would start
    with white space that the closing [\s*] accepts just as well. *)
Definition fenced_at (tag s : string) : option string :=
  if startsWith s (fence +:+ tag)
  then lazy_until_fence (skip isWhiteSpace (drop (String.length (fence +:+ tag)) s))
  else None.

(** The greedy [[\s\S]*] followed by a closing character: the longest
    prefix that ends with it. *)
Fixpoint upto_last (close : ascii) (s : string) : option string :=
  match s with
  | EmptyString => None
  | String c r =>
      match upto_last close r with
      | Some m => Some (String c m)
      | None => if Ascii.eqb c close then Some (String c EmptyString) else None
      end
  end.

(** [/(\{[\s\S]*\})/] and [/(\[[\s\S]*\])/] at one position. *)
Definition delimited_at (open close : ascii) (s : string) : option string :=
  match s with
  | String c r =>
      if Ascii.eqb c open then
        match upto_last close r with
        | Some m => Some (String c m)
        | None => None
        end
      else None
  | EmptyString => None
  end.

(** [/```[\s\S]*?```/] at one position: the whole match, from a fence to
    the next one. *)
Fixpoint lazy_to_fence (s : string) : option string :=
  if startsWith s fence then Some fence
  else match s with
       | EmptyString => None
       | String c r =>
           match lazy_to_fence r with
           | Some m => Some (String c m)
           | None => None
           end
       end.

Definition block_at (s : string) : option string :=
  if startsWith s fence then
    match lazy_to_fence (drop 3 s) with
    | Some m => Some (fence +:+ m)
    | None => None
    end
  else None.

(** [s.match(/re/g)] for an expression that matches no empty string: all
    the matches from the left, none overlapping another. [skipping] counts
    the code units of the last match still to be passed over. The empty
    list stands for [null]. *)
Fixpoint match_all (anchored : string -> option string) (s : string) (skipping : nat)
  : list string :=
  match s with
  | EmptyString => []
  | String _ r =>
      match skipping with
      | S k => match_all anchored r k
      | O =>
          match anchored s with
          | Some m => m :: match_all anchored r (String.length m - 1)
          | None => match_all anchored r 0
          end
      end
  end.

(** [s.replace(/re/g, '')]: the matches are removed. *)
Fixpoint remove_all (anchored : string -> option string) (s : string) (skipping : nat)
  : string :=
  match s with
  | EmptyString => EmptyString
  | String c r =>
      match skipping with
      | S k => remove_all anchored r k
      | O =>
          match anchored s with
          | Some m => remove_all anchored r (String.length m - 1)
          | None => String c (remove_all anchored r 0)
          end
      end
  end.

(** [/```\w*\n?/] at one position. *)
Definition fence_marker_at (s : string) : option string :=
  if startsWith s fence then
    let r := drop 3 s in
    let w := skip isWordChar r in
    let tag := take (String.length r - String.length w) r in
    match w with
    | String c _ => if (code c =? 10)%nat then Some (fence +:+ tag +:+ String c EmptyString)
                    else Some (fence +:+ tag)
    | EmptyString => Some (fence +:+ tag)
    end
  else None.

(** [s.split(/\n\n+/)]: the pieces between the runs of two or more line
    feeds. [cur] is the piece being read. *)
Definition isLF (c : ascii) : bool := (code c =? 10)%nat.

Fixpoint split_paragraphs (cur s : string) (in_sep : bool) : list string :=
  match s with
  | EmptyString => [cur]
  | String c r =>
      if isLF c then
        if in_sep then split_paragraphs cur r true
        else match r with
             | String c' r' =>
                 if isLF c' then cur :: split_paragraphs EmptyString r true
                 else split_paragraphs (cur +:+ String c EmptyString) r false
             | EmptyString => split_paragraphs (cur +:+ String c EmptyString) r false
             end
      else split_paragraphs (cur +:+ String c EmptyString) r false
  end.

End JS.

(** ** Results of calls that may throw *)

Inductive Completion (A : Type) : Type :=
| Return (a : A)
| Throw (message : string).
Arguments Return {A} a.
Arguments Throw {A} message.

(** What the completion provider answers: [{content, tokens, cost}]. *)
Record Tokens : Type := mkTokens { tk_input : Z; tk_output : Z; tk_total : Z }.

Record ProviderResult : Type := mkProviderResult {
  content : string;
  tokens : Tokens;
  cost : float
}.

(** ** services/criteria.js *)

Module Criteria.

Record Verdict : Type := mkVerdict { passed : bool; reason : string }.

Definition quoted (s : string) : string := JS.DQ +:+ s +:+ JS.DQ.

Definition evaluateContains (output value : string) : Verdict :=
  if negb (JS.truthy value) then mkVerdict true "No value to check"
  else
    let contains := JS.includes (JS.toLowerCase output) (JS.toLowerCase value) in
    mkVerdict contains
      (if contains then "Output contains " +:+ quoted value
       else "Output does not contain " +:+ quoted value).

Definition evaluateNotContains (output value : string) : Verdict :=
  if negb (JS.truthy value) then mkVerdict true "No value to check"
  else
    let contains := JS.includes (JS.toLowerCase output) (JS.toLowerCase value) in
    mkVerdict (negb contains)
      (if negb contains then "Output does not contain " +:+ quoted value
       else "Output contains " +:+ quoted value +:+ " (should not)").

(** The four expressions of [jsonPatterns], in their order; each gives its
    group 1 when it matches. *)
Definition jsonPatterns : list (string -> option string) :=
  [ JS.search (JS.fenced_at "json");
    JS.search (JS.fenced_at EmptyString);
    JS.search (JS.delimited_at "{" "}");
    JS.search (JS.delimited_at "[" "]") ].

(** The loop [for (const pattern of jsonPatterns)]: the first pattern that
    matches with a group that parses decides. *)
Fixpoint tryPatterns (patterns : list (string -> option string)) (output : string) : bool :=
  match patterns with
  | [] => false
  | pattern :: rest =>
      match pattern output with
      | Some group => if JS.JSON_parses group then true else tryPatterns rest output
      | None => tryPatterns rest output
      end
  end.

(** The groups of the patterns that match, in the order of the patterns. *)
Definition candidates (output : string) : list string :=
  omap (fun pattern => pattern output) jsonPatterns.

Definition evaluateJson (output : string) : Verdict :=
  if tryPatterns jsonPatterns output then mkVerdict true "Valid JSON found in output"
  else if JS.JSON_parses output then mkVerdict true "Output is valid JSON"
  else mkVerdict false "No valid JSON found in output".

Definition evaluateLengthMin (output minLength : string) : Verdict :=
  let min := JS.parseIntOr minLength (JS.Int 0) in
  let passed := JS.geNum (JS.len output) min in
  mkVerdict passed
    (if passed
     then "Output length (" +:+ JS.ZtoString (JS.len output) +:+ ") meets minimum ("
            +:+ JS.NumToString min +:+ ")"
     else "Output too short (" +:+ JS.ZtoString (JS.len output) +:+ " < "
            +:+ JS.NumToString min +:+ ")").

Definition evaluateLengthMax (output maxLength : string) : Verdict :=
  let max := JS.parseIntOr maxLength JS.Infinity in
  let passed := JS.leNum (JS.len output) max in
  mkVerdict passed
    (if passed
     then "Output length (" +:+ JS.ZtoString (JS.len output) +:+ ") within maximum ("
            +:+ JS.NumToString max +:+ ")"
     else "Output too long (" +:+ JS.ZtoString (JS.len output) +:+ " > "
            +:+ JS.NumToString max +:+ ")").

(** The shapes of [codePatterns]: a keyword, white space, then for [def]
    and [function] a name, optional white space and a parenthesis, for
    [class] a name. The classes that follow one another are disjoint, so
    the greedy reading is the only one. *)
Definition spaces1 (s : string) : option string :=
  match s with
  | String c r => if JS.isWhiteSpace c then Some (JS.skip JS.isWhiteSpace r) else None
  | EmptyString => None
  end.

Definition word1 (s : string) : option string :=
  match s with
  | String c r => if JS.isWordChar c then Some (JS.skip JS.isWordChar r) else None
  | EmptyString => None
  end.

Definition keyword_at (kw : string) (s : string) : option string :=
  if JS.startsWith s kw then spaces1 (JS.drop (String.length kw) s) else None.

Definition call_shape_at (kw : string) (s : string) : option unit :=
  match keyword_at kw s with
  | Some r =>
      match word1 r with
      | Some r' => if JS.startsWith (JS.skip JS.isWhiteSpace r') "(" then Some tt else None
      | None => None
      end
  | None => None
  end.

Definition class_shape_at (s : string) : option unit :=
  match keyword_at "class" s with
  | Some r => match word1 r with Some _ => Some tt | None => None end
  | None => None
  end.

Definition keyword_shape_at (kw : string) (s : string) : option unit :=
  match keyword_at kw s with Some _ => Some tt | None => None end.

Definition declaration_shape_at (s : string) : option unit :=
  match keyword_shape_at "const" s with
  | Some u => Some u
  | None =>
      match keyword_shape_at "let" s with
      | Some u => Some u
      | None => keyword_shape_at "var" s
      end
  end.

Definition codePatterns : list (string -> option unit) :=
  [ call_shape_at "def"; call_shape_at "function"; class_shape_at;
    keyword_shape_at "import"; declaration_shape_at ].

Definition test {A} (anchored : string -> option A) (s : string) : bool :=
  match JS.search anchored s with Some _ => true | None => false end.

(** The prompt of the judge. *)
Definition evaluationPrompt (criteria output : string) : string :=
  "You are evaluating whether an AI response meets specific criteria." +:+ JS.LF +:+ JS.LF
  +:+ "CRITERIA: " +:+ criteria +:+ JS.LF +:+ JS.LF
  +:+ "RESPONSE TO EVALUATE:" +:+ JS.LF +:+ output +:+ JS.LF +:+ JS.LF
  +:+ "Does this response meet the criteria? Reply with ONLY " +:+ quoted "PASS"
  +:+ " or " +:+ quoted "FAIL" +:+ " followed by a brief explanation.".

Definition LlmCall : Type := string -> string -> Completion ProviderResult.

Definition evaluateLLM (output criteria : string) (llmCall : option LlmCall) : Verdict :=
  match llmCall with
  | None => mkVerdict false "LLM evaluation not available"
  | Some call =>
      match call (evaluationPrompt criteria output) "gpt-4o-mini" with
      | Return result =>
          mkVerdict (JS.startsWith (JS.toUpperCase (content result)) "PASS") (content result)
      | Throw message => mkVerdict false ("LLM evaluation failed: " +:+ message)
      end
  end.

Section WithRegExp.

(** The regular-expression engine for the patterns the user supplies:
    [RegExp_new source flags] is [new RegExp(source, flags)], which
    throws a SyntaxError on an ill-formed source and otherwise gives the
    [test] method of the expression. *)
Variable RegExp_new : string -> string -> Completion (string -> bool).

Definition evaluateRegex (output pattern : string) : Verdict :=
  if negb (JS.truthy pattern) then mkVerdict true "No pattern to match"
  else
    match RegExp_new pattern "im" with
    | Return regex_test =>
        let matches := regex_test output in
        mkVerdict matches
          (if matches then "Output matches pattern " +:+ quoted pattern
           else "Output does not match pattern " +:+ quoted pattern)
    | Throw message => mkVerdict false ("Invalid regex pattern: " +:+ message)
    end.

(** [new RegExp] is outside any [try] here: its error leaves
    [evaluateCode], and [evaluateCriteria] with it. *)
Definition evaluateCode (output language : string) : Completion Verdict :=
  let codeBlocks := JS.match_all JS.block_at output 0 in
  match codeBlocks with
  | [] =>
      let hasCode := existsb (fun p => test p output) codePatterns in
      Return (mkVerdict hasCode
                (if hasCode then "Code detected in output"
                 else "No code blocks or patterns found"))
  | _ :: _ =>
      if JS.truthy language then
        match RegExp_new (JS.fence +:+ language) "i" with
        | Return langPattern_test =>
            let hasLang := existsb langPattern_test codeBlocks in
            Return (mkVerdict hasLang
                      (if hasLang then language +:+ " code block found"
                       else "No " +:+ language +:+ " code block found"))
        | Throw message => Throw message
        end
      else
        Return (mkVerdict true
                  ("Found " +:+ JS.ZtoString (Z.of_nat (length codeBlocks))
                     +:+ " code block(s)"))
  end.

Definition evaluateCriteria (output criteriaType criteriaValue : string)
    (llmCall : option LlmCall) : Completion Verdict :=
  if negb (JS.truthy output) then Return (mkVerdict false "No output received")
  else if String.eqb criteriaType "contains" then Return (evaluateContains output criteriaValue)
  else if String.eqb criteriaType "not_contains" then
    Return (evaluateNotContains output criteriaValue)
  else if String.eqb criteriaType "regex" then Return (evaluateRegex output criteriaValue)
  else if String.eqb criteriaType "json" then Return (evaluateJson output)
  else if String.eqb criteriaType "code" then evaluateCode output criteriaValue
  else if String.eqb criteriaType "length_min" then
    Return (evaluateLengthMin output criteriaValue)
  else if String.eqb criteriaType "length_max" then
    Return (evaluateLengthMax output criteriaValue)
  else if String.eqb criteriaType "llm" then Return (evaluateLLM output criteriaValue llmCall)
  else if String.eqb criteriaType "always" then Return (mkVerdict true "Always passes")
  else Return (mkVerdict true "No criteria specified, auto-pass").

End WithRegExp.

(** [extractContext(output, mode)]. *)
Definition paragraphs (output : string) : list string :=
  filter (fun p => JS.truthy (JS.trim p) = true) (JS.split_paragraphs EmptyString output false).

Definition extractContext (output mode : string) : string :=
  if negb (JS.truthy output) then EmptyString
  else if String.eqb mode "full" then output
  else if String.eqb mode "code_only" then
    match JS.match_all JS.block_at output 0 with
    | [] => output
    | codeBlocks =>
        JS.join (JS.LF +:+ JS.LF)
          (map (fun block => JS.trim (JS.remove_all JS.fence_marker_at block 0)) codeBlocks)
    end
  else if String.eqb mode "last_paragraph" then
    default output (last (paragraphs output))
  else if String.eqb mode "first_paragraph" then
    default output (head (paragraphs output))
  else if String.eqb mode "summary" then
    if JS.len output <=? 500 then output else JS.take 500 output +:+ "..."
  else output.

End Criteria.

(** ** db/schema.js: the records and the operations the engine calls

    [data] is the object kept in memory and written to [data.json] by
    [save()] after every mutation; the file mirrors [data], so [save] has no
    counterpart here. Identifiers and instants are passed in by the caller
    of an operation, which draws them from the identifier supply and the
    clock. *)

Module Db.

Definition Id : Type := nat.
Bind Scope nat_scope with Id.

(** An instant, as [new Date()] reads it. *)
Definition Instant : Type := Z.

Inductive RunStatus : Type := RunRunning | RunCompleted | RunFailed.

Inductive StepStatus : Type := Pending | Running | Passed | Failed.

#[global] Instance RunStatus_eq_dec : EqDecision RunStatus.
Proof. solve_decision. Defined.

#[global] Instance StepStatus_eq_dec : EqDecision StepStatus.
Proof. solve_decision. Defined.

Record Workflow : Type := mkWorkflow {
  wf_id : Id;
  wf_name : string;
  wf_description : string;
  wf_created_at : Instant;
  wf_updated_at : Instant
}.

Record Step : Type := mkStep {
  step_id : Id;
  step_workflow_id : Id;
  order_index : Z;
  step_name : string;
  model : string;
  prompt : string;
  criteria_type : string;
  criteria_value : string;
  retry_limit : Z;
  context_mode : string
}.

Record Run : Type := mkRun {
  run_id : Id;
  run_workflow_id : Id;
  run_status : RunStatus;
  run_started_at : Instant;
  run_completed_at : option Instant;
  total_cost : float;
  total_tokens : Z
}.

Record StepExecution : Type := mkStepExecution {
  se_id : Id;
  se_run_id : Id;
  se_step_id : Id;
  se_status : StepStatus;
  attempts : Z;
  input_context : option string;
  output : option string;
  error : option string;
  tokens_used : Z;
  se_cost : float;
  se_started_at : option Instant;
  se_completed_at : option Instant
}.

Record Data : Type := mkData {
  workflows : list Workflow;
  steps : list Step;
  runs : list Run;
  step_executions : list StepExecution
}.

(** [arr.find(p) || null] and [arr.findIndex(p)]. *)
Definition find {A} (p : A -> bool) (arr : list A) : option A :=
  snd <$> list_find (fun x => p x = true) arr.

Definition findIndex {A} (p : A -> bool) (arr : list A) : option nat :=
  fst <$> list_find (fun x => p x = true) arr.

(** [arr.push(x)]. *)
Definition push {A} (arr : list A) (x : A) : list A := arr ++ [x].

Definition getWorkflow (id : Id) (data : Data) : option Workflow :=
  find (fun w => Nat.eqb (wf_id w) id) (workflows data).

(** [sort((a, b) => a.order_index - b.order_index)]: the sort is stable. *)
Fixpoint insert_by_order (s : Step) (sorted : list Step) : list Step :=
  match sorted with
  | [] => [s]
  | x :: rest =>
      if order_index s <=? order_index x then s :: x :: rest
      else x :: insert_by_order s rest
  end.

Definition sort_by_order (l : list Step) : list Step := foldr insert_by_order [] l.

Definition getWorkflowSteps (workflowId : Id) (data : Data) : list Step :=
  sort_by_order (List.filter (fun s => Nat.eqb (step_workflow_id s) workflowId) (steps data)).

Definition createRun (id : Id) (now : Instant) (workflowId : Id) (data : Data) : Run * Data :=
  let run := mkRun id workflowId RunRunning now None 0%float 0 in
  (run, mkData (workflows data) (steps data) (push (runs data) run) (step_executions data)).

(** [updates] is the object spread over the record: the fields it sets. *)
Definition updateRun (id : Id) (updates : Run -> Run) (data : Data) : Data :=
  match findIndex (fun r => Nat.eqb (run_id r) id) (runs data) with
  | None => data
  | Some index =>
      match runs data !! index with
      | Some old =>
          mkData (workflows data) (steps data) (<[index := updates old]> (runs data))
            (step_executions data)
      | None => data
      end
  end.

Definition createStepExecution (id : Id) (runId stepId : Id) (data : Data)
  : StepExecution * Data :=
  let execution :=
    mkStepExecution id runId stepId Pending 0 None None None 0 0%float None None in
  (execution,
   mkData (workflows data) (steps data) (runs data) (push (step_executions data) execution)).

Definition getStepExecution (runId stepId : Id) (data : Data) : option StepExecution :=
  find (fun se => Nat.eqb (se_run_id se) runId && Nat.eqb (se_step_id se) stepId)
    (step_executions data).

Definition updateStepExecution (id : Id) (updates : StepExecution -> StepExecution)
    (data : Data) : Data :=
  match findIndex (fun se => Nat.eqb (se_id se) id) (step_executions data) with
  | None => data
  | Some index =>
      match step_executions data !! index with
      | Some old =>
          mkData (workflows data) (steps data) (runs data)
            (<[index := updates old]> (step_executions data))
      | None => data
      end
  end.

(** The record [getRun(id)] reads (it adds the name of the workflow to it),
    and the step executions of a run in the order of the array, which is the
    order of their creation. *)
Definition getRun (id : Id) (data : Data) : option Run :=
  find (fun r => Nat.eqb (run_id r) id) (runs data).

Definition stepExecutionsOf (runId : Id) (data : Data) : list StepExecution :=
  List.filter (fun se => Nat.eqb (se_run_id se) runId) (step_executions data).

End Db.

(** ** services/executor.js: prompt preparation *)

Module Prompt.

(** The placeholder [{context}] of a prompt template. *)
Definition placeholder : string := "{context}".

(** Lines 347-350 of [executeSteps]:
    [let prompt = step.prompt;
     if (previousContext && prompt.includes('{context}'))
       prompt = prompt.replace(/\{context\}/g, previousContext);] *)
Definition renderPrompt (prompt previousContext : string) : string :=
  if JS.truthy previousContext && JS.includes prompt placeholder
  then JS.replace_global placeholder previousContext prompt
  else prompt.

(** Line 353, with [prompt] the rendered prompt:
    [prompt.includes(previousContext) ? '' : previousContext]. *)
Definition contextToPass (prompt previousContext : string) : string :=
  if JS.includes prompt previousContext then EmptyString else previousContext.

(** What the specification asks of the rendering, in its own words: every
    occurrence of the placeholder, found from the left, is replaced. *)
Fixpoint find_first (pat s : string) : option (string * string) :=
  if JS.startsWith s pat then Some (EmptyString, JS.drop (String.length pat) s)
  else match s with
       | EmptyString => None
       | String c r =>
           match find_first pat r with
           | Some (pre, rest) => Some (String c pre, rest)
           | None => None
           end
       end.

Fixpoint substitute_every_occurrence (fuel : nat) (pat by_ s : string) : string :=
  match fuel with
  | O => s
  | S f =>
      match find_first pat s with
      | None => s
      | Some (pre, rest) => pre +:+ by_ +:+ substitute_every_occurrence f pat by_ rest
      end
  end.

Definition spec_render (prompt previousContext : string) : string :=
  substitute_every_occurrence (String.length prompt) placeholder previousContext prompt.

(** The replacement text holds one of the two-character patterns that
    [replace] expands. *)
Fixpoint has_dollar_pattern (s : string) : bool :=
  match s with
  | EmptyString => false
  | String c r =>
      (Ascii.eqb c "$" &&
         match r with
         | EmptyString => false
         | String d _ =>
             Ascii.eqb d "$" || Ascii.eqb d "&" || Ascii.eqb d "`" || Ascii.eqb d "'"
         end)
      || has_dollar_pattern r
  end.

End Prompt.

(** ** services/executor.js: the WorkflowExecutor *)

Module Executor.
Import Db.

(** An entry of [activeRuns]: [{ workflowId, status }]. *)
Record ActiveRun : Type := mkActiveRun { ar_workflowId : Id; ar_status : RunStatus }.

(** The events handed to [broadcast]. *)
Inductive Event : Type :=
| step_started (stepId : Id) (stepIndex : nat) (stepName : string)
| step_attempt (stepId : Id) (attempt maxAttempts : Z)
| step_response (stepId : Id) (output : string) (tokens : Tokens) (cost : float)
| step_evaluated (stepId : Id) (passed : bool) (reason : string)
| step_error (stepId : Id) (error : string)
| step_completed (stepId : Id) (stepIndex : nat) (passed : bool) (error : option string)
| run_completed (runId : Id) (status : RunStatus) (error : option string)
    (totalCost : float) (totalTokens : Z).

(** A message as sent to the clients: [{ runId, ...event, timestamp }]. *)
Record Message : Type := mkMessage {
  msg_runId : Id;
  msg_event : Event;
  msg_timestamp : Instant
}.

(** A client of the WebSocket server, an element of [wsServer.clients]:
    [readyState] is 1 for a connection that is open. *)
Record Client : Type := mkClient { client_id : nat; readyState : Z }.

(** A call of [client.send(message)]. *)
Record Delivery : Type := mkDelivery { recipient : nat; delivered : Message }.

(** The state the engine works on: the database, the table of the active
    runs, what was sent to the clients so far, and how far the identifier
    supply, the provider and the clock have been read. *)
Record State : Type := mkState {
  data : Data;
  activeRuns : gmap Id ActiveRun;
  sent : list Delivery;
  next_uuid : nat;
  provider_calls : nat;
  clock_reads : nat
}.

Definition M (A : Type) : Type := State -> A * State.

Definition ret {A} (a : A) : M A := fun s => (a, s).

Definition bind {A B} (m : M A) (k : A -> M B) : M B :=
  fun s => let '(a, s') := m s in k a s'.

Notation "x <- m ;; k" := (bind m (fun x => k))
  (at level 100, m at next level, right associativity).
Notation "m ;;; k" := (bind m (fun _ => k))
  (at level 100, right associativity).

Definition get_data : M Data := fun s => (data s, s).

Definition set_data (d : Data) : M unit :=
  fun s => (tt, mkState d (activeRuns s) (sent s) (next_uuid s) (provider_calls s)
                  (clock_reads s)).

Definition uuidv4 : M Id :=
  fun s => (next_uuid s,
            mkState (data s) (activeRuns s) (sent s) (S (next_uuid s)) (provider_calls s)
              (clock_reads s)).

Definition activeRuns_set (runId : Id) (entry : ActiveRun) : M unit :=
  fun s => (tt, mkState (data s) (<[runId := entry]> (activeRuns s)) (sent s) (next_uuid s)
                  (provider_calls s) (clock_reads s)).

Definition activeRuns_delete (runId : Id) : M unit :=
  fun s => (tt, mkState (data s) (delete runId (activeRuns s)) (sent s) (next_uuid s)
                  (provider_calls s) (clock_reads s)).

(** [getRunStatus(runId)]: [this.activeRuns.get(runId) || null]. *)
Definition getRunStatus (runId : Id) (s : State) : option ActiveRun := activeRuns s !! runId.

Section WithEnvironment.

(** The environment of an engine: the regular-expression engine, the
    completion endpoint behind [UnboundService.call] (its [n]-th request,
    for a model and a full prompt, after the retries of the service), the
    clock (its [n]-th reading) and the WebSocket server given to the
    constructor: [None] is [null], and [Some clients] is a server whose
    clients are [clients n] once the clock has been read [n] times. *)
Variable RegExp_new : string -> string -> Completion (string -> bool).
Variable completion : nat -> string -> string -> Completion ProviderResult.
Variable clock : nat -> Instant.
Variable wsServer : option (nat -> list Client).

Definition Date_now : M Instant :=
  fun s => (clock (clock_reads s),
            mkState (data s) (activeRuns s) (sent s) (next_uuid s) (provider_calls s)
              (S (clock_reads s))).

(** [UnboundService.call(prompt, model, context)]: the context, when
    there is one, is put in front of the prompt. *)
Definition fullPrompt (prompt context : string) : string :=
  if JS.truthy context
  then "Context from previous step:" +:+ JS.LF +:+ context +:+ JS.LF +:+ JS.LF +:+ "---"
         +:+ JS.LF +:+ JS.LF +:+ prompt
  else prompt.

Definition unbound_call (prompt model context : string) : M (Completion ProviderResult) :=
  fun s => (completion (provider_calls s) model (fullPrompt prompt context),
            mkState (data s) (activeRuns s) (sent s) (next_uuid s) (S (provider_calls s))
              (clock_reads s)).

(** [clients.forEach(client => { if (client.readyState === 1)
    client.send(message) })]. *)
Fixpoint sendAll (clients : list Client) (message : Message) (log : list Delivery)
  : list Delivery :=
  match clients with
  | [] => log
  | client :: rest =>
      sendAll rest message
        (if readyState client =? 1 then log ++ [mkDelivery (client_id client) message]
         else log)
  end.

(** [broadcast(runId, event)]: nothing without a server; else the message
    gets its timestamp and goes to the clients that are open. *)
Definition broadcast (runId : Id) (event : Event) : M unit :=
  match wsServer with
  | None => ret tt
  | Some clients =>
      timestamp <- Date_now ;;
      fun s => (tt, mkState (data s) (activeRuns s)
                      (sendAll (clients (clock_reads s)) (mkMessage runId event timestamp)
                         (sent s))
                      (next_uuid s) (provider_calls s) (clock_reads s))
  end.

Definition db_createRun (workflowId : Id) : M Run :=
  id <- uuidv4 ;;
  now <- Date_now ;;
  d <- get_data ;;
  let '(run, d') := createRun id now workflowId d in
  set_data d' ;;; ret run.

Definition db_createStepExecution (runId stepId : Id) : M StepExecution :=
  id <- uuidv4 ;;
  d <- get_data ;;
  let '(execution, d') := createStepExecution id runId stepId d in
  set_data d' ;;; ret execution.

Definition db_updateStepExecution (id : Id) (updates : StepExecution -> StepExecution)
  : M unit :=
  d <- get_data ;; set_data (updateStepExecution id updates d).

Definition db_updateRun (id : Id) (updates : Run -> Run) : M unit :=
  d <- get_data ;; set_data (updateRun id updates d).

(** [steps.forEach(f)]. *)
Fixpoint forEach {A} (l : list A) (f : A -> M unit) : M unit :=
  match l with
  | [] => ret tt
  | x :: rest => f x ;;; forEach rest f
  end.

Definition completeRun (runId : Id) (totalCost : float) (totalTokens : Z) : M unit :=
  now <- Date_now ;;
  db_updateRun runId (fun r =>
    mkRun (run_id r) (run_workflow_id r) RunCompleted (run_started_at r) (Some now)
      totalCost totalTokens) ;;;
  activeRuns_delete runId ;;;
  broadcast runId (run_completed runId RunCompleted None totalCost totalTokens).

Definition failRun (runId : Id) (error : string) (totalCost : float) (totalTokens : Z)
  : M unit :=
  now <- Date_now ;;
  db_updateRun runId (fun r =>
    mkRun (run_id r) (run_workflow_id r) RunFailed (run_started_at r) (Some now)
      totalCost totalTokens) ;;;
  activeRuns_delete runId ;;;
  broadcast runId (run_completed runId RunFailed (Some error) totalCost totalTokens).

(** The variables of one turn of the [for] loop of [executeSteps] that
    the [while] loop of the attempts changes. *)
Record Attempts : Type := mkAttempts {
  a_passed : bool;
  lastOutput : string;
  lastError : string;
  a_attempts : Z;
  stepCost : float;
  stepTokens : Z
}.

(** The judge given to [evaluateCriteria] for the [llm] criterion, at the
    [n]-th request to the endpoint:
    [(evalPrompt) => this.unbound.call(evalPrompt, 'kimi-k2-instruct-0905')]. *)
Definition llmEvaluator (n : nat) : Criteria.LlmCall :=
  fun evalPrompt _ => completion n "kimi-k2-instruct-0905" (fullPrompt evalPrompt EmptyString).

(** [await evaluateCriteria(lastOutput, step.criteria_type,
    step.criteria_value, llmEvaluator)]; the judge is called once, when
    the criterion is [llm] and there is an output. *)
Definition evaluate (output : string) (step : Step) : M (Completion Criteria.Verdict) :=
  fun s =>
    let isLlm := String.eqb (criteria_type step) "llm" in
    let judge := if isLlm then Some (llmEvaluator (provider_calls s)) else None in
    (Criteria.evaluateCriteria RegExp_new output (criteria_type step) (criteria_value step)
       judge,
     if isLlm && JS.truthy output
     then mkState (data s) (activeRuns s) (sent s) (next_uuid s) (S (provider_calls s))
            (clock_reads s)
     else s).

(** The body of the [while] loop: one attempt. The delay before the next
    attempt changes nothing of the state. *)
Definition attempt (runId : Id) (step : Step) (previousContext : string) (a : Attempts)
  : M Attempts :=
  let attempts := a_attempts a + 1 in
  broadcast runId (step_attempt (step_id step) attempts (retry_limit step)) ;;;
  let prompt := Prompt.renderPrompt (Db.prompt step) previousContext in
  let contextToPass := Prompt.contextToPass prompt previousContext in
  called <- unbound_call prompt (model step) contextToPass ;;
  match called with
  | Throw message =>
      broadcast runId (step_error (step_id step) message) ;;;
      ret (mkAttempts (a_passed a) (lastOutput a) message attempts (stepCost a)
             (stepTokens a))
  | Return result =>
      let lastOutput' := content result in
      let stepCost' := (stepCost a + cost result)%float in
      let stepTokens' := stepTokens a + tk_total (tokens result) in
      broadcast runId
        (step_response (step_id step) lastOutput' (tokens result) (cost result)) ;;;
      evaluated <- evaluate lastOutput' step ;;
      match evaluated with
      | Throw message =>
          broadcast runId (step_error (step_id step) message) ;;;
          ret (mkAttempts (a_passed a) lastOutput' message attempts stepCost' stepTokens')
      | Return evaluation =>
          broadcast runId
            (step_evaluated (step_id step) (Criteria.passed evaluation)
               (Criteria.reason evaluation)) ;;;
          if Criteria.passed evaluation
          then ret (mkAttempts true lastOutput' (lastError a) attempts stepCost'
                      stepTokens')
          else ret (mkAttempts (a_passed a) lastOutput' (Criteria.reason evaluation)
                      attempts stepCost' stepTokens')
      end
  end.

(** [while (!passed && attempts < step.retry_limit)]. [None] stands for a
    loop that has not ended within [fuel] turns. *)
Fixpoint attemptLoop (fuel : nat) (runId : Id) (step : Step) (previousContext : string)
    (a : Attempts) : M (option Attempts) :=
  if negb (a_passed a) && (a_attempts a <? retry_limit step) then
    match fuel with
    | O => ret None
    | S fuel' =>
        a' <- attempt runId step previousContext a ;;
        attemptLoop fuel' runId step previousContext a'
    end
  else ret (Some a).

Definition loopFuel (step : Step) : nat := Z.to_nat (retry_limit step).

(** What the step-processing sequence ends with: it returns, it throws,
    or (in the model only) a loop ran out of fuel. *)
Inductive Outcome : Type :=
| Finished
| Thrown (message : string)
| OutOfFuel.

Definition stepFailedMessage (step : Step) (lastError : string) : string :=
  "Step " +:+ Criteria.quoted (step_name step) +:+ " failed: " +:+ lastError.

(** [executeSteps(runId, steps)], from the step of index [i] on. *)
Fixpoint executeStepsFrom (runId : Id) (steps : list Step) (i : nat)
    (previousContext : string) (totalCost : float) (totalTokens : Z) : M Outcome :=
  match steps with
  | [] => completeRun runId totalCost totalTokens ;;; ret Finished
  | step :: rest =>
      d <- get_data ;;
      match getStepExecution runId (step_id step) d with
      | None => ret (Thrown "Cannot read properties of null (reading 'id')")
      | Some stepExec =>
          started <- Date_now ;;
          db_updateStepExecution (se_id stepExec) (fun se =>
            mkStepExecution (se_id se) (se_run_id se) (se_step_id se) Running (attempts se)
              (Some previousContext) (output se) (error se) (tokens_used se) (se_cost se)
              (Some started) (se_completed_at se)) ;;;
          broadcast runId (step_started (step_id step) i (step_name step)) ;;;
          looped <- attemptLoop (loopFuel step) runId step previousContext
                      (mkAttempts false EmptyString EmptyString 0 0%float 0) ;;
          match looped with
          | None => ret OutOfFuel
          | Some a =>
              let totalCost' := (totalCost + stepCost a)%float in
              let totalTokens' := totalTokens + stepTokens a in
              completed <- Date_now ;;
              db_updateStepExecution (se_id stepExec) (fun se =>
                mkStepExecution (se_id se) (se_run_id se) (se_step_id se)
                  (if a_passed a then Passed else Failed) (a_attempts a)
                  (input_context se) (Some (lastOutput a))
                  (if a_passed a then None else Some (lastError a))
                  (stepTokens a) (stepCost a) (se_started_at se) (Some completed)) ;;;
              if a_passed a then
                let previousContext' :=
                  Criteria.extractContext (lastOutput a) (context_mode step) in
                broadcast runId (step_completed (step_id step) i true None) ;;;
                executeStepsFrom runId rest (S i) previousContext' totalCost' totalTokens'
              else
                broadcast runId
                  (step_completed (step_id step) i false (Some (lastError a))) ;;;
                failRun runId (stepFailedMessage step (lastError a)) totalCost'
                  totalTokens' ;;;
                ret Finished
          end
      end
  end.

Definition executeSteps (runId : Id) (steps : list Step) : M Outcome :=
  executeStepsFrom runId steps 0 EmptyString 0%float 0.

(** The part of [execute(workflowId)] that runs before the caller gets
    the run identifier: it throws, or it creates the records, registers
    the run and gives the run and its steps to the background sequence. *)
Definition start (workflowId : Id) : M (Completion (Id * list Step)) :=
  d <- get_data ;;
  match getWorkflow workflowId d with
  | None => ret (Throw "Workflow not found")
  | Some workflow =>
      let steps := getWorkflowSteps workflowId d in
      if (length steps =? 0)%nat then ret (Throw "Workflow has no steps")
      else
        run <- db_createRun workflowId ;;
        forEach steps (fun step =>
          db_createStepExecution (run_id run) (step_id step) ;;; ret tt) ;;;
        activeRuns_set (run_id run) (mkActiveRun workflowId RunRunning) ;;;
        ret (Return (run_id run, steps))
  end.

(** The background sequence of a run:
    [this.executeSteps(run.id, steps).catch(error => this.failRun(run.id, error.message))]. *)
Definition background (runId : Id) (steps : list Step) : M Outcome :=
  outcome <- executeSteps runId steps ;;
  match outcome with
  | Thrown message => failRun runId message 0%float 0 ;;; ret outcome
  | _ => ret outcome
  end.

(** [execute(workflowId)], followed to the end of the background
    sequence of the run it starts. *)
Definition execute (workflowId : Id) : M (Completion Id * option Outcome) :=
  started <- start workflowId ;;
  match started with
  | Throw message => ret (Throw message, None)
  | Return (runId, steps) =>
      outcome <- background runId steps ;;
      ret (Return runId, Some outcome)
  end.

End WithEnvironment.

End Executor.

(** ** What the properties of the engine are stated with *)

Module Spec.
Import Db Executor.

(** Only the messages sent and the readings of the provider and the clock
    differ between two states. *)
Definition same_store (s s' : State) : Prop :=
  data s' = data s /\ activeRuns s' = activeRuns s /\ next_uuid s' = next_uuid s.

(** The identifiers in the database come from the supply: those of the runs
    and of the step executions, and the runs the step executions refer to,
    are below the next identifier. *)
Definition fresh_ids (s : State) : Prop :=
  Forall (fun r => (run_id r < next_uuid s)%nat) (runs (data s))
  /\ Forall (fun se => (se_id se < next_uuid s)%nat /\ (se_run_id se < next_uuid s)%nat)
       (step_executions (data s)).

(** The steps of the database have identifiers of their own. *)
Definition distinct_steps (s : State) : Prop := NoDup (map step_id (steps (data s))).

(** The statuses of the step executions of a run, in the order of the steps. *)
Definition statusesOf (runId : Id) (d : Data) : list StepStatus :=
  map se_status (stepExecutionsOf runId d).

(** Exactly one status is [Failed] and every later one is [Pending]. *)
Definition one_failed_then_pending (statuses : list StepStatus) : Prop :=
  exists i,
    statuses !! i = Some Failed
    /\ (forall j, statuses !! j = Some Failed -> j = i)
    /\ (forall j st, (i < j)%nat -> statuses !! j = Some st -> st = Pending).

(** What holds of the table in every state of an engine. *)
Definition registry_invariant (s : State) : Prop :=
  (forall runId entry, activeRuns s !! runId = Some entry -> ar_status entry = RunRunning)
  /\ (forall r, r ∈ runs (data s) -> run_status r <> RunRunning ->
                activeRuns s !! run_id r = None)
  /\ Forall (fun r => (run_id r < next_uuid s)%nat) (runs (data s)).

(** The fields [completeRun] and [failRun] set. *)
Definition terminal (status : RunStatus) (now : Instant) (totalCost : float) (totalTokens : Z)
    (r : Run) : Run :=
  mkRun (run_id r) (run_workflow_id r) status (run_started_at r) (Some now) totalCost
    totalTokens.

(** The records [execute] creates for the steps of a run, the first with the
    identifier [base]. *)
Fixpoint pendingRecords (base : nat) (runId : Id) (steps : list Step) : list StepExecution :=
  match steps with
  | [] => []
  | step :: rest =>
      mkStepExecution base runId (step_id step) Pending 0 None None None 0 0%float None None
        :: pendingRecords (S base) runId rest
  end.

Section WithEnvironment.

Variable RegExp_new : string -> string -> Completion (string -> bool).
Variable completion : nat -> string -> string -> Completion ProviderResult.
Variable clock : nat -> Instant.
Variable wsServer : option (nat -> list Client).

(** [out] is the output of an attempt of [step] made with the context [ctx]
    that passed: the provider answered the rendered prompt with it, and the
    criterion of the step accepted it. *)
Definition PassingOutput (step : Step) (ctx out : string) : Prop :=
  exists n result judge verdict,
    let rendered := Prompt.renderPrompt (prompt step) ctx in
    completion n (model step) (fullPrompt rendered (Prompt.contextToPass rendered ctx))
    = Return result
    /\ content result = out
    /\ Criteria.evaluateCriteria RegExp_new out (criteria_type step) (criteria_value step) judge
       = Return verdict
    /\ Criteria.passed verdict = true.

(** The records a run leaves for its steps, from a step entered with the
    context [ctx] on, and the status the run ends with: the steps pass one
    after the other, each handing the context extracted from its output to
    the next, until the steps end or one fails, the later ones staying
    pending. *)
Inductive Trace : string -> list Step -> list StepExecution -> RunStatus -> Prop :=
| Trace_completed ctx : Trace ctx [] [] RunCompleted
| Trace_passed ctx step rest se ses status out :
    se_step_id se = step_id step ->
    se_status se = Passed ->
    input_context se = Some ctx ->
    output se = Some out ->
    PassingOutput step ctx out ->
    (0 < retry_limit step -> 1 <= attempts se <= retry_limit step) ->
    Trace (Criteria.extractContext out (context_mode step)) rest ses status ->
    Trace ctx (step :: rest) (se :: ses) status
| Trace_failed ctx step rest se ses :
    se_step_id se = step_id step ->
    se_status se = Failed ->
    input_context se = Some ctx ->
    (0 < retry_limit step -> 1 <= attempts se <= retry_limit step) ->
    Forall2 (fun se' step' => se_step_id se' = step_id step' /\ se_status se' = Pending)
      ses rest ->
    Trace ctx (step :: rest) (se :: ses) RunFailed.

(** The states of an engine: it is built with an empty table of active runs
    over a database whose runs have identifiers from the supply; then
    [execute] is called, and the background sequences of the runs end, in
    any order. The table and the statuses of the runs change only in the
    part of [execute] before its first suspension and in [completeRun] and
    [failRun], which run without suspension, so the states between two
    suspensions of a background sequence show nothing more of them. *)
Inductive Reachable : State -> Prop :=
| Reachable_new s :
    activeRuns s = ∅ ->
    Forall (fun r => (run_id r < next_uuid s)%nat) (runs (data s)) ->
    Reachable s
| Reachable_start s workflowId :
    Reachable s -> Reachable (snd (start clock workflowId s))
| Reachable_background s runId steps :
    Reachable s ->
    Reachable (snd (background RegExp_new completion clock wsServer runId steps s)).

End WithEnvironment.

End Spec.

(** ** A database and an environment to run the engine on *)

Module Sample.
Import Db Executor.

(** A regular-expression engine that accepts no pattern, a provider that
    answers its [n]-th request with [answer n], and a clock that ticks at
    each reading. *)
Definition RegExp_none : string -> string -> Completion (string -> bool) :=
  fun _ _ => Throw "Invalid regular expression".

Definition provider (n : nat) (model fullPrompt : string) : Completion ProviderResult :=
  Return (mkProviderResult ("answer " +:+ JS.ZtoString (Z.of_nat n)) (mkTokens 1 2 3) 0.5%float).

Definition clock (n : nat) : Instant := Z.of_nat n.

(** A server with two clients, the first open and the second closed. *)
Definition server : option (nat -> list Client) :=
  Some (fun _ => [mkClient 1 1; mkClient 2 3]).

(** Workflow 1 has a step that always passes and a step that asks for a text
    the provider never gives; workflow 2 has no step; workflow 3 has one
    step that always passes. A run of workflow 3 has completed before. *)
Definition step_one : Step :=
  mkStep 10 1 0 "one" "kimi-k2p5" "Say hi" "always" EmptyString 3 "full".

Definition step_two : Step :=
  mkStep 11 1 1 "two" "kimi-k2p5" "Then {context}!" "contains" "XYZ" 2 "full".

Definition step_three : Step :=
  mkStep 12 3 0 "three" "kimi-k2p5" "Say hi" "always" EmptyString 3 "full".

Definition db : Data :=
  mkData
    [mkWorkflow 1 "two steps" "d" 0 0; mkWorkflow 2 "no step" "d" 0 0;
     mkWorkflow 3 "one step" "d" 0 0]
    [step_two; step_one; step_three]
    [mkRun 50 3 RunCompleted 0 (Some 5) 0.5%float 3]
    [mkStepExecution 51 50 12 Passed 1 (Some EmptyString) (Some "answer 0") None 3 0.5%float
       (Some 1) (Some 4)].

Definition state : State := mkState db ∅ [] 100 0 0.

Definition run (workflowId : Id) : (Completion Id * option Outcome) * State :=
  execute RegExp_none provider clock server workflowId state.

End Sample.

(** ** The candidates of the [json] criterion, in the words of the
    specification *)

Module Found.

(** A string of white space. *)
Definition blank (s : string) : Prop :=
  Forall (fun c => JS.isWhiteSpace c = true) (String.list_ascii_of_string s).

(** [sub] occurs in [s] at the position [i], and it occurs there first. *)
Definition occurs_at (sub s : string) (i : nat) : Prop :=
  exists before after, s = before +:+ sub +:+ after /\ String.length before = i.

Definition first_at (sub s : string) (i : nat) : Prop :=
  occurs_at sub s i /\ forall j, (j < i)%nat -> ~ occurs_at sub s j.

(** A fenced block with a tag: [block] is what stands between the first
    fence that the tag follows and the first fence after it, without the
    white space at its ends. *)
Definition fenced_block (tag output block : string) : Prop :=
  exists before body after,
    output = before +:+ (JS.fence +:+ tag) +:+ body +:+ JS.fence +:+ after
    /\ first_at (JS.fence +:+ tag) output (String.length before)
    /\ first_at JS.fence (body +:+ JS.fence +:+ after) (String.length body)
    /\ block = JS.trim body.

(** A delimited substring: from the first [open] to the last [close]. *)
Definition delimited (open close : ascii) (output sub : string) : Prop :=
  exists before middle after,
    output = before +:+ String open middle +:+ String close after
    /\ ~ In open (String.list_ascii_of_string before)
    /\ ~ In close (String.list_ascii_of_string after)
    /\ sub = String open middle +:+ String close EmptyString.

(** A fenced block tagged json, any fenced block, a brace-delimited
    substring, a bracket-delimited substring. *)
Definition json_candidate (output c : string) : Prop :=
  fenced_block "json" output c
  \/ fenced_block EmptyString output c
  \/ delimited "{" "}" output c
  \/ delimited "[" "]" output c.

End Found.

(** ** What a run leaves behind: requests, records and messages *)

(** The ASCII strings: their code units are below 128. *)
Definition ascii_only (s : string) : Prop :=
  Forall (fun c => (JS.code c < 128)%nat) (String.list_ascii_of_string s).

Module Ledger.
Import Db Executor Spec.

Section Requests.

Variable completion : nat -> string -> string -> Completion ProviderResult.

(** The request an attempt of [step] makes with the context [ctx], and the
    judge its evaluation is given after the [n]-th request. *)
Definition requestOf (step : Step) (ctx : string) : string :=
  fullPrompt (Prompt.renderPrompt (prompt step) ctx)
    (Prompt.contextToPass (Prompt.renderPrompt (prompt step) ctx) ctx).

Definition judgeOf (step : Step) (n : nat) : option Criteria.LlmCall :=
  if String.eqb (criteria_type step) "llm" then Some (llmEvaluator completion n) else None.

End Requests.

(** What the record of a step holds once the run has ended. *)
Definition Recorded (se : StepExecution) (step : Step) : Prop :=
  match se_status se with
  | Passed => error se = None /\ attempts se <= Z.max 0 (retry_limit step)
  | Failed => is_Some (error se) /\ attempts se = Z.max 0 (retry_limit step)
  | Pending =>
      attempts se = 0 /\ output se = None /\ input_context se = None
      /\ error se = None /\ tokens_used se = 0
  | Running => False
  end.

(** The record of a step as [execute] creates it. *)
Definition untouched (runId : Id) (se : StepExecution) (step : Step) : Prop :=
  se_run_id se = runId /\ se_step_id se = step_id step /\ se_status se = Pending
  /\ attempts se = 0 /\ output se = None /\ input_context se = None /\ error se = None
  /\ tokens_used se = 0.

(** The step executions of a run that have left [Pending]. *)
Definition executed (ses : list StepExecution) : list StepExecution :=
  List.filter (fun se => negb (bool_decide (se_status se = Pending))) ses.

(** The sums the engine keeps: [totalTokens += stepTokens] and
    [totalCost += stepCost], step after step. *)
Definition sumTokens (start : Z) (ses : list StepExecution) : Z :=
  foldl (fun acc se => acc + tokens_used se) start ses.

Definition sumCosts (start : float) (ses : list StepExecution) : float :=
  foldl (fun acc se => (acc + se_cost se)%float) start ses.

(** A message of the run, handed to a client of the server whose connection
    was open at some time. *)
Definition of_run (wsServer : option (nat -> list Client)) (runId : Id) (d : Delivery)
  : Prop :=
  msg_runId (delivered d) = runId
  /\ exists clients n client,
      wsServer = Some clients /\ client ∈ clients n
      /\ readyState client = 1 /\ recipient d = client_id client.

(** From [s] to [s'] only messages of the run were sent, each to an open
    client, and none without a server. *)
Definition appends (wsServer : option (nat -> list Client)) (runId : Id) (s s' : State)
  : Prop :=
  exists sends,
    sent s' = sent s ++ sends
    /\ Forall (of_run wsServer runId) sends
    /\ (wsServer = None -> sends = []).

(** What the last message of a run is. *)
Definition final_message (runId : Id) (status : RunStatus) (c : float) (t : Z)
    (m : Message) : Prop :=
  exists error, msg_runId m = runId /\ msg_event m = run_completed runId status error c t.

(** From [s] to [s'] the run was given a final status, and what was sent
    are messages of the run, each to an open client; the last message
    reports this status and the totals written to the run, and went to each
    client that was open then, once, and to no other. Without a server
    nothing was sent. *)
Definition closes (wsServer : option (nat -> list Client)) (runId : Id) (s s' : State)
  : Prop :=
  exists status now c t sends,
    status <> RunRunning
    /\ runs (data s') = runs (updateRun runId (terminal status now c t) (data s))
    /\ Forall (of_run wsServer runId) sends
    /\ match wsServer with
       | Some clients =>
           exists final,
             final_message runId status c t final
             /\ sent s'
                = sent s ++ sends
                    ++ map (fun client => mkDelivery (client_id client) final)
                         (List.filter (fun client => readyState client =? 1)
                            (clients (clock_reads s')))
       | None => sent s' = sent s
       end.

End Ledger.

(** ** db/schema.js: the operations on workflows, steps and statistics *)

Module Schema.
Import Db.

(** [arr.sort(cmp)] for a comparator that orders by a key: the sort is
    stable; [before a b] tells that [cmp(a, b) <= 0]. *)
Fixpoint insertBy {A} (before : A -> A -> bool) (a : A) (sorted : list A) : list A :=
  match sorted with
  | [] => [a]
  | x :: rest => if before a x then a :: x :: rest else x :: insertBy before a rest
  end.

Definition sortBy {A} (before : A -> A -> bool) (l : list A) : list A :=
  foldr (insertBy before) [] l.

(** A list is in the order of [before]: each element is before all the
    elements after it. *)
Fixpoint ordered {A} (before : A -> A -> bool) (l : list A) : Prop :=
  match l with
  | [] => True
  | a :: rest => Forall (fun b => before a b = true) rest /\ ordered before rest
  end.

(** [arr.filter(p).length]. *)
Definition count {A} (p : A -> bool) (l : list A) : nat := length (List.filter p l).

(** [arr.slice(start, end)]: a negative index counts from the end, and both
    are clamped to the array. *)
Definition sliceIndex (len i : Z) : Z := if i <? 0 then Z.max (len + i) 0 else Z.min i len.

Definition slice {A} (start end_ : Z) (l : list A) : list A :=
  let len := Z.of_nat (length l) in
  let k := sliceIndex len start in
  let final := sliceIndex len end_ in
  firstn (Z.to_nat (final - k)) (skipn (Z.to_nat k) l).

(** [s || d] for a string that may be absent. *)
Definition orString (s : option string) (d : string) : string :=
  match s with
  | Some v => if JS.truthy v then v else d
  | None => d
  end.

(** [n || d] for an integer that may be absent. *)
Definition orZ (n : option Z) (d : Z) : Z :=
  match n with
  | Some v => if v =? 0 then d else v
  | None => d
  end.

(** [x || d] for a number: 0 and NaN are falsy. *)
Definition orFloat (x d : float) : float :=
  if PrimFloat.is_nan x || PrimFloat.is_zero x then d else x.

(** A count as a number. *)
Definition floatOfNat (n : nat) : float := PrimFloat.of_uint63 (Uint63.of_Z (Z.of_nat n)).

(** *** Workflows *)

(** An element of [getAllWorkflows()]: the workflow with [step_count] and
    [run_count]. *)
Record WorkflowSummary : Type := mkWorkflowSummary {
  ws_workflow : Workflow;
  step_count : nat;
  run_count : nat
}.

Definition getAllWorkflows (data : Data) : list WorkflowSummary :=
  sortBy (fun a b => wf_updated_at (ws_workflow b) <=? wf_updated_at (ws_workflow a))
    (map (fun w =>
            mkWorkflowSummary w
              (count (fun s => Nat.eqb (step_workflow_id s) (wf_id w)) (steps data))
              (count (fun r => Nat.eqb (run_workflow_id r) (wf_id w)) (runs data)))
       (workflows data)).

Definition createWorkflow (id : Id) (now : Instant) (name : string)
    (description : option string) (data : Data) : Workflow * Data :=
  let workflow := mkWorkflow id name (orString description EmptyString) now now in
  (workflow,
   mkData (push (workflows data) workflow) (steps data) (runs data) (step_executions data)).

(** [updateWorkflow(id, name, description)]: [None] is [null]. *)
Definition updateWorkflow (now : Instant) (id : Id) (name description : string) (data : Data)
  : option Workflow * Data :=
  match findIndex (fun w => Nat.eqb (wf_id w) id) (workflows data) with
  | None => (None, data)
  | Some index =>
      match workflows data !! index with
      | Some old =>
          let updated := mkWorkflow (wf_id old) name description (wf_created_at old) now in
          (Some updated,
           mkData (<[index := updated]> (workflows data)) (steps data) (runs data)
             (step_executions data))
      | None => (None, data)
      end
  end.

Definition deleteWorkflow (id : Id) (data : Data) : bool * Data :=
  let initialLength := length (workflows data) in
  let data' :=
    mkData (List.filter (fun w => negb (Nat.eqb (wf_id w) id)) (workflows data))
      (List.filter (fun s => negb (Nat.eqb (step_workflow_id s) id)) (steps data))
      (List.filter (fun r => negb (Nat.eqb (run_workflow_id r) id)) (runs data))
      (step_executions data) in
  (negb (Nat.eqb initialLength (length (workflows data'))), data').

(** *** Steps *)

(** The object given to [addStep]: each field may be absent. *)
Record StepData : Type := mkStepData {
  sd_name : option string;
  sd_model : option string;
  sd_prompt : option string;
  sd_criteria_type : option string;
  sd_criteria_value : option string;
  sd_retry_limit : option Z;
  sd_context_mode : option string
}.

(** The object [addStep] builds. *)
Definition newStep (id : Id) (workflowId : Id) (orderIndex : Z) (stepData : StepData) : Step :=
  mkStep id workflowId orderIndex
    (orString (sd_name stepData) ("Step " +:+ JS.ZtoString (orderIndex + 1)))
    (orString (sd_model stepData) "kimi-k2-instruct-0905")
    (orString (sd_prompt stepData) EmptyString)
    (orString (sd_criteria_type stepData) "always")
    (orString (sd_criteria_value stepData) EmptyString)
    (orZ (sd_retry_limit stepData) 3)
    (orString (sd_context_mode stepData) "full").

Definition addStep (id : Id) (workflowId : Id) (orderIndex : Z) (stepData : StepData)
    (data : Data) : Step * Data :=
  let step := newStep id workflowId orderIndex stepData in
  (step, mkData (workflows data) (push (steps data) step) (runs data) (step_executions data)).

(** The fields [addStep] never leaves blank. *)
Definition filled (s : Step) : Prop :=
  JS.truthy (step_name s) = true /\ JS.truthy (model s) = true
  /\ JS.truthy (criteria_type s) = true /\ JS.truthy (context_mode s) = true
  /\ retry_limit s <> 0.

Definition deleteWorkflowSteps (workflowId : Id) (data : Data) : Data :=
  mkData (workflows data)
    (List.filter (fun s => negb (Nat.eqb (step_workflow_id s) workflowId)) (steps data))
    (runs data) (step_executions data).

(** *** Runs *)

(** [workflow?.name || 'Unknown']. *)
Definition workflowName (workflowId : Id) (data : Data) : string :=
  orString (wf_name <$> find (fun w => Nat.eqb (wf_id w) workflowId) (workflows data))
    "Unknown".

(** An element of [getAllRuns().runs]. *)
Record RunSummary : Type := mkRunSummary {
  rs_run : Run;
  rs_workflow_name : string;
  total_steps : nat;
  passed_steps : nat
}.

(** [getAllRuns(limit, offset)]: [data.runs.sort(..)] sorts the array of the
    database itself, the latest start first; the result is the page and the
    number of runs. *)
Definition getAllRuns (limit offset : Z) (data : Data) : (list RunSummary * nat) * Data :=
  let sorted := sortBy (fun a b => run_started_at b <=? run_started_at a) (runs data) in
  let data' := mkData (workflows data) (steps data) sorted (step_executions data) in
  let page :=
    map (fun r =>
           mkRunSummary r (workflowName (run_workflow_id r) data')
             (count (fun se => Nat.eqb (se_run_id se) (run_id r)) (step_executions data'))
             (count (fun se => Nat.eqb (se_run_id se) (run_id r)
                               && bool_decide (se_status se = Passed))
                (step_executions data')))
      (slice offset (offset + limit) sorted) in
  ((page, length (runs data')), data').

(** [getRun(id)]: the run with the name of its workflow. *)
Definition getRun (id : Id) (data : Data) : option (Run * string) :=
  match find (fun r => Nat.eqb (run_id r) id) (runs data) with
  | None => None
  | Some run => Some (run, workflowName (run_workflow_id run) data)
  end.

(** An element of [getRunStepExecutions(runId)]. *)
Record StepExecutionView : Type := mkStepExecutionView {
  sv_execution : StepExecution;
  sv_step_name : string;
  sv_model : string;
  sv_prompt : string;
  sv_criteria_type : option string;
  sv_criteria_value : option string
}.

Definition stepOf (stepId : Id) (data : Data) : option Step :=
  find (fun s => Nat.eqb (step_id s) stepId) (steps data).

(** [stepA?.order_index || 0]. *)
Definition orderOf (stepId : Id) (data : Data) : Z :=
  orZ (order_index <$> stepOf stepId data) 0.

(** [{ ...se, step_name: step?.name || 'Unknown', ... }]. *)
Definition viewOf (data : Data) (se : StepExecution) : StepExecutionView :=
  let step := stepOf (se_step_id se) data in
  mkStepExecutionView se
    (orString (step_name <$> step) "Unknown")
    (orString (model <$> step) "Unknown")
    (orString (prompt <$> step) EmptyString)
    (criteria_type <$> step)
    (criteria_value <$> step).

Definition getRunStepExecutions (runId : Id) (data : Data) : list StepExecutionView :=
  sortBy (fun a b =>
            orderOf (se_step_id (sv_execution a)) data
            <=? orderOf (se_step_id (sv_execution b)) data)
    (map (viewOf data)
       (List.filter (fun se => Nat.eqb (se_run_id se) runId) (step_executions data))).

(** *** Statistics *)

Record Stats : Type := mkStats {
  total_runs : nat;
  completed_runs : nat;
  failed_runs : nat;
  stats_total_cost : float;
  stats_total_tokens : Z;
  avg_cost_per_run : float
}.

Definition getStats (data : Data) : Stats :=
  let totalRuns := length (runs data) in
  let totalCost :=
    foldl (fun sum r => (sum + orFloat (total_cost r) 0)%float) 0%float (runs data) in
  let totalTokens := foldl (fun sum r => sum + orZ (Some (total_tokens r)) 0) 0 (runs data) in
  mkStats totalRuns
    (count (fun r => bool_decide (run_status r = RunCompleted)) (runs data))
    (count (fun r => bool_decide (run_status r = RunFailed)) (runs data))
    totalCost totalTokens
    (if (0 <? totalRuns)%nat then (totalCost / floatOfNat totalRuns)%float else 0%float).

End Schema.

(** ** services/unbound.js *)

Module Unbound.

(** [MODEL_COSTS]: the cost of 1000 tokens. *)
Record Costs : Type := mkCosts { c_input : float; c_output : float }.

#[warnings="-inexact-float"]
Definition premium : Costs := mkCosts 0.002 0.006.

#[warnings="-inexact-float"]
Definition standard : Costs := mkCosts 0.001 0.003.

Definition MODEL_COSTS : list (string * Costs) :=
  [("kimi-k2p5", premium); ("kimi-k2-instruct-0905", standard)].

(** [AVAILABLE_MODELS]. *)
Record Model : Type := mkModel {
  m_id : string;
  m_name : string;
  m_provider : string;
  m_tier : string
}.

Definition AVAILABLE_MODELS : list Model :=
  [mkModel "kimi-k2p5" "Kimi K2P5" "Moonshot" "premium";
   mkModel "kimi-k2-instruct-0905" "Kimi K2 Instruct" "Moonshot" "standard"].

(** The names every object inherits from [Object.prototype]: [MODEL_COSTS[m]]
    is truthy for them, and has no [input] and no [output]. *)
Definition Object_prototype : list string :=
  ["constructor"; "__defineGetter__"; "__defineSetter__"; "hasOwnProperty";
   "__lookupGetter__"; "__lookupSetter__"; "isPrototypeOf"; "propertyIsEnumerable";
   "toString"; "valueOf"; "__proto__"; "toLocaleString"].

Fixpoint assoc {A} (key : string) (table : list (string * A)) : option A :=
  match table with
  | [] => None
  | (k, v) :: rest => if String.eqb k key then Some v else assoc key rest
  end.

(** A token count as a number (counts stay far below 2^63). *)
Definition number (n : Z) : float :=
  if n <? 0 then (- PrimFloat.of_uint63 (Uint63.of_Z (- n)))%float
  else PrimFloat.of_uint63 (Uint63.of_Z n).

Definition price (costs : Costs) (inputTokens outputTokens : Z) : float :=
  (number inputTokens / 1000 * c_input costs + number outputTokens / 1000 * c_output costs)%float.

(** [calculateCost(model, inputTokens, outputTokens)]:
    [MODEL_COSTS[model] || MODEL_COSTS['kimi-k2-instruct-0905']]. *)
Definition calculateCost (model : string) (inputTokens outputTokens : Z) : float :=
  match assoc model MODEL_COSTS with
  | Some costs => price costs inputTokens outputTokens
  | None =>
      if bool_decide (model ∈ Object_prototype) then PrimFloat.nan
      else price standard inputTokens outputTokens
  end.

Definition getModels : list Model := AVAILABLE_MODELS.

(** [/code|analyze|reason|complex|detailed|comprehensive/i.test(prompt)]. *)
Definition isComplex (prompt : string) : bool :=
  let p := JS.toLowerCase prompt in
  JS.includes p "code" || JS.includes p "analyze" || JS.includes p "reason"
  || JS.includes p "complex" || JS.includes p "detailed" || JS.includes p "comprehensive".

(** [suggestModel(prompt, maxCost)]: [maxCost] is not read. *)
Definition suggestModel (prompt : string) (maxCost : float) : string :=
  if isComplex prompt || (2000 <? JS.len prompt) then "kimi-k2p5"
  else "kimi-k2-instruct-0905".

(** *** The call, with its retries *)

(** The body of a response: [choices?.[0]?.message?.content] and [usage],
    each of which may be missing. *)
Record Usage : Type := mkUsage { prompt_tokens : Z; completion_tokens : Z }.

Record ResponseData : Type := mkResponseData {
  choice_content : option string;
  usage : option Usage
}.

(** What [axios.post] rejects with: [message], [code], and [response] when
    the server answered, with its [status] and [data?.error?.message]. *)
Record ErrorResponse : Type := mkErrorResponse {
  status : Z;
  api_message : option string
}.

Record AxiosError : Type := mkAxiosError {
  e_message : string;
  e_code : option string;
  e_response : option ErrorResponse
}.

Definition isRetryable (error : AxiosError) : bool :=
  match e_response error with
  | None => true
  | Some response =>
      (500 <=? status response)
      || bool_decide (e_code error = Some "ECONNABORTED")
      || bool_decide (e_code error = Some "ECONNRESET")
  end.

(** [error.response?.data?.error?.message || error.message]. *)
Definition thrownMessage (error : AxiosError) : string :=
  Schema.orString (e_response error ≫= api_message) (e_message error).

Definition resultOf (model : string) (data : ResponseData) : ProviderResult :=
  let content := Schema.orString (choice_content data) EmptyString in
  let usage := default (mkUsage 0 0) (usage data) in
  let tokens :=
    mkTokens (prompt_tokens usage) (completion_tokens usage)
      (prompt_tokens usage + completion_tokens usage) in
  mkProviderResult content tokens (calculateCost model (tk_input tokens) (tk_output tokens)).

(** How a call ends: it returns, it throws an [Error] with a message, or it
    throws [lastError] as it stands, which is [null] when no request was
    made. *)
Inductive Ending : Type :=
| Returned (result : ProviderResult)
| ThrewError (message : string)
| ThrewLast (lastError : option AxiosError)
| OutOfFuel.

(** A call that made a request ends by returning or by throwing an
    [Error]. *)
Definition settled (e : Ending) : Prop :=
  match e with
  | Returned _ | ThrewError _ => True
  | ThrewLast _ | OutOfFuel => False
  end.

(** The effects of a call: the requests made and the time spent waiting
    between them, in milliseconds. *)
Record Effects : Type := mkEffects { requests : nat; waited : Z }.

Section WithNetwork.

(** The network: what the [n]-th request of the service, for a model and a
    full prompt, is answered or rejected with. *)
Variable post : nat -> string -> string -> AxiosError + ResponseData.

(** The loop [for (let attempt = 1; attempt <= maxRetries; attempt++)],
    entered with [n] requests made before. *)
Fixpoint retryLoop (fuel : nat) (model fullPrompt : string) (maxRetries attempt : Z)
    (lastError : option AxiosError) (n : nat) (fx : Effects) : Ending * Effects :=
  if attempt <=? maxRetries then
    match fuel with
    | O => (OutOfFuel, fx)
    | S fuel' =>
        let fx1 := mkEffects (S (requests fx)) (waited fx) in
        match post (n + requests fx) model fullPrompt with
        | inr data => (Returned (resultOf model data), fx1)
        | inl error =>
            if isRetryable error && (attempt <? maxRetries) then
              retryLoop fuel' model fullPrompt maxRetries (attempt + 1) (Some error) n
                (mkEffects (requests fx1) (waited fx1 + attempt * 2000))
            else (ThrewError (thrownMessage error), fx1)
        end
    end
  else (ThrewLast lastError, fx).

(** [call(prompt, model, context, maxRetries)], when [n] requests were made
    before. *)
Definition call (prompt model context : string) (maxRetries : Z) (n : nat)
  : Ending * Effects :=
  retryLoop (Z.to_nat maxRetries) model (Executor.fullPrompt prompt context) maxRetries 1 None
    n (mkEffects 0 0).

End WithNetwork.

End Unbound.

(** ** routes/workflows.js and routes/run.js

    The handlers of the workflows but [POST /], which stores a workflow
    whatever the body holds for its name, and of the runs the two that read
    one record, [GET /:id] and [GET /stats/summary]. *)

Module Routes.
Import Db Schema Executor.

(** The body of a request, for the fields the handlers read: [name] and
    [description] are strings when they are there; [steps] is [None] when it
    is missing or is not an array, and an element of the array is [None]
    when it is [null]. *)
Record Body : Type := mkBody {
  b_name : option string;
  b_description : option string;
  b_steps : option (list (option StepData))
}.

(** What a handler catches: a property read of [null]. *)
Inductive Exception : Type := property_of_null (property : string).

(** The [error] of an error response: a text of the handler, or the message
    of what it caught. *)
Inductive ErrorText : Type :=
| text (s : string)
| message_of (e : Exception).

(** [res.status(status).json(body)]. *)
Inductive Response (A : Type) : Type :=
| json (status : Z) (body : A)
| failure (status : Z) (error : ErrorText).

Arguments json {A} status body.
Arguments failure {A} status error.

(** [{ ...workflow, steps }]. *)
Record WorkflowWithSteps : Type := mkWorkflowWithSteps {
  ww_workflow : Workflow;
  ww_steps : list Step
}.

(** The object [GET /:id/export] answers with, and the file name of its
    [Content-Disposition] header. *)
Record ExportedStep : Type := mkExportedStep {
  x_name : string;
  x_model : string;
  x_prompt : string;
  x_criteria_type : string;
  x_criteria_value : string;
  x_retry_limit : Z;
  x_context_mode : string
}.

Record ExportData : Type := mkExportData {
  ex_name : string;
  ex_description : string;
  ex_steps : list ExportedStep
}.

Record Export : Type := mkExport {
  filename : string;
  exportData : ExportData
}.

Definition exportStep (s : Step) : ExportedStep :=
  mkExportedStep (step_name s) (model s) (prompt s) (criteria_type s) (criteria_value s)
    (retry_limit s) (context_mode s).

(** [name.replace(/[^a-z0-9]/gi, '_')]. *)
Definition sanitize (name : string) : string :=
  JS.mapChars
    (fun c =>
       if JS.in_range 97 122 c || JS.in_range 65 90 c || JS.isDigit c then c else "_"%char)
    name.

(** An exported object, sent back as the body of a request. *)
Definition asStepData (x : ExportedStep) : StepData :=
  mkStepData (Some (x_name x)) (Some (x_model x)) (Some (x_prompt x))
    (Some (x_criteria_type x)) (Some (x_criteria_value x)) (Some (x_retry_limit x))
    (Some (x_context_mode x)).

Definition asBody (x : ExportData) : Body :=
  mkBody (Some (ex_name x)) (Some (ex_description x))
    (Some (map (fun st => Some (asStepData st)) (ex_steps x))).

Section WithClock.

Variable clock : nat -> Instant.

Definition db_createWorkflow (name : string) (description : option string) : M Workflow :=
  id <- uuidv4 ;;
  now <- Date_now clock ;;
  d <- get_data ;;
  let '(workflow, d') := createWorkflow id now name description d in
  set_data d' ;;; ret workflow.

Definition db_updateWorkflow (id : Id) (name description : string) : M (option Workflow) :=
  d <- get_data ;;
  match findIndex (fun w => Nat.eqb (wf_id w) id) (workflows d) with
  | None => ret None
  | Some _ =>
      now <- Date_now clock ;;
      let '(updated, d') := updateWorkflow now id name description d in
      set_data d' ;;; ret updated
  end.

Definition db_deleteWorkflow (id : Id) : M bool :=
  d <- get_data ;;
  let '(deleted, d') := deleteWorkflow id d in
  set_data d' ;;; ret deleted.

Definition db_deleteWorkflowSteps (workflowId : Id) : M unit :=
  d <- get_data ;; set_data (deleteWorkflowSteps workflowId d).

(** [db.addStep(workflowId, index, step)] for an element of the array:
    the identifier is drawn before the element is read. *)
Definition db_addStep (workflowId : Id) (orderIndex : Z) (stepData : option StepData)
  : M (Exception + Step) :=
  id <- uuidv4 ;;
  match stepData with
  | None => ret (inl (property_of_null "name"))
  | Some stepData =>
      d <- get_data ;;
      let '(step, d') := addStep id workflowId orderIndex stepData d in
      set_data d' ;;; ret (inr step)
  end.

(** [steps.forEach((step, index) => db.addStep(workflowId, index, step))],
    from the index [index] on: what is thrown ends it. *)
Fixpoint addSteps (workflowId : Id) (index : Z) (steps : list (option StepData))
  : M (option Exception) :=
  match steps with
  | [] => ret None
  | step :: rest =>
      r <- db_addStep workflowId index step ;;
      match r with
      | inl e => ret (Some e)
      | inr _ => addSteps workflowId (index + 1) rest
      end
  end.

(** The steps [addSteps] stores for an array without [null], the first of
    them with the identifier [id] and the index [index]. *)
Fixpoint newSteps (id : nat) (workflowId : Id) (index : Z) (steps : list StepData)
  : list Step :=
  match steps with
  | [] => []
  | stepData :: rest =>
      newStep id workflowId index stepData :: newSteps (S id) workflowId (index + 1) rest
  end.

(** [GET /]. *)
Definition listWorkflows : M (Response (list WorkflowSummary)) :=
  d <- get_data ;; ret (json 200 (getAllWorkflows d)).

(** [GET /:id]. *)
Definition showWorkflow (id : Id) : M (Response WorkflowWithSteps) :=
  d <- get_data ;;
  match getWorkflow id d with
  | None => ret (failure 404 (text "Workflow not found"))
  | Some workflow => ret (json 200 (mkWorkflowWithSteps workflow (getWorkflowSteps id d)))
  end.

(** [PUT /:id]. *)
Definition updateWorkflowRoute (id : Id) (body : Body) : M (Response (option WorkflowWithSteps)) :=
  d <- get_data ;;
  match getWorkflow id d with
  | None => ret (failure 404 (text "Workflow not found"))
  | Some workflow =>
      updated <- db_updateWorkflow id (orString (b_name body) (wf_name workflow))
                   (default (wf_description workflow) (b_description body)) ;;
      thrown <- match b_steps body with
                | Some steps => db_deleteWorkflowSteps id ;;; addSteps id 0 steps
                | None => ret None
                end ;;
      match thrown with
      | Some e => ret (failure 500 (message_of e))
      | None =>
          d' <- get_data ;;
          ret (json 200
                 ((fun w => mkWorkflowWithSteps w (getWorkflowSteps id d')) <$> updated))
      end
  end.

(** [DELETE /:id]. *)
Definition deleteWorkflowRoute (id : Id) : M (Response string) :=
  deleted <- db_deleteWorkflow id ;;
  if deleted then ret (json 200 "Workflow deleted")
  else ret (failure 404 (text "Workflow not found")).

(** [GET /:id/export]. *)
Definition exportWorkflow (id : Id) : M (Response Export) :=
  d <- get_data ;;
  match getWorkflow id d with
  | None => ret (failure 404 (text "Workflow not found"))
  | Some workflow =>
      ret (json 200
             (mkExport (sanitize (wf_name workflow) +:+ ".json")
                (mkExportData (wf_name workflow) (wf_description workflow)
                   (map exportStep (getWorkflowSteps id d)))))
  end.

(** [POST /import]. *)
Definition importWorkflow (body : Body) : M (Response WorkflowWithSteps) :=
  match b_name body, b_steps body with
  | Some name, Some steps =>
      if JS.truthy name then
        workflow <- db_createWorkflow name (b_description body) ;;
        thrown <- addSteps (wf_id workflow) 0 steps ;;
        match thrown with
        | Some e => ret (failure 500 (message_of e))
        | None =>
            d <- get_data ;;
            ret (json 201 (mkWorkflowWithSteps workflow (getWorkflowSteps (wf_id workflow) d)))
        end
      else ret (failure 400 (text "Invalid workflow format"))
  | _, _ => ret (failure 400 (text "Invalid workflow format"))
  end.

(** [GET /stats/summary] of the runs. *)
Definition statsSummary : M (Response Stats) :=
  d <- get_data ;; ret (json 200 (getStats d)).

(** [GET /:id] of the runs: [{ ...run, step_executions }]. *)
Definition showRun (id : Id) : M (Response ((Run * string) * list StepExecutionView)) :=
  d <- get_data ;;
  match Schema.getRun id d with
  | None => ret (failure 404 (text "Run not found"))
  | Some run => ret (json 200 (run, getRunStepExecutions id d))
  end.

End WithClock.

End Routes.

(** ** More samples *)

Module Fixture.
Import Db Schema Unbound Routes.

(** A provider that answers no request. *)
Definition silent (n : nat) (model fullPrompt : string) : Completion ProviderResult :=
  Throw "timeout".

(** An array of two steps, the second with blank fields. *)
Definition posted : list StepData :=
  [mkStepData (Some "outline") (Some "kimi-k2p5") (Some "Outline the text") (Some "always")
     None (Some 2) None;
   mkStepData None None (Some "Write it: {context}") None None (Some 0) None].

(** A network on which the first two requests run into the timeout and the
    later ones are answered. *)
Definition flaky (n : nat) (model fullPrompt : string) : AxiosError + ResponseData :=
  if (n <? 2)%nat
  then inl (mkAxiosError "timeout of 60000ms exceeded" (Some "ECONNABORTED") None)
  else inr (mkResponseData (Some "hello") (Some (mkUsage 10 5))).

(** The state after a run of workflow 1 of the sample and then the import
    of another workflow, and the state after the run and then a PUT that
    replaces the steps of workflow 1. *)
Definition later : Executor.State :=
  snd (importWorkflow Sample.clock
         (mkBody (Some "copy") None (Some (map Some posted))) (snd (Sample.run 1))).

Definition rewritten : Executor.State :=
  snd (updateWorkflowRoute Sample.clock 1
         (mkBody None (Some "rewritten") (Some (map Some posted))) (snd (Sample.run 1))).

End Fixture.

(* ================================================================== *)
(** * Properties *)

(** ** Strings *)

Section StringFacts.

Lemma append_nil_l (b : string) : EmptyString +:+ b = b.
Proof. reflexivity. Qed.

Lemma append_cons (c : ascii) (a b : string) : String c a +:+ b = String c (a +:+ b).
Proof. reflexivity. Qed.

Lemma append_empty_r (s : string) : s +:+ EmptyString = s.
Proof.
  induction s as [|c s IH]; [reflexivity |]. now rewrite append_cons, IH.
Qed.

Lemma append_assoc (a b c : string) : (a +:+ b) +:+ c = a +:+ b +:+ c.
Proof.
  induction a as [|x a IH]; [reflexivity |]. now rewrite !append_cons, IH.
Qed.

Lemma length_append (a b : string) :
  String.length (a +:+ b) = (String.length a + String.length b)%nat.
Proof.
  induction a as [|x a IH]; [reflexivity |]. rewrite append_cons. simpl. now rewrite IH.
Qed.

(** A string that starts with [p] is [p] followed by what [drop] leaves. *)
Lemma startsWith_split (p s : string) :
  JS.startsWith s p = true -> s = p +:+ JS.drop (String.length p) s.
Proof.
  unfold JS.startsWith. revert s.
  induction p as [|x p IH]; intros s H.
  - reflexivity.
  - destruct s as [|y s]; [discriminate |]. simpl in H.
    destruct (ascii_dec x y) as [->|]; [| discriminate].
    rewrite append_cons. simpl. f_equal. now apply IH.
Qed.

Lemma includes_startsWith (s p : string) : JS.startsWith s p = true -> JS.includes s p = true.
Proof. intros H. destruct s; cbn [JS.includes]; now rewrite H. Qed.

End StringFacts.

Ltac sapp := rewrite ?append_cons, ?append_nil_l.

(** ** Prompt preparation *)

Section PromptFacts.

Import Prompt.

(** [find_first] splits at an occurrence, and no occurrence starts before
    it; it finds nothing exactly when there is no occurrence. *)
Lemma find_first_split (pat s pre rest : string) :
  find_first pat s = Some (pre, rest) ->
  s = pre +:+ pat +:+ rest
  /\ forall k, (k < String.length pre)%nat -> JS.startsWith (JS.drop k s) pat = false.
Proof.
  revert pre rest. induction s as [|c s IH]; intros pre rest H; cbn [find_first] in H.
  - destruct (JS.startsWith EmptyString pat) eqn:E; [| discriminate].
    injection H as <- <-. split; [| intros k Hk; simpl in Hk; lia].
    now apply startsWith_split.
  - destruct (JS.startsWith (String c s) pat) eqn:E.
    + injection H as <- <-. split; [| intros k Hk; simpl in Hk; lia].
      now apply startsWith_split.
    + destruct (find_first pat s) as [[pre' rest']|] eqn:F; [| discriminate].
      injection H as <- <-.
      destruct (IH _ _ eq_refl) as [Hs Hk]. split.
      * rewrite append_cons. now rewrite <- Hs.
      * intros [|k] Hlt; cbn [JS.drop]; [exact E |]. apply Hk. simpl in Hlt. lia.
Qed.

Lemma find_first_none (pat s : string) :
  find_first pat s = None <-> JS.includes s pat = false.
Proof.
  induction s as [|c s IH]; cbn [find_first JS.includes].
  - destruct (JS.startsWith EmptyString pat); split; congruence.
  - destruct (JS.startsWith (String c s) pat); [split; congruence |].
    rewrite <- IH. destruct (find_first pat s) as [[? ?]|]; split; congruence.
Qed.

(** A template without the pattern is left as it is by the specification's
    substitution. *)
Lemma substitute_no_occurrence (fuel : nat) (pat by_ s : string) :
  JS.includes s pat = false -> substitute_every_occurrence fuel pat by_ s = s.
Proof.
  intros H. apply find_first_none in H.
  destruct fuel; cbn [substitute_every_occurrence]; [reflexivity |].
  now rewrite H.
Qed.

(** A replacement text without a dollar pattern expands to itself. *)
Lemma GetSubstitution_plain (matched before after template : string) :
  has_dollar_pattern template = false ->
  JS.GetSubstitution matched before after template = template.
Proof.
  induction template as [|c r IH]; intros H; [reflexivity |].
  simpl in H. apply orb_false_elim in H as [H1 H2].
  simpl. destruct (Ascii.eqb c "$") eqn:Ec.
  - destruct r as [|d r']; [reflexivity |].
    simpl in H1. repeat (apply orb_false_elim in H1 as [H1 ?]).
    rewrite H1. repeat match goal with E : Ascii.eqb d _ = false |- _ => rewrite E; clear E end.
    f_equal. now apply IH.
  - f_equal. now apply IH.
Qed.

Section Scan.

Variables (p0 : ascii) (ptail repl : string).
Hypothesis Hplain : has_dollar_pattern repl = false.

Let pat : string := String p0 ptail.

(** Without dollar patterns the scan does not look at what came before. *)
Lemma replace_scan_before (b1 b2 s : string) (k : nat) :
  JS.replace_scan pat repl b1 s k = JS.replace_scan pat repl b2 s k.
Proof.
  revert b1 b2 k. induction s as [|c s IH]; intros b1 b2 k; [reflexivity |].
  cbn [JS.replace_scan]. destruct k as [|k]; [| apply IH].
  destruct (JS.startsWith (String c s) pat).
  - rewrite !GetSubstitution_plain by exact Hplain. f_equal. apply IH.
  - f_equal. apply IH.
Qed.

(** Passing over the rest of a match. *)
Lemma replace_scan_skip (b x rest : string) :
  JS.replace_scan pat repl b (x +:+ rest) (String.length x)
  = JS.replace_scan pat repl b rest 0.
Proof.
  revert b. induction x as [|c x IH]; intros b.
  - reflexivity.
  - rewrite append_cons. cbn [JS.replace_scan String.length]. rewrite IH.
    apply replace_scan_before.
Qed.

(** One step of the scan, read through [find_first]. *)
Lemma replace_scan_find (b s : string) :
  JS.replace_scan pat repl b s 0
  = match find_first pat s with
    | None => s
    | Some (pre, rest) => pre +:+ repl +:+ JS.replace_scan pat repl b rest 0
    end.
Proof.
  revert b. induction s as [|c s IH]; intros b.
  - reflexivity.
  - cbn [JS.replace_scan find_first].
    destruct (JS.startsWith (String c s) pat) eqn:E.
    + rewrite GetSubstitution_plain by exact Hplain. rewrite append_nil_l. f_equal.
      pose proof (startsWith_split _ _ E) as Hs.
      set (rest := JS.drop (String.length pat) (String c s)) in *.
      unfold pat in Hs. rewrite append_cons in Hs. injection Hs as _ Hs.
      rewrite Hs at 1. change (String.length pat) with (S (String.length ptail)).
      replace (S (String.length ptail) - 1)%nat with (String.length ptail) by lia.
      rewrite replace_scan_skip. apply replace_scan_before.
    + rewrite IH. destruct (find_first pat s) as [[pre rest]|]; [| reflexivity].
      rewrite append_cons. f_equal. f_equal. f_equal. apply replace_scan_before.
Qed.

Lemma replace_scan_spec (fuel : nat) (b s : string) :
  (String.length s <= fuel)%nat ->
  JS.replace_scan pat repl b s 0 = substitute_every_occurrence fuel pat repl s.
Proof.
  revert b s. induction fuel as [|fuel IH]; intros b s Hlen.
  - destruct s; [reflexivity | simpl in Hlen; lia].
  - rewrite replace_scan_find. cbn [substitute_every_occurrence].
    destruct (find_first pat s) as [[pre rest]|] eqn:F; [| reflexivity].
    apply find_first_split in F as [Hs _].
    f_equal. f_equal. apply IH.
    rewrite Hs, !length_append in Hlen. unfold pat in Hlen. simpl in Hlen. lia.
Qed.

End Scan.

End PromptFacts.

(** C1, as amended. When the previous context is empty or the template has
    no placeholder, the prompt is sent as it is. When the template has the
    placeholder and the previous context is not empty and holds none of the
    patterns [$$], [$&], [$`], [$'], the rendered prompt is the template with
    every occurrence of the placeholder replaced by the previous context. *)
Theorem C1_render_prompt (prompt previousContext : string) :
  (JS.includes prompt Prompt.placeholder = false \/ previousContext = EmptyString ->
   Prompt.renderPrompt prompt previousContext = prompt)
  /\ (JS.includes prompt Prompt.placeholder = true ->
      previousContext <> EmptyString ->
      Prompt.has_dollar_pattern previousContext = false ->
      Prompt.renderPrompt prompt previousContext = Prompt.spec_render prompt previousContext).
Proof.
  unfold Prompt.renderPrompt. split.
  - intros [H | ->]; [| reflexivity].
    rewrite H. now rewrite andb_false_r.
  - intros Hinc Hne Hplain. rewrite Hinc.
    destruct previousContext as [|c ctx]; [congruence |]. cbn [JS.truthy andb].
    unfold JS.replace_global, Prompt.spec_render, Prompt.placeholder.
    apply replace_scan_spec; [exact Hplain | lia].
Qed.

Lemma C1_render_prompt_witness :
  Prompt.renderPrompt "Fix {context} and test {context}" "the parser"
  = "Fix the parser and test the parser"
  /\ Prompt.renderPrompt "Say hello" "notes" = "Say hello".
Proof.
  split.
  - rewrite (proj2 (C1_render_prompt "Fix {context} and test {context}" "the parser"));
      [reflexivity | reflexivity | discriminate | reflexivity].
  - apply (proj1 (C1_render_prompt "Say hello" "notes")). left. reflexivity.
Defined.

(** C1, as stated, fails for the empty previous context: the placeholder
    stays in the prompt. *)
Lemma C1_counterexample :
  ~ (JS.includes "a{context}b" Prompt.placeholder = true ->
     Prompt.renderPrompt "a{context}b" EmptyString
     = Prompt.spec_render "a{context}b" EmptyString).
Proof. intros H. specialize (H eq_refl). vm_compute in H. discriminate. Qed.

(** C2, at the failing inputs. A template without placeholder that holds the
    previous context verbatim: the context is not passed to the provider.
    A placeholder replaced by a context with a dollar pattern: the context is
    passed again. *)
Theorem C2_context_to_pass_by_inclusion :
  (JS.includes "Summarize the text" Prompt.placeholder = false
   /\ Prompt.renderPrompt "Summarize the text" "text" = "Summarize the text"
   /\ Prompt.contextToPass (Prompt.renderPrompt "Summarize the text" "text") "text"
      = EmptyString)
  /\ (Prompt.renderPrompt "Use {context}" "a$$b" = "Use a$b"
      /\ Prompt.contextToPass (Prompt.renderPrompt "Use {context}" "a$$b") "a$$b" = "a$$b").
Proof. vm_compute. repeat split. Qed.

(** ** Criteria *)

Lemma evaluateLengthMax_passed (output value : string) :
  Criteria.passed (Criteria.evaluateLengthMax output value)
  = match JS.parseInt value with
    | Some n => if n =? 0 then true else JS.len output <=? n
    | None => true
    end.
Proof.
  unfold Criteria.evaluateLengthMax, JS.parseIntOr. cbn [Criteria.passed].
  destruct (JS.parseInt value) as [n|]; [| reflexivity].
  destruct (n =? 0); reflexivity.
Qed.

(** C3, at the failing input: the value ["0"] parses to 0, and every output
    that is not empty passes [length_max] with it. *)
Theorem C3_length_max_zero_passes (RegExp_new : string -> string -> Completion (string -> bool))
    (judge : option Criteria.LlmCall) (output : string) :
  JS.truthy output = true ->
  JS.parseInt "0" = Some 0
  /\ exists reason,
      Criteria.evaluateCriteria RegExp_new output "length_max" "0" judge
      = Return (Criteria.mkVerdict true reason).
Proof.
  intros H. split; [reflexivity |].
  unfold Criteria.evaluateCriteria. rewrite H. cbn [negb String.eqb].
  eexists. reflexivity.
Qed.

Lemma C3_length_max_zero_passes_witness :
  JS.parseInt "0" = Some 0
  /\ exists reason,
      Criteria.evaluateCriteria (fun _ _ => Throw "no engine") "x" "length_max" "0" None
      = Return (Criteria.mkVerdict true reason).
Proof. apply (C3_length_max_zero_passes (fun _ _ => Throw "no engine") None "x"). reflexivity. Defined.

(** C4: with an empty output the verdict is a failure whose reason says that
    no output was received, whatever the kind and the value of the criterion
    (and the judge). *)
Theorem C4_empty_output_fails (RegExp_new : string -> string -> Completion (string -> bool))
    (kind value : string) (judge : option Criteria.LlmCall) :
  Criteria.evaluateCriteria RegExp_new EmptyString kind value judge
  = Return (Criteria.mkVerdict false "No output received").
Proof. reflexivity. Qed.

(** ** The searches of the [json] criterion *)

Section FoundFacts.

Import Found.

Lemma startsWith_append (p r : string) : JS.startsWith (p +:+ r) p = true.
Proof.
  unfold JS.startsWith. induction p as [|x p IH].
  - destruct r; reflexivity.
  - rewrite append_cons. simpl. destruct (ascii_dec x x); [exact IH | congruence].
Qed.

Lemma occurs_at_zero (sub s : string) : occurs_at sub s 0 <-> JS.startsWith s sub = true.
Proof.
  split.
  - intros (b & a & -> & Hb). destruct b; [| discriminate]. rewrite append_nil_l.
    apply startsWith_append.
  - intros H. exists EmptyString, (JS.drop (String.length sub) s). split; [| reflexivity].
    rewrite append_nil_l. now apply startsWith_split.
Qed.

Lemma occurs_at_succ (sub : string) (c : ascii) (r : string) (j : nat) :
  occurs_at sub (String c r) (S j) <-> occurs_at sub r j.
Proof.
  split.
  - intros (b & a & E & Hb). destruct b as [|x b]; [discriminate |].
    rewrite append_cons in E. injection E as -> ->. exists b, a. split; [reflexivity |].
    cbn in Hb. lia.
  - intros (b & a & -> & Hb). exists (String c b), a. split; [reflexivity | cbn; lia].
Qed.

Lemma occurs_at_nil (sub : string) (j : nat) : occurs_at sub EmptyString (S j) -> False.
Proof. intros (b & a & E & Hb). destruct b; discriminate. Qed.

Lemma first_at_succ (sub : string) (c : ascii) (r : string) (j : nat) :
  first_at sub (String c r) (S j)
  <-> JS.startsWith (String c r) sub = false /\ first_at sub r j.
Proof.
  split.
  - intros [Ho Hn]. split; [| split].
    + destruct (JS.startsWith (String c r) sub) eqn:E; [| reflexivity].
      apply occurs_at_zero in E. exfalso. apply (Hn 0%nat); [lia | exact E].
    + now apply occurs_at_succ in Ho.
    + intros k Hk Hok. apply (Hn (S k)); [lia |]. now apply occurs_at_succ.
  - intros (Hs & Ho & Hn). split; [now apply occurs_at_succ |].
    intros [|k] Hk Hok.
    + apply occurs_at_zero in Hok. congruence.
    + apply occurs_at_succ in Hok. apply (Hn k); [lia | exact Hok].
Qed.

Lemma first_at_zero (sub s : string) : first_at sub s 0 <-> JS.startsWith s sub = true.
Proof.
  unfold first_at. rewrite occurs_at_zero. split; [tauto |]. intros H. split; [exact H | lia].
Qed.

Lemma first_at_unique (sub s : string) (i j : nat) :
  first_at sub s i -> first_at sub s j -> i = j.
Proof.
  intros [Hi Ni] [Hj Nj]. destruct (Nat.lt_trichotomy i j) as [H | [H | H]]; [| exact H |].
  - now apply Nj in H.
  - now apply Ni in H.
Qed.

(** What is in a string occurs in it somewhere first. *)
Lemma first_at_exists (sub s before after : string) :
  s = before +:+ sub +:+ after ->
  exists pre post, s = pre +:+ sub +:+ post /\ first_at sub s (String.length pre)
                   /\ (String.length pre <= String.length before)%nat.
Proof.
  revert s. induction before as [|c b IH]; intros s ->.
  - exists EmptyString, after. split; [reflexivity |]. split; [| reflexivity].
    apply first_at_zero. rewrite append_nil_l. apply startsWith_append.
  - rewrite append_cons. destruct (JS.startsWith (String c (b +:+ sub +:+ after)) sub) eqn:E.
    + exists EmptyString, (JS.drop (String.length sub) (String c (b +:+ sub +:+ after))).
      split; [rewrite append_nil_l; now apply startsWith_split |].
      split; [now apply first_at_zero | cbn; lia].
    + destruct (IH _ eq_refl) as (pre & post & E1 & F & L).
      exists (String c pre), post. rewrite append_cons, <- E1. split; [reflexivity |].
      split; [| cbn; lia]. cbn [String.length]. apply first_at_succ. now split.
Qed.

(** *** White space in front *)

Lemma skip_split (s : string) :
  exists w, s = w +:+ JS.skip JS.isWhiteSpace s /\ blank w.
Proof.
  induction s as [|c r (w & E & B)]; cbn [JS.skip].
  - exists EmptyString. split; [reflexivity | constructor].
  - destruct (JS.isWhiteSpace c) eqn:W.
    + exists (String c w). rewrite append_cons, <- E. split; [reflexivity |].
      constructor; [exact W | exact B].
    + exists EmptyString. split; [reflexivity | constructor].
Qed.

Lemma skip_head (s : string) (c : ascii) (r : string) :
  JS.skip JS.isWhiteSpace s = String c r -> JS.isWhiteSpace c = false.
Proof.
  induction s as [|x s IH]; cbn [JS.skip]; [discriminate |].
  destruct (JS.isWhiteSpace x) eqn:W; [exact IH |]. now intros [= <- _].
Qed.

Lemma skip_blank_app (w t : string) :
  blank w -> JS.skip JS.isWhiteSpace (w +:+ t) = JS.skip JS.isWhiteSpace t.
Proof.
  induction w as [|c w IH]; intros B; [reflexivity |].
  apply Forall_cons in B as [W B]. rewrite append_cons. cbn [JS.skip]. rewrite W. now apply IH.
Qed.

Lemma skip_stop (c : ascii) (r : string) :
  JS.isWhiteSpace c = false -> JS.skip JS.isWhiteSpace (String c r) = String c r.
Proof. intros W. cbn [JS.skip]. now rewrite W. Qed.

Lemma trimEnd_blank (w : string) : blank w -> JS.trimEnd w = EmptyString.
Proof.
  induction w as [|c w IH]; intros B; [reflexivity |].
  apply Forall_cons in B as [W B]. cbn [JS.trimEnd]. rewrite (IH B). now rewrite W.
Qed.

Lemma trimEnd_empty (s : string) : JS.trimEnd s = EmptyString -> blank s.
Proof.
  induction s as [|c s IH]; intros H; [constructor |]. cbn [JS.trimEnd] in H.
  destruct (JS.trimEnd s) eqn:T; [| discriminate].
  destruct (JS.isWhiteSpace c) eqn:W; [| discriminate].
  constructor; [exact W | now apply IH].
Qed.

Lemma trimEnd_cons (c : ascii) (s : string) :
  (blank (String c s) -> False) -> JS.trimEnd (String c s) = String c (JS.trimEnd s).
Proof.
  intros H. cbn [JS.trimEnd]. destruct (JS.trimEnd s) eqn:T; [| reflexivity].
  destruct (JS.isWhiteSpace c) eqn:W; [| reflexivity].
  exfalso. apply H. constructor; [exact W | now apply trimEnd_empty].
Qed.

Lemma startsWith_cons (x : ascii) (p : string) (c : ascii) (r : string) :
  JS.startsWith (String c r) (String x p)
  = if ascii_dec x c then JS.startsWith r p else false.
Proof. reflexivity. Qed.

Lemma startsWith_fence_head (c : ascii) (r : string) :
  JS.startsWith (String c r) JS.fence = true -> JS.isWhiteSpace c = false.
Proof.
  unfold JS.fence. rewrite startsWith_cons.
  destruct (ascii_dec "`" c) as [<- |]; [intros _; reflexivity | discriminate].
Qed.

(** A blank string holds no fence, and a fence stops the skipping. *)
Lemma skip_to_fence (w after : string) :
  blank w -> JS.skip JS.isWhiteSpace (w +:+ JS.fence +:+ after) = JS.fence +:+ after.
Proof. intros B. rewrite skip_blank_app by exact B. reflexivity. Qed.

Lemma blank_no_fence (w t : string) (j : nat) :
  blank w -> (j < String.length w)%nat -> ~ occurs_at JS.fence (w +:+ t) j.
Proof.
  revert j. induction w as [|c w IH]; intros j B Hj; [cbn in Hj; lia |].
  apply Forall_cons in B as [W B]. rewrite append_cons. destruct j as [|j].
  - intros H%occurs_at_zero%startsWith_fence_head. congruence.
  - intros H%occurs_at_succ. revert H. apply IH; [exact B | cbn in Hj; lia].
Qed.

Lemma append_same_length (a b t u : string) :
  a +:+ t = b +:+ u -> String.length a = String.length b -> a = b.
Proof.
  revert b. induction a as [|x a IH]; intros [|y b] E L; try discriminate; [reflexivity |].
  rewrite !append_cons in E. injection E as -> E. f_equal. apply (IH b E). cbn in L. lia.
Qed.

(** When a fence follows the white space in front, it is the first one. *)
Lemma skip_fence_first (x : string) :
  JS.startsWith (JS.skip JS.isWhiteSpace x) JS.fence = true ->
  exists w after,
    x = w +:+ JS.fence +:+ after /\ blank w /\ first_at JS.fence x (String.length w).
Proof.
  induction x as [|c r IH]; cbn [JS.skip]; [discriminate |].
  destruct (JS.isWhiteSpace c) eqn:W.
  - intros T. destruct (IH T) as (w & after & -> & B & F).
    exists (String c w), after. rewrite append_cons. split; [reflexivity |].
    split; [constructor; [exact W | exact B] |].
    cbn [String.length]. apply first_at_succ. split; [| exact F].
    destruct (JS.startsWith (String c (w +:+ JS.fence +:+ after)) JS.fence) eqn:S0;
      [| reflexivity].
    apply startsWith_fence_head in S0. congruence.
  - intros T. exists EmptyString, (JS.drop (String.length JS.fence) (String c r)).
    rewrite append_nil_l. split; [now apply startsWith_split |].
    split; [constructor | now apply first_at_zero].
Qed.

(** The lazy group before a closing fence. *)
Lemma lazy_until_fence_first (body after : string) :
  first_at JS.fence (body +:+ JS.fence +:+ after) (String.length body) ->
  JS.lazy_until_fence (body +:+ JS.fence +:+ after) = Some (JS.trimEnd body).
Proof.
  induction body as [|c body IH]; intros F.
  - rewrite append_nil_l. destruct after; reflexivity.
  - pose proof F as F0. rewrite append_cons in F. cbn [String.length] in F.
    apply first_at_succ in F as [Hs F].
    rewrite append_cons. cbn [JS.lazy_until_fence]. rewrite <- append_cons.
    destruct (JS.startsWith (JS.skip JS.isWhiteSpace (String c body +:+ JS.fence +:+ after))
                JS.fence) eqn:T.
    + destruct (skip_fence_first _ T) as (w & after' & E & B & F').
      pose proof (first_at_unique _ _ _ _ F' F0) as Hlen.
      rewrite (append_same_length _ _ _ _ E (eq_sym Hlen)).
      now rewrite trimEnd_blank.
    + rewrite (IH F). rewrite trimEnd_cons; [reflexivity |].
      intros Bc. rewrite (skip_to_fence (String c body) after Bc) in T.
      now rewrite startsWith_append in T.
Qed.

Lemma lazy_until_fence_found (r g : string) :
  JS.lazy_until_fence r = Some g ->
  exists body after,
    r = body +:+ JS.fence +:+ after
    /\ first_at JS.fence r (String.length body)
    /\ g = JS.trimEnd body.
Proof.
  revert g. induction r as [|c r IH]; intros g H; cbn [JS.lazy_until_fence] in H.
  - destruct (JS.startsWith _ JS.fence) eqn:T; discriminate.
  - destruct (JS.startsWith (JS.skip JS.isWhiteSpace (String c r)) JS.fence) eqn:T.
    + injection H as <-. destruct (skip_fence_first _ T) as (w & after & E & B & F).
      exists w, after. split; [exact E |]. split; [exact F |].
      symmetry. now apply trimEnd_blank.
    + destruct (JS.lazy_until_fence r) as [m|] eqn:L; [| discriminate].
      injection H as <-. destruct (IH m eq_refl) as (body & after & -> & F & ->).
      exists (String c body), after. rewrite append_cons. split; [reflexivity |].
      split; [cbn [String.length]; apply first_at_succ; split; [| exact F] |].
      * destruct (JS.startsWith (String c (body +:+ JS.fence +:+ after)) JS.fence) eqn:S0;
          [| reflexivity].
        pose proof (startsWith_fence_head _ _ S0) as W.
        rewrite (skip_stop _ _ W) in T. congruence.
      * symmetry. apply trimEnd_cons. intros Bc.
        rewrite <- append_cons in T. rewrite (skip_to_fence (String c body) after Bc) in T.
        now rewrite startsWith_append in T.
Qed.

(** *** A fence with its tag *)

Lemma first_at_blank_prefix (w t : string) (j : nat) :
  blank w -> first_at JS.fence (w +:+ t) (String.length w + j) <-> first_at JS.fence t j.
Proof.
  induction w as [|c w IH]; intros B; [reflexivity |].
  apply Forall_cons in B as [W B]. rewrite append_cons. cbn [String.length Nat.add].
  rewrite first_at_succ, (IH B). split; [tauto |]. intros F. split; [| exact F].
  destruct (JS.startsWith (String c (w +:+ t)) JS.fence) eqn:S0; [| reflexivity].
  apply startsWith_fence_head in S0. congruence.
Qed.

Lemma skip_before_fence (body after : string) :
  JS.skip JS.isWhiteSpace (body +:+ JS.fence +:+ after)
  = JS.skip JS.isWhiteSpace body +:+ JS.fence +:+ after.
Proof.
  induction body as [|c body IH]; [reflexivity |].
  rewrite append_cons. cbn [JS.skip]. destruct (JS.isWhiteSpace c); [exact IH |].
  now rewrite append_cons.
Qed.

Lemma drop_append (p r : string) : JS.drop (String.length p) (p +:+ r) = r.
Proof. induction p as [|c p IH]; [reflexivity | exact IH]. Qed.

Lemma fenced_at_found (tag s g : string) :
  JS.fenced_at tag s = Some g
  <-> exists body after,
        s = (JS.fence +:+ tag) +:+ body +:+ JS.fence +:+ after
        /\ first_at JS.fence (body +:+ JS.fence +:+ after) (String.length body)
        /\ g = JS.trim body.
Proof.
  unfold JS.fenced_at. split.
  - destruct (JS.startsWith s (JS.fence +:+ tag)) eqn:S0; [| discriminate].
    intros L. apply startsWith_split in S0.
    set (r := JS.drop (String.length (JS.fence +:+ tag)) s) in *.
    destruct (lazy_until_fence_found _ _ L) as (body1 & after & E & F & ->).
    destruct (skip_split r) as (w & Er & B).
    exists (w +:+ body1), after. split; [| split].
    + rewrite (append_assoc w body1), <- E, <- Er. exact S0.
    + rewrite length_append, (append_assoc w body1), <- E.
      apply (proj2 (first_at_blank_prefix w _ _ B)). exact F.
    + unfold JS.trim. rewrite skip_blank_app by exact B.
      destruct body1 as [|c body1]; [reflexivity |].
      rewrite append_cons in E. apply skip_head in E. now rewrite skip_stop.
  - intros (body & after & -> & F & ->). rewrite startsWith_append, drop_append.
    rewrite skip_before_fence. unfold JS.trim. apply lazy_until_fence_first.
    destruct (skip_split body) as (w & E & B).
    apply (proj1 (first_at_blank_prefix w _ _ B)).
    rewrite <- length_append, <- (append_assoc w), <- E. exact F.
Qed.

(** *** The search from the left *)

Lemma search_found {A} (anchored : string -> option A) (s : string) (g : A) :
  JS.search anchored s = Some g
  <-> exists before rest,
        s = before +:+ rest /\ anchored rest = Some g
        /\ forall j, (j < String.length before)%nat -> anchored (JS.drop j s) = None.
Proof.
  split.
  - induction s as [|c r IH]; cbn [JS.search].
    + destruct (anchored EmptyString) eqn:E; [| discriminate]. intros [= ->].
      exists EmptyString, EmptyString. split; [reflexivity |]. split; [exact E |].
      cbn. lia.
    + destruct (anchored (String c r)) eqn:E.
      * intros [= ->]. exists EmptyString, (String c r). split; [reflexivity |].
        split; [exact E | cbn; lia].
      * intros H. destruct (IH H) as (b & rest & -> & Hr & Hn).
        exists (String c b), rest. split; [reflexivity |]. split; [exact Hr |].
        intros [|j] Hj; [exact E |]. cbn [JS.drop]. apply Hn. cbn in Hj. lia.
  - intros (before & rest & -> & Hr & Hn). induction before as [|c b IH].
    + rewrite append_nil_l. destruct rest; cbn [JS.search]; now rewrite Hr.
    + pose proof (Hn 0%nat ltac:(cbn; lia)) as H0. cbn [JS.drop] in H0.
      rewrite append_cons in H0 |- *. cbn [JS.search]. rewrite H0. apply IH. intros j Hj.
      pose proof (Hn (S j) ltac:(cbn; lia)) as Hj'. rewrite append_cons in Hj'. exact Hj'.
Qed.

Lemma occurs_at_drop (sub s : string) (j : nat) :
  (j <= String.length s)%nat -> JS.startsWith (JS.drop j s) sub = true -> occurs_at sub s j.
Proof.
  revert s. induction j as [|j IH]; intros s L H.
  - now apply occurs_at_zero.
  - destruct s as [|c r]; [cbn in L; lia |]. apply occurs_at_succ. apply IH; [cbn in L; lia |].
    exact H.
Qed.

Lemma occurs_at_startsWith (sub s : string) (j : nat) :
  occurs_at sub s j -> JS.startsWith (JS.drop j s) sub = true.
Proof.
  intros (b & a & -> & <-). rewrite drop_append. apply startsWith_append.
Qed.

(** Two ways to cut a string: the shorter first part is the start of the
    longer. *)
Lemma append_cut (p1 t1 p2 t2 : string) :
  p1 +:+ t1 = p2 +:+ t2 -> (String.length p1 <= String.length p2)%nat ->
  exists x, p2 = p1 +:+ x /\ t1 = x +:+ t2.
Proof.
  revert p2. induction p1 as [|c p1 IH]; intros p2 E L.
  - exists p2. split; [reflexivity | exact E].
  - destruct p2 as [|d p2]; [cbn in L; lia |]. rewrite !append_cons in E.
    injection E as -> E. destruct (IH p2 E) as (x & -> & ->); [cbn in L; lia |].
    exists x. split; reflexivity.
Qed.

Lemma search_fenced (tag output block : string) :
  JS.search (JS.fenced_at tag) output = Some block <-> fenced_block tag output block.
Proof.
  rewrite search_found. split.
  - intros (before & rest & -> & Hr & Hn).
    apply fenced_at_found in Hr as (body & after & -> & F & ->).
    exists before, body, after. split; [reflexivity |]. split; [| split; [exact F | reflexivity]].
    split; [exists before, (body +:+ JS.fence +:+ after); split; reflexivity |].
    intros j Hj (b' & a' & E & Lb). specialize (Hn j Hj).
    rewrite E, <- Lb, drop_append in Hn.
    (* the closing fence lies in [a'] *)
    assert (Hcut : exists x, a' = x +:+ JS.fence +:+ after).
    { destruct (append_cut (b' +:+ JS.fence +:+ tag) a'
                  (before +:+ (JS.fence +:+ tag) +:+ body) (JS.fence +:+ after))
        as (x & _ & Hx).
      - pose proof E as E'. repeat rewrite append_assoc in E'. repeat rewrite append_assoc.
        now symmetry.
      - rewrite !length_append. lia.
      - now exists x. }
    destruct Hcut as (x & Hx).
    destruct (first_at_exists JS.fence a' x after Hx) as (pre & post & E1 & F1 & _).
    assert (Hsome : JS.fenced_at tag ((JS.fence +:+ tag) +:+ a') = Some (JS.trim pre)).
    { apply fenced_at_found. exists pre, post. rewrite <- E1. now split. }
    congruence.
  - intros (before & body & after & -> & [_ Hn] & F & ->).
    exists before, ((JS.fence +:+ tag) +:+ body +:+ JS.fence +:+ after).
    split; [reflexivity |]. split.
    + apply fenced_at_found. now exists body, after.
    + intros j Hj. unfold JS.fenced_at.
      destruct (JS.startsWith (JS.drop j _) (JS.fence +:+ tag)) eqn:S0; [| reflexivity].
      exfalso. apply (Hn j Hj). apply occurs_at_drop; [| exact S0].
      rewrite length_append. lia.
Qed.

(** *** From the first opening character to the last closing one *)

Lemma upto_last_none (close : ascii) (r : string) :
  JS.upto_last close r = None <-> ~ In close (String.list_ascii_of_string r).
Proof.
  induction r as [|x r IH]; cbn [JS.upto_last String.list_ascii_of_string In]; [tauto |].
  destruct (JS.upto_last close r) as [m|].
  - split; [discriminate |]. intros H. exfalso. apply H. right.
    destruct (in_dec ascii_dec close (String.list_ascii_of_string r)) as [Hin | Hnot];
      [exact Hin |]. apply IH in Hnot. discriminate.
  - destruct (Ascii.eqb x close) eqn:E.
    + apply Ascii.eqb_eq in E. split; [discriminate |]. intros H. exfalso. apply H. now left.
    + apply Ascii.eqb_neq in E. split; [| reflexivity]. intros _ [H | H]; [congruence |].
      now apply IH in H.
Qed.

Lemma upto_last_some (close : ascii) (r m : string) :
  JS.upto_last close r = Some m
  <-> exists middle after,
        r = middle +:+ String close after
        /\ ~ In close (String.list_ascii_of_string after)
        /\ m = middle +:+ String close EmptyString.
Proof.
  split.
  - revert m. induction r as [|x r IH]; intros m; cbn [JS.upto_last]; [discriminate |].
    destruct (JS.upto_last close r) as [m'|] eqn:U.
    + intros [= <-]. destruct (IH m' eq_refl) as (middle & after & -> & Hn & ->).
      exists (String x middle), after. split; [reflexivity |]. split; [exact Hn | reflexivity].
    + destruct (Ascii.eqb x close) eqn:E; [| discriminate]. apply Ascii.eqb_eq in E as ->.
      intros [= <-]. exists EmptyString, r. split; [reflexivity |].
      split; [now apply upto_last_none | reflexivity].
  - intros (middle & after & -> & Hn & ->). induction middle as [|x middle IH].
    + rewrite !append_nil_l. cbn [JS.upto_last].
      apply upto_last_none in Hn. rewrite Hn. now rewrite Ascii.eqb_refl.
    + rewrite !append_cons. cbn [JS.upto_last]. now rewrite IH.
Qed.

Lemma in_append_r (c : ascii) (a b : string) :
  In c (String.list_ascii_of_string b) -> In c (String.list_ascii_of_string (a +:+ b)).
Proof.
  induction a as [|x a IH]; intros H; [exact H |]. rewrite append_cons.
  cbn [String.list_ascii_of_string In]. right. now apply IH.
Qed.

Lemma search_delimited (open close : ascii) (output sub : string) :
  JS.search (JS.delimited_at open close) output = Some sub
  <-> delimited open close output sub.
Proof.
  split.
  - revert sub. induction output as [|x r IH]; intros sub; cbn [JS.search JS.delimited_at];
      [discriminate |].
    destruct (Ascii.eqb x open) eqn:E.
    + apply Ascii.eqb_eq in E as ->.
      destruct (JS.upto_last close r) as [m|] eqn:U.
      * intros [= <-]. apply upto_last_some in U as (middle & after & -> & Hn & ->).
        exists EmptyString, middle, after. rewrite append_nil_l.
        split; [reflexivity |]. split; [intros [] |]. split; [exact Hn | reflexivity].
      * intros H. destruct (IH sub H) as (before & middle & after & -> & _ & _ & _).
        apply upto_last_none in U. exfalso. apply U.
        apply in_append_r. cbn [String.list_ascii_of_string In]. right.
        apply in_append_r. now left.
    + intros H. destruct (IH sub H) as (before & middle & after & -> & Ho & Hc & ->).
      exists (String x before), middle, after. split; [reflexivity |].
      split; [| split; [exact Hc | reflexivity]].
      cbn [String.list_ascii_of_string In]. intros [-> | Hin]; [| now apply Ho].
      now rewrite Ascii.eqb_refl in E.
  - intros (before & middle & after & -> & Ho & Hc & ->). induction before as [|x b IH].
    + assert (U : JS.upto_last close (middle +:+ String close after)
                  = Some (middle +:+ String close EmptyString)).
      { apply upto_last_some. now exists middle, after. }
      rewrite append_nil_l, !append_cons. cbn [JS.search JS.delimited_at].
      rewrite Ascii.eqb_refl. now rewrite U.
    + rewrite append_cons. cbn [JS.search JS.delimited_at].
      cbn [String.list_ascii_of_string In] in Ho.
      destruct (Ascii.eqb x open) eqn:E; [apply Ascii.eqb_eq in E; tauto |].
      apply IH. tauto.
Qed.

(** The groups of the four expressions are the candidates the
    specification names. *)
Lemma candidates_found (output c : string) :
  c ∈ Criteria.candidates output <-> json_candidate output c.
Proof.
  unfold Criteria.candidates, Criteria.jsonPatterns, json_candidate.
  rewrite <- !search_fenced, <- !search_delimited.
  cbn [omap list_omap].
  destruct (JS.search (JS.fenced_at "json") output) as [c1|];
    destruct (JS.search (JS.fenced_at EmptyString) output) as [c2|];
    destruct (JS.search (JS.delimited_at "{" "}") output) as [c3|];
    destruct (JS.search (JS.delimited_at "[" "]") output) as [c4|];
    rewrite ?elem_of_cons, ?elem_of_nil; split; intros H;
    repeat match goal with
           | H : _ \/ _ |- _ => destruct H as [H | H]
           | H : Some _ = Some _ |- _ => injection H as ->
           | H : None = Some _ |- _ => discriminate H
           | H : False |- _ => destruct H
           end; subst; tauto.
Qed.

End FoundFacts.

Lemma tryPatterns_exists (patterns : list (string -> option string)) (output : string) :
  Criteria.tryPatterns patterns output = true
  <-> exists c, c ∈ omap (fun pattern => pattern output) patterns /\ JS.JSON_parses c = true.
Proof.
  induction patterns as [|pattern rest IH]; cbn [Criteria.tryPatterns omap list_omap].
  - split; [discriminate |]. intros (c & Hc & _). now apply elem_of_nil in Hc.
  - destruct (pattern output) as [group|] eqn:E; [| exact IH].
    destruct (JS.JSON_parses group) eqn:P.
    + split; [| reflexivity]. intros _. exists group. split; [left | exact P].
    + rewrite IH. split.
      * intros (c & Hc & Hp). exists c. split; [now right | exact Hp].
      * intros (c & Hc & Hp). apply elem_of_cons in Hc as [-> | Hc]; [congruence |].
        now exists c.
Qed.

(** C8: the [json] criterion never throws, and it passes exactly when one
    of the four candidates parses as JSON, or else the whole output does: the
    body of the first fenced block tagged json, the body of the first fenced
    block whatever follows its fence, the text from the first opening brace
    to the last closing one, and the text from the first opening bracket to
    the last closing one. An object followed by text passes; a text that
    holds no JSON fails. *)
Theorem C8_json_criterion (RegExp_new : string -> string -> Completion (string -> bool))
    (v : string) (judge : option Criteria.LlmCall) :
  (forall output,
      exists verdict,
        Criteria.evaluateCriteria RegExp_new output "json" v judge = Return verdict
        /\ (Criteria.passed verdict = true
            <-> (exists c, Found.json_candidate output c /\ JS.JSON_parses c = true)
                \/ JS.JSON_parses output = true))
  /\ Criteria.candidates ("{" +:+ JS.DQ +:+ "a" +:+ JS.DQ +:+ ":1} and more text")
     = ["{" +:+ JS.DQ +:+ "a" +:+ JS.DQ +:+ ":1}"]
  /\ Criteria.evaluateCriteria RegExp_new
       ("{" +:+ JS.DQ +:+ "a" +:+ JS.DQ +:+ ":1} and more text") "json" v judge
     = Return (Criteria.mkVerdict true "Valid JSON found in output")
  /\ Criteria.evaluateCriteria RegExp_new "not json at all" "json" v judge
     = Return (Criteria.mkVerdict false "No valid JSON found in output").
Proof.
  split; [| vm_compute; repeat split].
  intros output.
  assert (Hc : (exists c, Found.json_candidate output c /\ JS.JSON_parses c = true)
               <-> Criteria.tryPatterns Criteria.jsonPatterns output = true).
  { rewrite tryPatterns_exists.
    split; intros (c & H1 & H2); exists c; (split; [| exact H2]); now apply candidates_found. }
  destruct output as [|c0 out].
  - eexists. split; [reflexivity |]. cbn [Criteria.passed]. split; [discriminate |].
    intros [H | H]; [| discriminate H]. apply Hc in H. discriminate H.
  - exists (Criteria.evaluateJson (String c0 out)). split; [reflexivity |].
    rewrite Hc. unfold Criteria.evaluateJson.
    destruct (Criteria.tryPatterns Criteria.jsonPatterns (String c0 out)) eqn:T.
    + cbn [Criteria.passed]. split; [| reflexivity]. intros _. now left.
    + destruct (JS.JSON_parses (String c0 out)) eqn:P; cbn [Criteria.passed].
      * split; [| reflexivity]. intros _. now right.
      * split; [discriminate |]. intros [H | H]; discriminate H.
Qed.

(** ** The database *)

Section DbFacts.

Import Db.

Lemma find_middle {A} (p : A -> bool) (pre : list A) (x : A) (rest : list A) :
  Forall (fun y => p y = false) pre -> p x = true ->
  list_find (fun y => p y = true) (pre ++ x :: rest) = Some (length pre, x).
Proof.
  intros Hpre Hx. rewrite list_find_app_r.
  - cbn. rewrite decide_True by exact Hx. cbn. reflexivity.
  - apply list_find_None. eapply Forall_impl; [exact Hpre |].
    intros y Hy. cbn in Hy. congruence.
Qed.

Lemma insert_middle {A} (pre : list A) (x y : A) (rest : list A) :
  <[length pre := y]> (pre ++ x :: rest) = pre ++ y :: rest.
Proof.
  rewrite <- (Nat.add_0_r (length pre)). rewrite insert_app_r. reflexivity.
Qed.

Lemma lookup_middle {A} (pre : list A) (x : A) (rest : list A) :
  (pre ++ x :: rest) !! length pre = Some x.
Proof. now apply list_lookup_middle. Qed.

(** Reading and updating the step execution of a step, when no earlier
    record answers to the same run and step, or has the same identifier. *)
Lemma getStepExecution_middle (runId stepId : Id) (d : Data) pre se rest :
  step_executions d = pre ++ se :: rest ->
  Forall (fun y => Nat.eqb (se_run_id y) runId && Nat.eqb (se_step_id y) stepId = false) pre ->
  se_run_id se = runId -> se_step_id se = stepId ->
  getStepExecution runId stepId d = Some se.
Proof.
  intros Hd Hpre Hr Hs. unfold getStepExecution, find. rewrite Hd.
  rewrite find_middle; [reflexivity | exact Hpre |].
  rewrite Hr, Hs, !Nat.eqb_refl. reflexivity.
Qed.

Lemma updateStepExecution_middle (id : Id) updates (d : Data) pre se rest :
  step_executions d = pre ++ se :: rest ->
  Forall (fun y => se_id y <> id) pre ->
  se_id se = id ->
  updateStepExecution id updates d
  = mkData (workflows d) (steps d) (runs d) (pre ++ updates se :: rest).
Proof.
  intros Hd Hpre Hid. unfold updateStepExecution, findIndex. rewrite Hd.
  rewrite find_middle.
  - cbn. rewrite lookup_middle, insert_middle. reflexivity.
  - eapply Forall_impl; [exact Hpre |]. intros y Hy. cbn. now apply Nat.eqb_neq.
  - rewrite Hid. apply Nat.eqb_refl.
Qed.

(** [updateRun] keeps everything but the runs, and changes the first run of
    the identifier, if there is one. *)
Lemma updateRun_others (id : Id) updates (d : Data) :
  workflows (updateRun id updates d) = workflows d
  /\ steps (updateRun id updates d) = steps d
  /\ step_executions (updateRun id updates d) = step_executions d.
Proof.
  unfold updateRun. destruct (findIndex _ _) as [i|]; [| auto].
  destruct (runs d !! i); auto.
Qed.

Lemma updateRun_runs (id : Id) updates (d : Data) :
  (forall r, run_id (updates r) = run_id r) ->
  forall r', r' ∈ runs (updateRun id updates d) ->
    r' ∈ runs d \/ exists r, r ∈ runs d /\ run_id r = id /\ r' = updates r.
Proof.
  intros Hid r'. unfold updateRun, findIndex.
  destruct (list_find _ (runs d)) as [[i r]|] eqn:F; cbn; [| auto].
  apply list_find_Some in F as (Hi & Hr & _). rewrite Hi. cbn.
  intros Hin. apply list_elem_of_lookup in Hin as [j Hj].
  destruct (decide (i = j)) as [<- | Hne].
  - rewrite list_lookup_insert_eq in Hj by (eapply lookup_lt_Some; eauto).
    injection Hj as <-. right. exists r. split_and!; [| | reflexivity].
    + eapply list_elem_of_lookup_2; eauto.
    + now apply Nat.eqb_eq.
  - rewrite list_lookup_insert_ne in Hj by exact Hne. left.
    eapply list_elem_of_lookup_2; eauto.
Qed.

Lemma getRun_updateRun (id : Id) updates (d : Data) :
  (forall r, run_id (updates r) = run_id r) ->
  getRun id (updateRun id updates d) = updates <$> getRun id d.
Proof.
  intros Hid. unfold getRun, updateRun, find, findIndex.
  destruct (list_find _ (runs d)) as [[i r]|] eqn:F; cbn.
  - pose proof F as F'. apply list_find_Some in F as (Hi & Hr & Hleast). rewrite Hi. cbn.
    replace (list_find _ _) with (Some (i, updates r)); [reflexivity |].
    symmetry. apply list_find_Some. split_and!.
    + apply list_lookup_insert_eq. eapply lookup_lt_Some; eauto.
    + now rewrite Hid.
    + intros j y Hj Hlt. rewrite list_lookup_insert_ne in Hj by lia. eauto.
  - rewrite F. reflexivity.
Qed.

End DbFacts.

(** ** The engine: what an attempt and the loop of the attempts do *)

Section AttemptFacts.

Import Db Executor Spec.

Variable RegExp_new : string -> string -> Completion (string -> bool).
Variable completion : nat -> string -> string -> Completion ProviderResult.
Variable clock : nat -> Instant.
Variable wsServer : option (nat -> list Client).

Lemma same_store_refl (s : State) : same_store s s.
Proof. now unfold same_store. Qed.

Lemma same_store_trans (s1 s2 s3 : State) :
  same_store s1 s2 -> same_store s2 s3 -> same_store s1 s3.
Proof. unfold same_store. intros (? & ? & ?) (? & ? & ?). split_and!; congruence. Qed.

Lemma Date_now_store (s : State) : same_store s (snd (Date_now clock s)).
Proof. now unfold same_store. Qed.

Lemma broadcast_store (runId : Id) (event : Event) (s : State) :
  same_store s (snd (broadcast clock wsServer runId event s)).
Proof. unfold broadcast. destruct wsServer; now unfold same_store. Qed.

(** What [forEach] sends: the message to each client that is open, in the
    order of the clients. *)
Lemma sendAll_open (clients : list Client) (message : Message) (log : list Delivery) :
  sendAll clients message log
  = log ++ map (fun client => mkDelivery (client_id client) message)
             (List.filter (fun client => readyState client =? 1) clients).
Proof.
  revert log. induction clients as [|client rest IH]; intros log; cbn [sendAll List.filter].
  - now rewrite app_nil_r.
  - rewrite IH. destruct (readyState client =? 1); [| reflexivity].
    cbn [map]. now rewrite <- app_assoc.
Qed.

Lemma unbound_call_store (prompt model context : string) (s : State) :
  same_store s (snd (unbound_call completion prompt model context s)).
Proof. now unfold same_store. Qed.

Lemma evaluate_store (output : string) (step : Step) (s : State) :
  same_store s (snd (evaluate RegExp_new completion output step s)).
Proof.
  unfold evaluate. cbn [snd].
  destruct (String.eqb (criteria_type step) "llm" && JS.truthy output); now unfold same_store.
Qed.

(** One attempt counts itself, changes nothing of the store, and sets
    [passed] only for an output that the provider gave and the criterion
    accepted. *)
Lemma attempt_spec (runId : Id) (step : Step) (ctx : string) (a : Attempts) (s : State) :
  let r := attempt RegExp_new completion clock wsServer runId step ctx a s in
  same_store s (snd r)
  /\ a_attempts (fst r) = a_attempts a + 1
  /\ (a_passed (fst r) = true ->
      a_passed a = true \/ PassingOutput RegExp_new completion step ctx (lastOutput (fst r))).
Proof.
  unfold attempt, bind.
  pose proof (broadcast_store runId
                (step_attempt (step_id step) (a_attempts a + 1) (retry_limit step)) s) as H1.
  destruct (broadcast clock wsServer runId _ s) as [u1 s1]. cbn [snd] in H1.
  pose proof (unbound_call_store (Prompt.renderPrompt (prompt step) ctx) (model step)
                (Prompt.contextToPass (Prompt.renderPrompt (prompt step) ctx) ctx) s1) as H2.
  destruct (unbound_call completion _ _ _ s1) as [called s2] eqn:Ecall. cbn [snd] in H2.
  pose proof (same_store_trans _ _ _ H1 H2) as H12.
  destruct called as [result | message].
  - pose proof (broadcast_store runId
                  (step_response (step_id step) (content result) (tokens result) (cost result))
                  s2) as H3.
    destruct (broadcast clock wsServer runId _ s2) as [u3 s3]. cbn [snd] in H3.
    pose proof (evaluate_store (content result) step s3) as H4.
    destruct (evaluate RegExp_new completion (content result) step s3) as [evaluated s4] eqn:Eev.
    cbn [snd] in H4.
    pose proof (same_store_trans _ _ _ H12 (same_store_trans _ _ _ H3 H4)) as H14.
    destruct evaluated as [evaluation | message].
    + pose proof (broadcast_store runId
                    (step_evaluated (step_id step) (Criteria.passed evaluation)
                       (Criteria.reason evaluation)) s4) as H5.
      destruct (broadcast clock wsServer runId _ s4) as [u5 s5]. cbn [snd] in H5.
      destruct (Criteria.passed evaluation) eqn:Ep; cbn [ret fst snd a_attempts a_passed lastOutput].
      * split_and!; [eapply same_store_trans; eauto | reflexivity |].
        intros _. right. unfold PassingOutput.
        unfold unbound_call in Ecall. injection Ecall as Ecall _.
        unfold evaluate in Eev. injection Eev as Eev _.
        eexists _, result, _, evaluation. cbn zeta.
        split_and!; [exact Ecall | reflexivity | exact Eev | exact Ep].
      * split_and!; [eapply same_store_trans; eauto | reflexivity | auto].
    + pose proof (broadcast_store runId (step_error (step_id step) message) s4) as H5.
      destruct (broadcast clock wsServer runId _ s4) as [u5 s5]. cbn [snd] in H5.
      cbn [ret fst snd a_attempts a_passed lastOutput].
      split_and!; [eapply same_store_trans; eauto | reflexivity | auto].
  - pose proof (broadcast_store runId (step_error (step_id step) message) s2) as H3.
    destruct (broadcast clock wsServer runId _ s2) as [u3 s3]. cbn [snd] in H3.
    cbn [ret fst snd a_attempts a_passed lastOutput].
    split_and!; [eapply same_store_trans; eauto | reflexivity | auto].
Qed.

(** The loop of the attempts ends within the fuel it is given, with the
    store as it was. It stops at the first attempt that passes and makes no
    attempt beyond the limit. *)
Lemma attemptLoop_spec (runId : Id) (step : Step) (ctx : string) (fuel : nat) :
  forall (a : Attempts) (s : State),
    (Z.to_nat (retry_limit step - a_attempts a) <= fuel)%nat ->
    exists a' s',
      attemptLoop RegExp_new completion clock wsServer fuel runId step ctx a s = (Some a', s')
      /\ same_store s s'
      /\ (a_passed a' = true \/ retry_limit step <= a_attempts a')
      /\ a_attempts a <= a_attempts a'
      /\ a_attempts a' <= Z.max (a_attempts a) (retry_limit step)
      /\ (a_passed a = false -> a_attempts a < retry_limit step ->
          a_attempts a + 1 <= a_attempts a')
      /\ (a_passed a' = true ->
          a_passed a = true \/ PassingOutput RegExp_new completion step ctx (lastOutput a')).
Proof.
  induction fuel as [|fuel IH]; intros a s Hfuel; cbn [attemptLoop].
  - destruct (a_passed a) eqn:Hp; cbn [negb andb].
    + exists a, s. split_and!; auto using same_store_refl; try lia; try congruence.
    + destruct (a_attempts a <? retry_limit step) eqn:Hlt; [apply Z.ltb_lt in Hlt; lia |].
      exists a, s. apply Z.ltb_ge in Hlt.
      split_and!; auto using same_store_refl; try lia; try congruence.
  - destruct (a_passed a) eqn:Hp; cbn [negb andb].
    + exists a, s. split_and!; auto using same_store_refl; try lia; try congruence.
    + destruct (a_attempts a <? retry_limit step) eqn:Hlt.
      * apply Z.ltb_lt in Hlt. unfold bind.
        pose proof (attempt_spec runId step ctx a s) as (H1 & H2 & H3).
        destruct (attempt RegExp_new completion clock wsServer runId step ctx a s) as [a1 s1].
        cbn [fst snd] in H1, H2, H3.
        destruct (IH a1 s1) as (a' & s' & E & Hs & Hexit & Hle & Hmax & Hstep & Hpass); [lia |].
        exists a', s'. split_and!; auto; try lia.
        -- eapply same_store_trans; eauto.
        -- intros Hp'. right. destruct (Hpass Hp') as [Hp1 | Hout]; [| exact Hout].
           destruct (H3 Hp1) as [? | Hout]; [congruence |].
           (* the loop stopped at once: the output is that of this attempt *)
           clear - E Hp1 Hout. destruct fuel; cbn [attemptLoop] in E;
             rewrite Hp1 in E; cbn [negb andb ret] in E; injection E as <- _; exact Hout.
      * exists a, s. apply Z.ltb_ge in Hlt.
        split_and!; auto using same_store_refl; try lia; try congruence.
Qed.

End AttemptFacts.

(** ** The engine: the sequence of the steps *)

Section StepsFacts.

Import Db Executor Spec.

Variable RegExp_new : string -> string -> Completion (string -> bool).
Variable completion : nat -> string -> string -> Completion ProviderResult.
Variable clock : nat -> Instant.
Variable wsServer : option (nat -> list Client).

Lemma completeRun_spec (runId : Id) (totalCost : float) (totalTokens : Z) (s : State) :
  exists s' now,
    completeRun clock wsServer runId totalCost totalTokens s = (tt, s')
    /\ data s' = updateRun runId (terminal RunCompleted now totalCost totalTokens) (data s)
    /\ activeRuns s' = delete runId (activeRuns s)
    /\ next_uuid s' = next_uuid s.
Proof.
  unfold completeRun, bind, Date_now, db_updateRun, get_data, set_data, activeRuns_delete.
  cbn [bind fst snd data activeRuns sent next_uuid provider_calls clock_reads].
  match goal with |- context [broadcast clock wsServer runId ?e ?s0] =>
    pose proof (broadcast_store clock wsServer runId e s0) as (H1 & H2 & H3);
    destruct (broadcast clock wsServer runId e s0) as [[] s'] end.
  cbn [snd data activeRuns next_uuid] in H1, H2, H3.
  exists s', (clock (clock_reads s)). split_and!; [reflexivity | exact H1 | exact H2 | exact H3].
Qed.

Lemma failRun_spec (runId : Id) (error : string) (totalCost : float) (totalTokens : Z)
    (s : State) :
  exists s' now,
    failRun clock wsServer runId error totalCost totalTokens s = (tt, s')
    /\ data s' = updateRun runId (terminal RunFailed now totalCost totalTokens) (data s)
    /\ activeRuns s' = delete runId (activeRuns s)
    /\ next_uuid s' = next_uuid s.
Proof.
  unfold failRun, bind, Date_now, db_updateRun, get_data, set_data, activeRuns_delete.
  cbn [bind fst snd data activeRuns sent next_uuid provider_calls clock_reads].
  match goal with |- context [broadcast clock wsServer runId ?e ?s0] =>
    pose proof (broadcast_store clock wsServer runId e s0) as (H1 & H2 & H3);
    destruct (broadcast clock wsServer runId e s0) as [[] s'] end.
  cbn [snd data activeRuns next_uuid] in H1, H2, H3.
  exists s', (clock (clock_reads s)). split_and!; [reflexivity | exact H1 | exact H2 | exact H3].
Qed.


Lemma updateRun_same_runs (id : Id) updates (d1 d2 : Data) :
  runs d1 = runs d2 -> runs (updateRun id updates d1) = runs (updateRun id updates d2).
Proof.
  intros H. unfold updateRun. rewrite H.
  destruct (findIndex _ (runs d2)) as [i|]; [| exact H].
  destruct (runs d2 !! i); [reflexivity | exact H].
Qed.

(** What a run whose records are in place leaves behind. The step
    executions of the steps still to run are [todo]; the records before
    them are [pre]. *)
Lemma executeStepsFrom_trace (runId : Id) (rest : list Step) :
  forall (i : nat) (ctx : string) (totalCost : float) (totalTokens : Z) (s : State)
         (pre todo : list StepExecution),
    step_executions (data s) = pre ++ todo ->
    Forall2 (fun se step =>
               se_run_id se = runId /\ se_step_id se = step_id step /\ se_status se = Pending)
      todo rest ->
    NoDup (map step_id rest) ->
    NoDup (map se_id todo) ->
    Forall (fun y => forall t, t ∈ todo -> se_id y <> se_id t) pre ->
    Forall (fun y => forall step, step ∈ rest ->
                       ~ (se_run_id y = runId /\ se_step_id y = step_id step)) pre ->
    exists s' ses status now c t,
      executeStepsFrom RegExp_new completion clock wsServer runId rest i ctx totalCost
        totalTokens s = (Finished, s')
      /\ step_executions (data s') = pre ++ ses
      /\ Forall (fun se => se_run_id se = runId) ses
      /\ Trace RegExp_new completion ctx rest ses status
      /\ runs (data s') = runs (updateRun runId (terminal status now c t) (data s))
      /\ workflows (data s') = workflows (data s)
      /\ steps (data s') = steps (data s)
      /\ activeRuns s' = delete runId (activeRuns s)
      /\ next_uuid s' = next_uuid s.
Proof.
  induction rest as [|step rest IH];
    intros i ctx totalCost totalTokens s pre todo Hd Htodo Hsteps Hids Hpre_id Hpre_key.
  - apply Forall2_nil_inv_r in Htodo as ->.
    cbn [executeStepsFrom]. unfold bind.
    destruct (completeRun_spec runId totalCost totalTokens s) as (s' & now & E & Hdata & Hact & Hid).
    rewrite E. cbn [ret].
    destruct (updateRun_others runId (terminal RunCompleted now totalCost totalTokens) (data s))
      as (Hw & Hst & Hse).
    exists s', [], RunCompleted, now, totalCost, totalTokens.
    split_and!; [reflexivity | | constructor | constructor | | | | exact Hact | exact Hid];
      rewrite Hdata; congruence.
  - apply Forall2_cons_inv_r in Htodo as (se0 & todo' & (Hrun0 & Hstep0 & Hst0) & Htodo & ->).
    change (map step_id (step :: rest)) with (step_id step :: map step_id rest) in Hsteps.
    change (map se_id (se0 :: todo')) with (se_id se0 :: map se_id todo') in Hids.
    apply NoDup_cons in Hsteps as [Hstep_new Hsteps].
    apply NoDup_cons in Hids as [Hid_new Hids].
    assert (Hpre_ne : Forall (fun y => se_id y <> se_id se0) pre).
    { eapply Forall_impl; [exact Hpre_id |]. intros y Hy. apply Hy. left. }
    cbn [executeStepsFrom]. unfold bind at 1. cbn [get_data].
    rewrite (getStepExecution_middle runId (step_id step) (data s) pre se0 todo' Hd);
      [| | exact Hrun0 | exact Hstep0].
    2:{ eapply Forall_impl; [exact Hpre_key |]. intros y Hy.
        specialize (Hy step (list_elem_of_here _ _)).
        destruct (Nat.eqb_spec (se_run_id y) runId), (Nat.eqb_spec (se_step_id y) (step_id step));
          cbn; auto. exfalso. auto. }
    (* the step is marked as running *)
    unfold bind at 1. unfold Date_now at 1.
    unfold bind at 1. unfold db_updateStepExecution at 1, bind at 1, get_data, set_data.
    cbn [data activeRuns sent next_uuid provider_calls clock_reads].
    match goal with |- context [updateStepExecution (se_id se0) ?f (data s)] =>
      set (f1 := f);
      rewrite (updateStepExecution_middle (se_id se0) f1 (data s) pre se0 todo' Hd Hpre_ne
                 eq_refl)
    end.
    unfold bind at 1.
    match goal with |- context [broadcast clock wsServer runId ?e ?s0] =>
      pose proof (broadcast_store clock wsServer runId e s0) as (B1 & B2 & B3);
      destruct (broadcast clock wsServer runId e s0) as [[] s2] end.
    cbn [snd data activeRuns next_uuid] in B1, B2, B3.
    (* the attempts *)
    unfold bind at 1.
    destruct (attemptLoop_spec RegExp_new completion clock wsServer runId step ctx
                (loopFuel step) (mkAttempts false EmptyString EmptyString 0 0%float 0) s2)
      as (a & s3 & E & (L1 & L2 & L3) & Hexit & Hle & Hmax & Hfirst & Hpass).
    { unfold loopFuel. cbn [a_attempts]. lia. }
    rewrite E. cbn [a_attempts a_passed] in Hexit, Hle, Hmax, Hfirst, Hpass.
    (* the record of the step *)
    unfold bind at 1. unfold Date_now at 1.
    unfold bind at 1. unfold db_updateStepExecution at 1, bind at 1, get_data, set_data.
    cbn [data activeRuns sent next_uuid provider_calls clock_reads].
    assert (Hd3 : step_executions (data s3) = pre ++ f1 se0 :: todo').
    { rewrite L1, B1. reflexivity. }
    match goal with |- context [updateStepExecution (se_id se0) ?f (data s3)] =>
      set (f2 := f);
      rewrite (updateStepExecution_middle (se_id se0) f2 (data s3) pre (f1 se0) todo' Hd3
                 Hpre_ne eq_refl)
    end.
    set (se' := f2 (f1 se0)).
    assert (Hbound : 0 < retry_limit step -> 1 <= attempts se' <= retry_limit step).
    { intros Hpos. subst se' f2. cbn [attempts]. specialize (Hfirst eq_refl Hpos). lia. }
    destruct (a_passed a) eqn:Hp.
    + (* passed: on to the next step *)
      unfold bind at 1.
      match goal with |- context [broadcast clock wsServer runId ?e ?s0] =>
        pose proof (broadcast_store clock wsServer runId e s0) as (C1 & C2 & C3);
        destruct (broadcast clock wsServer runId e s0) as [[] s4] end.
      cbn [snd data activeRuns next_uuid] in C1, C2, C3.
      destruct (IH (S i) (Criteria.extractContext (lastOutput a) (context_mode step))
                  (totalCost + stepCost a)%float (totalTokens + stepTokens a) s4
                  (pre ++ [se']) todo')
        as (s' & ses & status & now & c & t & E' & Hses & Hrun & Htrace & Hruns & Hw & Hst
            & Hact & Hid).
      * rewrite C1. cbn [step_executions]. now rewrite <- app_assoc.
      * exact Htodo.
      * exact Hsteps.
      * exact Hids.
      * apply Forall_app. split.
        -- eapply Forall_impl; [exact Hpre_id |]. intros y Hy t0 Ht. apply Hy. now right.
        -- constructor; [| constructor]. intros t0 Ht Heq. apply Hid_new.
           subst se' f2 f1. cbn [se_id] in Heq. rewrite Heq.
           apply list_elem_of_fmap. now exists t0.
      * apply Forall_app. split.
        -- eapply Forall_impl; [exact Hpre_key |]. intros y Hy st0 Hst0'. apply Hy. now right.
        -- constructor; [| constructor]. intros st0 Hin [_ Heq]. apply Hstep_new.
           subst se' f2 f1. cbn [se_step_id] in Heq. rewrite <- Hstep0, Heq.
           apply list_elem_of_fmap. now exists st0.
      * exists s', (se' :: ses), status, now, c, t.
        split_and!.
        -- exact E'.
        -- rewrite Hses. now rewrite <- app_assoc.
        -- constructor; [exact Hrun0 | exact Hrun].
        -- eapply Trace_passed with (out := lastOutput a); try reflexivity; try assumption.
           destruct (Hpass eq_refl) as [? | Hout]; [discriminate | exact Hout].
        -- rewrite Hruns. apply updateRun_same_runs. rewrite C1. cbn [runs].
           now rewrite L1, B1.
        -- rewrite Hw, C1. cbn [workflows]. now rewrite L1, B1.
        -- rewrite Hst, C1. cbn [steps]. now rewrite L1, B1.
        -- rewrite Hact, C2. cbn [activeRuns]. now rewrite L2, B2.
        -- rewrite Hid, C3. cbn [next_uuid]. now rewrite L3, B3.
    + (* failed: the run fails *)
      unfold bind at 1.
      match goal with |- context [broadcast clock wsServer runId ?e ?s0] =>
        pose proof (broadcast_store clock wsServer runId e s0) as (C1 & C2 & C3);
        destruct (broadcast clock wsServer runId e s0) as [[] s4] end.
      cbn [snd data activeRuns next_uuid] in C1, C2, C3.
      unfold bind at 1.
      destruct (failRun_spec runId (stepFailedMessage step (lastError a))
                  (totalCost + stepCost a)%float (totalTokens + stepTokens a) s4)
        as (s' & now & E' & Hdata & Hact & Hid).
      rewrite E'. cbn [ret].
      destruct (updateRun_others runId
                  (terminal RunFailed now (totalCost + stepCost a)%float
                     (totalTokens + stepTokens a)) (data s4)) as (Hw & Hst & Hse).
      exists s', (se' :: todo'), RunFailed, now, (totalCost + stepCost a)%float,
        (totalTokens + stepTokens a).
      split_and!.
      * reflexivity.
      * rewrite Hdata, Hse, C1. reflexivity.
      * constructor; [exact Hrun0 |].
        eapply Forall2_Forall_l; [exact Htodo |]. apply Forall_true. tauto.
      * apply Trace_failed; try reflexivity; try assumption.
        eapply Forall2_impl; [exact Htodo |]. cbn. tauto.
      * rewrite Hdata. apply updateRun_same_runs. rewrite C1. cbn [runs].
        now rewrite L1, B1.
      * rewrite Hdata, Hw, C1. cbn [workflows]. now rewrite L1, B1.
      * rewrite Hdata, Hst, C1. cbn [steps]. now rewrite L1, B1.
      * rewrite Hact, C2. cbn [activeRuns]. now rewrite L2, B2.
      * rewrite Hid, C3. cbn [next_uuid]. now rewrite L3, B3.
Qed.

End StepsFacts.

Section StartFacts.

Import Db Executor Spec.

Variable RegExp_new : string -> string -> Completion (string -> bool).
Variable completion : nat -> string -> string -> Completion ProviderResult.
Variable clock : nat -> Instant.
Variable wsServer : option (nat -> list Client).

Lemma pendingRecords_steps (base : nat) (runId : Id) (steps : list Step) :
  Forall2 (fun se step =>
             se_run_id se = runId /\ se_step_id se = step_id step /\ se_status se = Pending)
    (pendingRecords base runId steps) steps.
Proof.
  revert base. induction steps as [|step rest IH]; intros base; cbn [pendingRecords];
    constructor; auto.
Qed.

Lemma pendingRecords_ids (base : nat) (runId : Id) (steps : list Step) :
  Forall (fun se => (base <= se_id se)%nat) (pendingRecords base runId steps)
  /\ NoDup (map se_id (pendingRecords base runId steps)).
Proof.
  revert base. induction steps as [|step rest IH]; intros base; cbn [pendingRecords map].
  - split; constructor.
  - destruct (IH (S base)) as [Hge Hnd]. split.
    + constructor; [cbn; lia |]. eapply Forall_impl; [exact Hge |]. cbn. intros; lia.
    + apply NoDup_cons. split; [| exact Hnd]. cbn [se_id]. intros Hin.
      apply list_elem_of_fmap in Hin as (se & Heq & Hin).
      eapply Forall_forall in Hge; [| exact Hin]. lia.
Qed.

Lemma createStepExecution_step (runId stepId : Id) (s : State) :
  (db_createStepExecution runId stepId ;;; ret tt) s
  = (tt,
     mkState
       (mkData (workflows (data s)) (Db.steps (data s)) (runs (data s))
          (step_executions (data s)
             ++ [mkStepExecution (next_uuid s) runId stepId Pending 0 None None None 0 0%float
                   None None]))
       (activeRuns s) (sent s) (S (next_uuid s)) (provider_calls s) (clock_reads s)).
Proof. reflexivity. Qed.

Lemma forEach_createStepExecution (runId : Id) (steps : list Step) :
  forall s : State,
    exists s',
      forEach steps (fun step => db_createStepExecution runId (step_id step) ;;; ret tt) s
      = (tt, s')
      /\ data s'
         = mkData (workflows (data s)) (Db.steps (data s)) (runs (data s))
             (step_executions (data s) ++ pendingRecords (next_uuid s) runId steps)
      /\ activeRuns s' = activeRuns s
      /\ next_uuid s' = (next_uuid s + length steps)%nat.
Proof.
  induction steps as [|step rest IH]; intros s; cbn [forEach pendingRecords length].
  - exists s. rewrite app_nil_r, Nat.add_0_r. destruct s as [[] ? ? ? ? ?]. now cbn.
  - unfold bind at 1. rewrite createStepExecution_step.
    match goal with |- context [forEach rest ?f ?s1] => destruct (IH s1) as (s' & E & Hd & Ha & Hn) end.
    exists s'. rewrite E. split; [reflexivity |].
    cbn [data activeRuns sent next_uuid provider_calls clock_reads workflows Db.steps runs
         step_executions] in Hd, Ha, Hn.
    split_and!; [| exact Ha | lia].
    rewrite Hd. now rewrite <- app_assoc.
Qed.

Lemma createRun_step (workflowId : Id) (s : State) :
  db_createRun clock workflowId s
  = (mkRun (next_uuid s) workflowId RunRunning (clock (clock_reads s)) None 0%float 0,
     mkState
       (mkData (workflows (data s)) (Db.steps (data s))
          (runs (data s)
             ++ [mkRun (next_uuid s) workflowId RunRunning (clock (clock_reads s)) None 0%float
                   0])
          (step_executions (data s)))
       (activeRuns s) (sent s) (S (next_uuid s)) (provider_calls s) (S (clock_reads s))).
Proof. reflexivity. Qed.

(** The part of [execute] before the background sequence. *)
Lemma start_spec (workflowId : Id) (s : State) :
  match getWorkflow workflowId (data s) with
  | None => start clock workflowId s = (Throw "Workflow not found", s)
  | Some _ =>
      match getWorkflowSteps workflowId (data s) with
      | [] => start clock workflowId s = (Throw "Workflow has no steps", s)
      | steps =>
          exists s1 now,
            start clock workflowId s = (Return (next_uuid s, steps), s1)
            /\ data s1
               = mkData (workflows (data s)) (Db.steps (data s))
                   (runs (data s)
                      ++ [mkRun (next_uuid s) workflowId RunRunning now None 0%float 0])
                   (step_executions (data s)
                      ++ pendingRecords (S (next_uuid s)) (next_uuid s) steps)
            /\ activeRuns s1
               = <[next_uuid s := mkActiveRun workflowId RunRunning]> (activeRuns s)
            /\ next_uuid s1 = (S (next_uuid s) + length steps)%nat
      end
  end.
Proof.
  destruct (getWorkflow workflowId (data s)) as [workflow|] eqn:Hw.
  2:{ unfold start, bind, get_data. now rewrite Hw. }
  destruct (getWorkflowSteps workflowId (data s)) as [|step0 steps0] eqn:Hsteps.
  { unfold start, bind, get_data. now rewrite Hw, Hsteps. }
  unfold start. unfold bind at 1. unfold get_data. rewrite Hw, Hsteps.
  cbn [length Nat.eqb].
  unfold bind at 1. rewrite createRun_step. cbn [run_id].
  unfold bind at 1.
  match goal with |- context [forEach (step0 :: steps0) ?f ?s1] =>
    destruct (forEach_createStepExecution (next_uuid s) (step0 :: steps0) s1)
      as (s' & E & Hd & Ha & Hn) end.
  rewrite E.
  cbn [data activeRuns sent next_uuid provider_calls clock_reads workflows Db.steps runs
       step_executions] in Hd, Ha, Hn.
  unfold bind, activeRuns_set, ret.
  eexists _, (clock (clock_reads s)). split; [reflexivity |].
  cbn [data activeRuns next_uuid]. split_and!; [exact Hd | now rewrite Ha | exact Hn].
Qed.

End StartFacts.

(** ** The steps of a workflow keep their identifiers apart *)

Section SortFacts.

Import Db.

Lemma insert_by_order_perm (s : Step) (l : list Step) : insert_by_order s l ≡ₚ s :: l.
Proof.
  induction l as [|x l IH]; cbn [insert_by_order]; [reflexivity |].
  destruct (order_index s <=? order_index x); [reflexivity |].
  rewrite IH. apply perm_swap.
Qed.

Lemma sort_by_order_perm (l : list Step) : sort_by_order l ≡ₚ l.
Proof.
  unfold sort_by_order. induction l as [|x l IH]; cbn [foldr]; [reflexivity |].
  rewrite insert_by_order_perm. now rewrite IH.
Qed.

Lemma NoDup_map_filter {A B} (f : A -> B) (p : A -> bool) (l : list A) :
  NoDup (map f l) -> NoDup (map f (List.filter p l)).
Proof.
  induction l as [|x l IH]; cbn [map List.filter]; [auto |].
  intros [Hx Hl]%NoDup_cons. destruct (p x); [| auto].
  cbn [map]. apply NoDup_cons. split; [| auto].
  intros Hin. apply Hx. apply list_elem_of_fmap in Hin as (y & -> & Hy).
  apply list_elem_of_fmap. exists y. split; [reflexivity |].
  apply list_elem_of_In. apply list_elem_of_In in Hy. apply filter_In in Hy. tauto.
Qed.

Lemma getWorkflowSteps_distinct (workflowId : Id) (d : Data) :
  NoDup (map step_id (steps d)) -> NoDup (map step_id (getWorkflowSteps workflowId d)).
Proof.
  intros H. unfold getWorkflowSteps.
  rewrite (Permutation_map step_id (sort_by_order_perm _)).
  now apply NoDup_map_filter.
Qed.

End SortFacts.

(** ** What a trace says of the statuses, the attempts and the contexts *)

Section TraceFacts.

Import Db Executor Spec.

Variable RegExp_new : string -> string -> Completion (string -> bool).
Variable completion : nat -> string -> string -> Completion ProviderResult.

Lemma Trace_length ctx steps ses status : Trace RegExp_new completion ctx steps ses status -> length ses = length steps.
Proof.
  induction 1; cbn [length]; [reflexivity | congruence |].
  f_equal. eapply Forall2_length; eauto.
Qed.

Lemma Trace_terminal ctx steps ses status :
  Trace RegExp_new completion ctx steps ses status -> status = RunCompleted \/ status = RunFailed.
Proof. induction 1; auto. Qed.

Lemma Trace_completed_passed ctx steps ses :
  Trace RegExp_new completion ctx steps ses RunCompleted -> Forall (fun st => st = Passed) (map se_status ses).
Proof.
  remember RunCompleted as status eqn:Hs. induction 1; cbn [map].
  - constructor.
  - constructor; auto.
  - discriminate.
Qed.

Lemma pending_lookup (ses : list StepExecution) (rest : list Step) (j : nat) (st : StepStatus) :
  Forall2 (fun se' step' => se_step_id se' = step_id step' /\ se_status se' = Pending) ses rest ->
  map se_status ses !! j = Some st -> st = Pending.
Proof.
  intros H Hj. rewrite list_lookup_fmap in Hj.
  destruct (ses !! j) as [se|] eqn:E; [| discriminate]. injection Hj as <-.
  eapply Forall2_lookup_l in H as (step & _ & _ & Hp); eauto.
Qed.

Lemma Trace_failed_one ctx steps ses :
  Trace RegExp_new completion ctx steps ses RunFailed -> one_failed_then_pending (map se_status ses).
Proof.
  remember RunFailed as status eqn:Hs. induction 1; cbn [map].
  - discriminate.
  - destruct (IHTrace Hs) as (i & Hi & Huniq & Hlater). exists (S i). split_and!.
    + exact Hi.
    + intros [|j] Hj; cbn in Hj; [congruence |]. f_equal. now apply Huniq.
    + intros [|j] st Hlt Hj; [lia |]. cbn in Hj. eapply Hlater; [| exact Hj]. lia.
  - exists 0%nat. split_and!.
    + cbn. now f_equal.
    + intros [|j] Hj; [reflexivity |]. cbn in Hj.
      eapply pending_lookup in Hj; [| eassumption]. discriminate.
    + intros [|j] st Hlt Hj; [lia |]. cbn in Hj. eapply pending_lookup; eassumption.
Qed.

(** The status of the run, read from the statuses of its steps. *)
Lemma Trace_status_iff ctx steps ses status :
  Trace RegExp_new completion ctx steps ses status ->
  (status = RunCompleted <-> Forall (fun st => st = Passed) (map se_status ses))
  /\ (status = RunFailed <-> one_failed_then_pending (map se_status ses)).
Proof.
  intros H. destruct (Trace_terminal _ _ _ _ H) as [-> | ->].
  - pose proof (Trace_completed_passed _ _ _ H) as Hall. split; split; auto; try discriminate.
    intros (i & Hi & _). eapply Forall_lookup_1 in Hall; [| exact Hi]. discriminate.
  - pose proof (Trace_failed_one _ _ _ H) as Hone. split; split; auto; try discriminate.
    intros Hall. destruct Hone as (i & Hi & _).
    eapply Forall_lookup_1 in Hall; [| exact Hi]. discriminate.
Qed.

Lemma Trace_attempts ctx steps ses status :
  Trace RegExp_new completion ctx steps ses status ->
  forall i se step,
    ses !! i = Some se -> steps !! i = Some step -> se_status se <> Pending ->
    0 < retry_limit step -> 1 <= attempts se <= retry_limit step.
Proof.
  induction 1; intros i se0 step0 Hse Hstep Hnp Hpos.
  - discriminate.
  - destruct i as [|i]; cbn in Hse, Hstep.
    + injection Hse as <-. injection Hstep as <-. auto.
    + eapply IHTrace; eauto.
  - destruct i as [|i]; cbn in Hse, Hstep.
    + injection Hse as <-. injection Hstep as <-. auto.
    + eapply Forall2_lookup_l in H3 as (? & _ & _ & Hp); eauto. congruence.
Qed.

Lemma Trace_first ctx steps ses status :
  Trace RegExp_new completion ctx steps ses status ->
  forall se, ses !! 0%nat = Some se -> input_context se = Some ctx.
Proof. induction 1; intros se0 Hse; cbn in Hse; [discriminate | | ]; congruence. Qed.

Lemma Trace_context ctx steps ses status :
  Trace RegExp_new completion ctx steps ses status ->
  forall i se se',
    ses !! i = Some se -> ses !! S i = Some se' -> se_status se' <> Pending ->
    exists step cin out,
      steps !! i = Some step
      /\ input_context se = Some cin
      /\ se_status se = Passed
      /\ output se = Some out
      /\ PassingOutput RegExp_new completion step cin out
      /\ input_context se' = Some (Criteria.extractContext out (context_mode step)).
Proof.
  induction 1; intros i se0 se1 Hse Hse' Hnp.
  - discriminate.
  - destruct i as [|i]; cbn in Hse, Hse'.
    + injection Hse as <-. exists step, ctx, out.
      split_and!; auto. eapply Trace_first; eauto.
    + destruct (IHTrace i se0 se1 Hse Hse' Hnp) as (step' & cin & out' & ?).
      exists step', cin, out'. exact H6.
  - exfalso. apply Hnp. cbn in Hse'.
    eapply Forall2_lookup_l in H3 as (? & _ & _ & Hp); eauto.
Qed.

End TraceFacts.

(** ** A run, from [execute] to its end *)

Section RunFacts.

Import Db Executor Spec.

Variable RegExp_new : string -> string -> Completion (string -> bool).
Variable completion : nat -> string -> string -> Completion ProviderResult.
Variable clock : nat -> Instant.
Variable wsServer : option (nat -> list Client).

Lemma filter_none {A} (p : A -> bool) (l : list A) :
  Forall (fun x => p x = false) l -> List.filter p l = [].
Proof.
  induction 1 as [|x l Hx _ IH]; cbn [List.filter]; [reflexivity |]. now rewrite Hx.
Qed.

Lemma filter_all {A} (p : A -> bool) (l : list A) :
  Forall (fun x => p x = true) l -> List.filter p l = l.
Proof.
  induction 1 as [|x l Hx _ IH]; cbn [List.filter]; [reflexivity |]. now rewrite Hx, IH.
Qed.

(** A run started in a state whose identifiers come from the supply, over
    steps with identifiers of their own: the background sequence returns,
    the run is no longer in the table of the active runs, and its record and
    those of its steps are a trace of the steps of the workflow. *)
Lemma execute_trace (workflowId : Id) (s0 : State) (runId : Id) (o : option Outcome)
    (s' : State) :
  fresh_ids s0 -> distinct_steps s0 ->
  execute RegExp_new completion clock wsServer workflowId s0 = ((Return runId, o), s') ->
  o = Some Finished
  /\ runId = next_uuid s0
  /\ getWorkflowSteps workflowId (data s0) <> []
  /\ getRunStatus runId s' = None
  /\ exists r,
      getRun runId (data s') = Some r
      /\ Trace RegExp_new completion EmptyString (getWorkflowSteps workflowId (data s0))
           (stepExecutionsOf runId (data s')) (run_status r).
Proof.
  intros [Hruns Hses] Hdistinct Hexec.
  unfold execute, bind in Hexec.
  pose proof (start_spec clock workflowId s0) as Hstart.
  destruct (getWorkflow workflowId (data s0)) as [workflow|].
  2:{ rewrite Hstart in Hexec. discriminate. }
  pose proof (getWorkflowSteps_distinct workflowId (data s0) Hdistinct) as Hnd.
  destruct (getWorkflowSteps workflowId (data s0)) as [|step0 steps0] eqn:Hsteps.
  { rewrite Hstart in Hexec. discriminate. }
  destruct Hstart as (s1 & now & E1 & Hd1 & Ha1 & Hn1).
  rewrite E1 in Hexec. unfold background, bind, executeSteps in Hexec.
  destruct (executeStepsFrom_trace RegExp_new completion clock wsServer (next_uuid s0)
              (step0 :: steps0) 0%nat EmptyString 0%float 0 s1
              (step_executions (data s0))
              (pendingRecords (S (next_uuid s0)) (next_uuid s0) (step0 :: steps0)))
    as (s2 & ses & status & now' & c & t & E2 & Hses2 & Hrun2 & Htrace & Hruns2 & _ & _ & Ha2
        & _).
  - rewrite Hd1. reflexivity.
  - apply pendingRecords_steps.
  - exact Hnd.
  - apply pendingRecords_ids.
  - eapply Forall_impl; [exact Hses |]. intros y [Hy _] t0 Ht.
    destruct (pendingRecords_ids (S (next_uuid s0)) (next_uuid s0) (step0 :: steps0))
      as [Hge _].
    eapply Forall_forall in Hge; [| exact Ht]. lia.
  - eapply Forall_impl; [exact Hses |]. intros y [_ Hy] st0 _ [Heq _]. rewrite Heq in Hy. now apply Nat.lt_irrefl in Hy.
  - rewrite E2 in Hexec. cbn [ret] in Hexec. injection Hexec as <- <- <-.
    split_and!; [reflexivity | reflexivity | discriminate | |].
    + unfold getRunStatus. rewrite Ha2. apply lookup_delete_eq.
    + exists (terminal status now' c t
                (mkRun (next_uuid s0) workflowId RunRunning now None 0%float 0)).
      split.
      * unfold getRun. rewrite Hruns2.
        change (find (fun r => Nat.eqb (run_id r) (next_uuid s0))
                  (runs (updateRun (next_uuid s0) (terminal status now' c t) (data s1))))
          with (getRun (next_uuid s0)
                  (updateRun (next_uuid s0) (terminal status now' c t) (data s1))).
        rewrite getRun_updateRun by reflexivity.
        unfold getRun, find. rewrite Hd1. cbn [runs].
        rewrite find_middle; [reflexivity | | cbn; apply Nat.eqb_refl].
        eapply Forall_impl; [exact Hruns |]. intros r Hr. cbv beta in *. apply Nat.eqb_neq. lia.
      * cbn [run_status terminal]. unfold stepExecutionsOf. rewrite Hses2.
        rewrite List.filter_app, filter_none, filter_all; [exact Htrace | |].
        -- eapply Forall_impl; [exact Hrun2 |]. intros se Hse. cbn. now apply Nat.eqb_eq.
        -- eapply Forall_impl; [exact Hses |]. intros se [_ Hse]. cbv beta. apply Nat.eqb_neq. lia.
Qed.

End RunFacts.
(** ** The table of the active runs *)

Section RegistryFacts.

Import Db Executor Spec.

Variable RegExp_new : string -> string -> Completion (string -> bool).
Variable completion : nat -> string -> string -> Completion ProviderResult.
Variable clock : nat -> Instant.
Variable wsServer : option (nat -> list Client).

Lemma updateStepExecution_runs (id : Id) updates (d : Data) :
  runs (updateStepExecution id updates d) = runs d.
Proof.
  unfold updateStepExecution. destruct (findIndex _ _) as [i|]; [| reflexivity].
  destruct (step_executions d !! i); reflexivity.
Qed.

(** Whatever the state, the sequence of the steps either returns, having
    set the run to a final status and taken it out of the table, or throws
    before it has touched the runs and the table. *)
Lemma executeStepsFrom_registry (runId : Id) (rest : list Step) :
  forall (i : nat) (ctx : string) (totalCost : float) (totalTokens : Z) (s : State),
    exists o s',
      executeStepsFrom RegExp_new completion clock wsServer runId rest i ctx totalCost
        totalTokens s = (o, s')
      /\ next_uuid s' = next_uuid s
      /\ ((o = Finished
           /\ exists status now c t,
               status <> RunRunning
               /\ runs (data s') = runs (updateRun runId (terminal status now c t) (data s))
               /\ activeRuns s' = delete runId (activeRuns s))
          \/ (exists message,
                 o = Thrown message /\ runs (data s') = runs (data s)
                 /\ activeRuns s' = activeRuns s)).
Proof.
  induction rest as [|step rest IH]; intros i ctx totalCost totalTokens s.
  - cbn [executeStepsFrom]. unfold bind.
    destruct (completeRun_spec clock wsServer runId totalCost totalTokens s)
      as (s' & now & E & Hdata & Hact & Hid).
    rewrite E. cbn [ret]. exists Finished, s'. split_and!; [reflexivity | exact Hid |].
    left. split; [reflexivity |]. exists RunCompleted, now, totalCost, totalTokens.
    split_and!; [discriminate | now rewrite Hdata | exact Hact].
  - cbn [executeStepsFrom]. unfold bind at 1. cbn [get_data].
    destruct (getStepExecution runId (step_id step) (data s)) as [stepExec|].
    2:{ cbn [ret]. eexists _, s. split_and!; [reflexivity | reflexivity |].
        right. eexists. split_and!; reflexivity. }
    unfold bind at 1. unfold Date_now at 1.
    unfold bind at 1. unfold db_updateStepExecution at 1, bind at 1, get_data, set_data.
    cbn [data activeRuns sent next_uuid provider_calls clock_reads].
    unfold bind at 1.
    match goal with |- context [broadcast clock wsServer runId ?e ?s0] =>
      pose proof (broadcast_store clock wsServer runId e s0) as (B1 & B2 & B3);
      destruct (broadcast clock wsServer runId e s0) as [[] s2] end.
    cbn [snd data activeRuns next_uuid] in B1, B2, B3.
    unfold bind at 1.
    destruct (attemptLoop_spec RegExp_new completion clock wsServer runId step ctx
                (loopFuel step) (mkAttempts false EmptyString EmptyString 0 0%float 0) s2)
      as (a & s3 & E & (L1 & L2 & L3) & _).
    { unfold loopFuel. cbn [a_attempts]. lia. }
    rewrite E.
    unfold bind at 1. unfold Date_now at 1.
    unfold bind at 1. unfold db_updateStepExecution at 1, bind at 1, get_data, set_data.
    cbn [data activeRuns sent next_uuid provider_calls clock_reads].
    assert (Hruns3 : runs (data s3) = runs (data s)).
    { rewrite L1, B1. apply updateStepExecution_runs. }
    destruct (a_passed a).
    + unfold bind at 1.
      match goal with |- context [broadcast clock wsServer runId ?e ?s0] =>
        pose proof (broadcast_store clock wsServer runId e s0) as (C1 & C2 & C3);
        destruct (broadcast clock wsServer runId e s0) as [[] s4] end.
      cbn [snd data activeRuns next_uuid] in C1, C2, C3.
      assert (Hruns4 : runs (data s4) = runs (data s)).
      { rewrite C1, updateStepExecution_runs. exact Hruns3. }
      destruct (IH (S i) (Criteria.extractContext (lastOutput a) (context_mode step))
                  (totalCost + stepCost a)%float (totalTokens + stepTokens a) s4)
        as (o & s' & E' & Hid & Hcases).
      exists o, s'. split_and!; [exact E' | congruence |].
      destruct Hcases as [(-> & status & now & c & t & Hterm & Hruns & Hact)
                         | (message & -> & Hruns & Hact)].
      * left. split; [reflexivity |]. exists status, now, c, t.
        split_and!; [exact Hterm | | congruence].
        rewrite Hruns. now apply updateRun_same_runs.
      * right. exists message. split_and!; [reflexivity | congruence | congruence].
    + unfold bind at 1.
      match goal with |- context [broadcast clock wsServer runId ?e ?s0] =>
        pose proof (broadcast_store clock wsServer runId e s0) as (C1 & C2 & C3);
        destruct (broadcast clock wsServer runId e s0) as [[] s4] end.
      cbn [snd data activeRuns next_uuid] in C1, C2, C3.
      assert (Hruns4 : runs (data s4) = runs (data s)).
      { rewrite C1, updateStepExecution_runs. exact Hruns3. }
      unfold bind at 1.
      destruct (failRun_spec clock wsServer runId (stepFailedMessage step (lastError a))
                  (totalCost + stepCost a)%float (totalTokens + stepTokens a) s4)
        as (s' & now & E' & Hdata & Hact & Hid).
      rewrite E'. cbn [ret]. exists Finished, s'.
      split_and!; [reflexivity | congruence |].
      left. split; [reflexivity |].
      exists RunFailed, now, (totalCost + stepCost a)%float, (totalTokens + stepTokens a).
      split_and!; [discriminate | | congruence].
      rewrite Hdata. now apply updateRun_same_runs.
Qed.

Lemma background_registry (runId : Id) (steps : list Step) (s : State) :
  let s' := snd (background RegExp_new completion clock wsServer runId steps s) in
  next_uuid s' = next_uuid s
  /\ activeRuns s' = delete runId (activeRuns s)
  /\ exists status now c t,
      status <> RunRunning
      /\ runs (data s') = runs (updateRun runId (terminal status now c t) (data s)).
Proof.
  unfold background, bind, executeSteps.
  destruct (executeStepsFrom_registry runId steps 0%nat EmptyString 0%float 0 s)
    as (o & s1 & E & Hid & Hcases).
  rewrite E.
  destruct Hcases as [(-> & status & now & c & t & Hterm & Hruns & Hact)
                     | (message & -> & Hruns & Hact)].
  - cbn [ret snd]. split_and!; [exact Hid | exact Hact |]. now exists status, now, c, t.
  - destruct (failRun_spec clock wsServer runId message 0%float 0 s1)
      as (s' & now & E' & Hdata & Hact' & Hid').
    unfold bind. rewrite E'. cbn [ret snd]. split_and!; [congruence | congruence |].
    exists RunFailed, now, 0%float, 0. split; [discriminate |].
    rewrite Hdata. now apply updateRun_same_runs.
Qed.

Lemma Reachable_invariant (s : State) :
  Reachable RegExp_new completion clock wsServer s -> registry_invariant s.
Proof.
  induction 1 as [s Hempty Hids | s workflowId _ (Hrun & Hterm & Hids)
                 | s runId steps _ (Hrun & Hterm & Hids)].
  - split_and!; [| | exact Hids]; intros; rewrite Hempty in *;
      [rewrite lookup_empty in *; discriminate | apply lookup_empty].
  - pose proof (start_spec clock workflowId s) as Hstart.
    destruct (getWorkflow workflowId (data s)).
    2:{ rewrite Hstart. cbn [snd]. now split_and!. }
    destruct (getWorkflowSteps workflowId (data s)) as [|step0 steps0].
    { rewrite Hstart. cbn [snd]. now split_and!. }
    destruct Hstart as (s1 & now & E & Hd & Ha & Hn). rewrite E. cbn [snd].
    split_and!.
    + intros runId entry. rewrite Ha.
      intros [[_ <-] | [_ Hin]]%lookup_insert_Some; [reflexivity | exact (Hrun _ _ Hin)].
    + intros r. rewrite Hd, Ha. cbn [runs]. intros [Hin | Hin]%elem_of_app Hst.
      * rewrite lookup_insert_ne; [now apply Hterm |].
        eapply Forall_forall in Hids; [| exact Hin]. cbv beta in Hids. lia.
      * apply list_elem_of_singleton in Hin as ->. now cbn in Hst.
    + rewrite Hd, Hn. cbn [runs]. apply Forall_app. split.
      * eapply Forall_impl; [exact Hids |]. cbv beta. intros; lia.
      * constructor; [cbn; lia | constructor].
  - destruct (background_registry runId steps s) as (Hn & Ha & status & now & c & t & Hst & Hr).
    set (s' := snd (background RegExp_new completion clock wsServer runId steps s)) in *.
    assert (Hin : forall r', r' ∈ runs (data s') ->
                    r' ∈ runs (data s)
                    \/ exists r, r ∈ runs (data s) /\ run_id r = runId
                                 /\ r' = terminal status now c t r).
    { intros r'. rewrite Hr. now apply updateRun_runs. }
    split_and!.
    + intros id entry. rewrite Ha. intros [_ Hl]%lookup_delete_Some. exact (Hrun _ _ Hl).
    + intros r' Hr' Hst'. rewrite Ha.
      destruct (Hin r' Hr') as [Hold | (r & Hold & Hid & ->)].
      * apply lookup_delete_None. right. now apply Hterm.
      * cbn [run_id terminal]. rewrite Hid. apply lookup_delete_eq.
    + apply Forall_forall. intros r' Hr'. rewrite Hn.
      destruct (Hin r' Hr') as [Hold | (r & Hold & Hid & ->)].
      * eapply Forall_forall in Hids; [exact Hids | exact Hold].
      * cbn [run_id terminal]. eapply Forall_forall in Hids; [exact Hids | exact Hold].
Qed.

End RegistryFacts.

(** ** The properties of a run *)

Section RunProperties.

Import Db Executor Spec.

Variable RegExp_new : string -> string -> Completion (string -> bool).
Variable completion : nat -> string -> string -> Completion ProviderResult.
Variable clock : nat -> Instant.
Variable wsServer : option (nat -> list Client).

(** C5: a run started by [execute] ends completed or failed; it is completed
    exactly when every one of its step executions is passed, and failed
    exactly when one step execution is failed and every later one is still
    pending. *)
Theorem C5_run_status (workflowId : Id) (s0 : State) (runId : Id) (o : option Outcome)
    (s' : State) :
  fresh_ids s0 -> distinct_steps s0 ->
  execute RegExp_new completion clock wsServer workflowId s0 = ((Return runId, o), s') ->
  exists r,
    getRun runId (data s') = Some r
    /\ (run_status r = RunCompleted \/ run_status r = RunFailed)
    /\ (run_status r = RunCompleted
        <-> Forall (fun st => st = Passed) (statusesOf runId (data s')))
    /\ (run_status r = RunFailed <-> one_failed_then_pending (statusesOf runId (data s'))).
Proof.
  intros Hfresh Hdistinct Hexec.
  destruct (execute_trace RegExp_new completion clock wsServer workflowId s0 runId o s'
              Hfresh Hdistinct Hexec) as (_ & _ & _ & _ & r & Hr & Htrace).
  exists r. split; [exact Hr |]. split; [eapply Trace_terminal; exact Htrace |].
  unfold statusesOf. eapply Trace_status_iff. exact Htrace.
Qed.

(** C6: after a run, the attempt count recorded for a step that was executed
    and whose retry limit is positive is at least 1 and at most the limit. *)
Theorem C6_attempts_within_limit (workflowId : Id) (s0 : State) (runId : Id)
    (o : option Outcome) (s' : State) (i : nat) (se : StepExecution) (step : Step) :
  fresh_ids s0 -> distinct_steps s0 ->
  execute RegExp_new completion clock wsServer workflowId s0 = ((Return runId, o), s') ->
  stepExecutionsOf runId (data s') !! i = Some se ->
  getWorkflowSteps workflowId (data s0) !! i = Some step ->
  se_status se <> Pending ->
  0 < retry_limit step ->
  1 <= attempts se <= retry_limit step.
Proof.
  intros Hfresh Hdistinct Hexec Hse Hstep Hnp Hpos.
  destruct (execute_trace RegExp_new completion clock wsServer workflowId s0 runId o s'
              Hfresh Hdistinct Hexec) as (_ & _ & _ & _ & r & _ & Htrace).
  eapply Trace_attempts; eauto.
Qed.

(** C7: the first step of a run is entered with the empty context, and a
    step that is entered after another is entered with the context extracted,
    in the context mode of that step, from the output of its passing
    attempt. *)
Theorem C7_context_passing (workflowId : Id) (s0 : State) (runId : Id) (o : option Outcome)
    (s' : State) :
  fresh_ids s0 -> distinct_steps s0 ->
  execute RegExp_new completion clock wsServer workflowId s0 = ((Return runId, o), s') ->
  (exists se,
      stepExecutionsOf runId (data s') !! 0%nat = Some se
      /\ input_context se = Some EmptyString)
  /\ (forall i se se',
         stepExecutionsOf runId (data s') !! i = Some se ->
         stepExecutionsOf runId (data s') !! S i = Some se' ->
         se_status se' <> Pending ->
         exists step cin out,
           getWorkflowSteps workflowId (data s0) !! i = Some step
           /\ input_context se = Some cin
           /\ se_status se = Passed
           /\ output se = Some out
           /\ PassingOutput RegExp_new completion step cin out
           /\ input_context se' = Some (Criteria.extractContext out (context_mode step))).
Proof.
  intros Hfresh Hdistinct Hexec.
  destruct (execute_trace RegExp_new completion clock wsServer workflowId s0 runId o s'
              Hfresh Hdistinct Hexec) as (_ & _ & Hne & _ & r & _ & Htrace).
  split.
  - pose proof (Trace_length _ _ _ _ _ _ Htrace) as Hlen.
    destruct (stepExecutionsOf runId (data s')) as [|se ses] eqn:E.
    + destruct (getWorkflowSteps workflowId (data s0)); [congruence | discriminate].
    + exists se. split; [reflexivity |]. eapply Trace_first; [exact Htrace | reflexivity].
  - intros i se se'. eapply Trace_context. exact Htrace.
Qed.

(** C9: for a workflow that does not exist, and for one without steps,
    [execute] throws and leaves the state as it was: no run, no step
    execution is created, and no background sequence is started. *)
Theorem C9_execute_rejects (workflowId : Id) (s : State) :
  (getWorkflow workflowId (data s) = None ->
   execute RegExp_new completion clock wsServer workflowId s
   = ((Throw "Workflow not found", None), s))
  /\ (getWorkflow workflowId (data s) <> None ->
      getWorkflowSteps workflowId (data s) = [] ->
      execute RegExp_new completion clock wsServer workflowId s
      = ((Throw "Workflow has no steps", None), s)).
Proof.
  pose proof (start_spec clock workflowId s) as Hstart. unfold execute, bind.
  split.
  - intros Hnone. rewrite Hnone in Hstart. now rewrite Hstart.
  - intros Hsome Hsteps. destruct (getWorkflow workflowId (data s)); [| congruence].
    rewrite Hsteps in Hstart. now rewrite Hstart.
Qed.

(** C10: in every state of an engine, every entry of the table of the active
    runs has the status running, and [getRunStatus] gives nothing for a run
    whose record in the database has a final status. *)
Theorem C10_active_runs (s : State) :
  Reachable RegExp_new completion clock wsServer s ->
  (forall runId entry, getRunStatus runId s = Some entry -> ar_status entry = RunRunning)
  /\ (forall r, r ∈ runs (data s) ->
                run_status r = RunCompleted \/ run_status r = RunFailed ->
                getRunStatus (run_id r) s = None).
Proof.
  intros H. apply Reachable_invariant in H as (Hrun & Hterm & _). split.
  - exact Hrun.
  - intros r Hr Hst. apply Hterm; [exact Hr |]. destruct Hst as [-> | ->]; discriminate.
Qed.

End RunProperties.



(** ** The properties, on the sample database *)

Section SampleFacts.

Import Db Executor Spec.

Lemma sample_fresh_ids : fresh_ids Sample.state.
Proof.
  split; repeat (apply Forall_cons; split); try apply Forall_nil; cbn; lia.
Qed.

Lemma sample_distinct_steps : distinct_steps Sample.state.
Proof.
  unfold distinct_steps. refine (bool_decide_unpack _ _). vm_compute. exact I.
Qed.

Lemma sample_run_1 :
  execute Sample.RegExp_none Sample.provider Sample.clock Sample.server 1 Sample.state
  = ((Return 100%nat, Some Finished), snd (Sample.run 1)).
Proof. vm_compute. reflexivity. Qed.

Lemma sample_run_3 :
  execute Sample.RegExp_none Sample.provider Sample.clock Sample.server 3 Sample.state
  = ((Return 100%nat, Some Finished), snd (Sample.run 3)).
Proof. vm_compute. reflexivity. Qed.

End SampleFacts.

Lemma C5_run_status_witness :
  exists r,
    Db.getRun 100 (Executor.data (snd (Sample.run 1))) = Some r
    /\ (Db.run_status r = Db.RunCompleted \/ Db.run_status r = Db.RunFailed)
    /\ (Db.run_status r = Db.RunCompleted
        <-> Forall (fun st => st = Db.Passed)
              (Spec.statusesOf 100 (Executor.data (snd (Sample.run 1)))))
    /\ (Db.run_status r = Db.RunFailed
        <-> Spec.one_failed_then_pending
              (Spec.statusesOf 100 (Executor.data (snd (Sample.run 1))))).
Proof.
  apply (C5_run_status Sample.RegExp_none Sample.provider Sample.clock Sample.server 1%nat Sample.state
           100%nat (Some Executor.Finished) (snd (Sample.run 1))).
  - exact sample_fresh_ids.
  - exact sample_distinct_steps.
  - exact sample_run_1.
Defined.

Lemma C6_attempts_within_limit_witness :
  exists se,
    Db.stepExecutionsOf 100 (Executor.data (snd (Sample.run 1))) !! 1%nat = Some se
    /\ Db.se_status se = Db.Failed
    /\ 1 <= Db.attempts se <= Db.retry_limit Sample.step_two.
Proof.
  eexists. split; [vm_compute; reflexivity |]. split; [reflexivity |].
  eapply (C6_attempts_within_limit Sample.RegExp_none Sample.provider Sample.clock Sample.server 1%nat
            Sample.state 100%nat (Some Executor.Finished) (snd (Sample.run 1)) 1%nat).
  - exact sample_fresh_ids.
  - exact sample_distinct_steps.
  - exact sample_run_1.
  - vm_compute. reflexivity.
  - vm_compute. reflexivity.
  - discriminate.
  - reflexivity.
Defined.

Lemma C7_context_passing_witness :
  (exists se,
      Db.stepExecutionsOf 100 (Executor.data (snd (Sample.run 1))) !! 0%nat = Some se
      /\ Db.input_context se = Some EmptyString)
  /\ (forall i se se',
         Db.stepExecutionsOf 100 (Executor.data (snd (Sample.run 1))) !! i = Some se ->
         Db.stepExecutionsOf 100 (Executor.data (snd (Sample.run 1))) !! S i = Some se' ->
         Db.se_status se' <> Db.Pending ->
         exists step cin out,
           Db.getWorkflowSteps 1 (Executor.data Sample.state) !! i = Some step
           /\ Db.input_context se = Some cin
           /\ Db.se_status se = Db.Passed
           /\ Db.output se = Some out
           /\ Spec.PassingOutput Sample.RegExp_none Sample.provider step cin out
           /\ Db.input_context se'
              = Some (Criteria.extractContext out (Db.context_mode step))).
Proof.
  apply (C7_context_passing Sample.RegExp_none Sample.provider Sample.clock Sample.server 1%nat
           Sample.state 100%nat (Some Executor.Finished) (snd (Sample.run 1))).
  - exact sample_fresh_ids.
  - exact sample_distinct_steps.
  - exact sample_run_1.
Defined.

Lemma C9_execute_rejects_witness :
  Sample.run 99 = ((Throw "Workflow not found", None), Sample.state)
  /\ Sample.run 2 = ((Throw "Workflow has no steps", None), Sample.state).
Proof.
  split.
  - apply (proj1 (C9_execute_rejects Sample.RegExp_none Sample.provider Sample.clock Sample.server
                    99%nat Sample.state)).
    reflexivity.
  - apply (proj2 (C9_execute_rejects Sample.RegExp_none Sample.provider Sample.clock Sample.server
                    2%nat Sample.state)).
    + discriminate.
    + reflexivity.
Defined.

Lemma C10_active_runs_witness :
  let started := snd (Executor.start Sample.clock 1 Sample.state) in
  let ended :=
    snd (Executor.background Sample.RegExp_none Sample.provider Sample.clock Sample.server 100
           (Db.getWorkflowSteps 1 Sample.db) started) in
  (forall runId entry,
      Executor.getRunStatus runId ended = Some entry ->
      Executor.ar_status entry = Db.RunRunning)
  /\ (forall r, r ∈ Db.runs (Executor.data ended) ->
                Db.run_status r = Db.RunCompleted \/ Db.run_status r = Db.RunFailed ->
                Executor.getRunStatus (Db.run_id r) ended = None).
Proof.
  intros started ended.
  apply (C10_active_runs Sample.RegExp_none Sample.provider Sample.clock Sample.server ended).
  apply Spec.Reachable_background. apply Spec.Reachable_start. apply Spec.Reachable_new.
  - reflexivity.
  - repeat (apply Forall_cons; split); try apply Forall_nil; cbn; lia.
Defined.

(** The run of workflow 1 fails at its second step and is then unknown to
    [getRunStatus], its record staying in the database; between [execute]
    and the end of the background sequence it is in the table as running.
    The run of workflow 3 completes after one attempt. *)
Example sample_failed_run :
  Spec.statusesOf 100 (Executor.data (snd (Sample.run 1))) = [Db.Passed; Db.Failed]
  /\ Db.run_status <$> Db.getRun 100 (Executor.data (snd (Sample.run 1))) = Some Db.RunFailed
  /\ Executor.getRunStatus 100 (snd (Sample.run 1)) = None
  /\ Executor.getRunStatus 100 (snd (Executor.start Sample.clock 1 Sample.state))
     = Some (Executor.mkActiveRun 1 Db.RunRunning)
  /\ Db.attempts <$> Db.stepExecutionsOf 100 (Executor.data (snd (Sample.run 1))) = [1; 2]
  /\ Db.input_context <$> Db.stepExecutionsOf 100 (Executor.data (snd (Sample.run 1)))
     = [Some EmptyString; Some "answer 0"].
Proof. vm_compute. repeat split. Qed.

Example sample_completed_run :
  Spec.statusesOf 100 (Executor.data (snd (Sample.run 3))) = [Db.Passed]
  /\ Db.run_status <$> Db.getRun 100 (Executor.data (snd (Sample.run 3)))
     = Some Db.RunCompleted
  /\ Db.attempts <$> Db.stepExecutionsOf 100 (Executor.data (snd (Sample.run 3))) = [1]
  /\ Executor.getRunStatus 100 (snd (Sample.run 3)) = None.
Proof. vm_compute. repeat split. Qed.



(** ** More on the criteria *)

Section CriteriaMore.

(** [includes] is the test for a substring. *)
Lemma includes_iff (s sub : string) :
  JS.includes s sub = true <-> exists a b, s = a +:+ sub +:+ b.
Proof.
  split.
  - intros H. destruct (Prompt.find_first sub s) as [[pre rest]|] eqn:F.
    + apply find_first_split in F as [Hs _]. now exists pre, rest.
    + apply find_first_none in F. congruence.
  - intros (a & b & ->). induction a as [|c a IH].
    + rewrite append_nil_l. apply includes_startsWith, startsWith_append.
    + rewrite append_cons. cbn [JS.includes].
      destruct (JS.startsWith _ sub); [reflexivity | exact IH].
Qed.

Lemma lower_upper (c : ascii) :
  (JS.code c < 128)%nat -> JS.lowerChar (JS.upperChar c) = JS.lowerChar c.
Proof.
  destruct c as [[] [] [] [] [] [] [] []]; intros H; try reflexivity;
    vm_compute in H; lia.
Qed.

Lemma toLowerCase_toUpperCase (s : string) :
  ascii_only s -> JS.toLowerCase (JS.toUpperCase s) = JS.toLowerCase s.
Proof.
  unfold ascii_only, JS.toLowerCase.
  induction s as [|c s IH]; cbn [String.list_ascii_of_string]; intros H; [reflexivity |].
  apply Forall_cons in H as [Hc Hs]. cbn [JS.toUpperCase].
  destruct (JS.code c =? 223)%nat eqn:E; [apply Nat.eqb_eq in E; lia |].
  cbn [JS.mapChars]. now rewrite lower_upper, IH.
Qed.

Lemma truthy_toLowerCase (s : string) : JS.truthy (JS.toLowerCase s) = JS.truthy s.
Proof. destruct s; reflexivity. Qed.

Lemma truthy_toUpperCase (s : string) : JS.truthy (JS.toUpperCase s) = JS.truthy s.
Proof.
  destruct s as [|c s]; [reflexivity |]. cbn [JS.toUpperCase].
  destruct (JS.code c =? 223)%nat; reflexivity.
Qed.


Lemma lower_lower (c : ascii) : JS.lowerChar (JS.lowerChar c) = JS.lowerChar c.
Proof. destruct c as [[] [] [] [] [] [] [] []]; reflexivity. Qed.

Lemma toLowerCase_idempotent (s : string) :
  JS.toLowerCase (JS.toLowerCase s) = JS.toLowerCase s.
Proof.
  unfold JS.toLowerCase.
  induction s as [|c s IH]; cbn [JS.mapChars]; [reflexivity |].
  now rewrite lower_lower, IH.
Qed.

Lemma contains_passed (output value : string) :
  Criteria.passed (Criteria.evaluateContains output value)
  = if JS.truthy value then JS.includes (JS.toLowerCase output) (JS.toLowerCase value)
    else true.
Proof. unfold Criteria.evaluateContains. destruct (JS.truthy value); reflexivity. Qed.

Lemma notContains_passed (output value : string) :
  Criteria.passed (Criteria.evaluateNotContains output value)
  = if JS.truthy value
    then negb (JS.includes (JS.toLowerCase output) (JS.toLowerCase value))
    else true.
Proof. unfold Criteria.evaluateNotContains. destruct (JS.truthy value); reflexivity. Qed.




(** X2: on ASCII strings the verdicts of [contains] and [not_contains] do
    not depend on the case of the letters of the output and of the value. *)
Theorem contains_ignores_case (output value : string) :
  ascii_only output -> ascii_only value ->
  Criteria.passed (Criteria.evaluateContains (JS.toUpperCase output) (JS.toLowerCase value))
  = Criteria.passed (Criteria.evaluateContains output value)
  /\ Criteria.passed
       (Criteria.evaluateNotContains (JS.toLowerCase output) (JS.toUpperCase value))
     = Criteria.passed (Criteria.evaluateNotContains output value).
Proof.
  intros Ho Hv. rewrite !contains_passed, !notContains_passed.
  rewrite truthy_toLowerCase, truthy_toUpperCase.
  rewrite !toLowerCase_toUpperCase, !toLowerCase_idempotent by assumption.
  split; reflexivity.
Qed.

(** X3: [evaluateCriteria] throws only for the kind [code], and then exactly
    when the output has a fenced block, the value names a language and the
    regular expression built from it is rejected; the message is that of
    the regular-expression engine. *)
Theorem evaluateCriteria_throws_only_for_code
    (RegExp_new : string -> string -> Completion (string -> bool))
    (output kind value : string) (judge : option Criteria.LlmCall) (message : string) :
  Criteria.evaluateCriteria RegExp_new output kind value judge = Throw message
  <-> kind = "code"
      /\ JS.match_all JS.block_at output 0 <> []
      /\ JS.truthy value = true
      /\ RegExp_new (JS.fence +:+ value) "i" = Throw message.
Proof.
  unfold Criteria.evaluateCriteria.
  destruct (JS.truthy output) eqn:Ho; cbn [negb].
  2:{ split; [discriminate |]. intros (_ & Hb & _). destruct output; [| discriminate].
      now contradict Hb. }
  destruct (String.eqb kind "code") eqn:Ek.
  - apply String.eqb_eq in Ek as ->. cbn [String.eqb Ascii.eqb Bool.eqb andb].
    unfold Criteria.evaluateCode.
    destruct (JS.match_all JS.block_at output 0) as [|b bs].
    + split; [discriminate | tauto].
    + destruct (JS.truthy value).
      * destruct (RegExp_new (JS.fence +:+ value) "i") as [t | m].
        -- split; [discriminate |]. intros (_ & _ & _ & H). discriminate.
        -- split.
           ++ intros [= ->]. split_and!; [reflexivity | discriminate | reflexivity | reflexivity].
           ++ intros (_ & _ & _ & [= ->]). reflexivity.
      * split; [discriminate |]. intros (_ & _ & H & _). discriminate.
  - apply String.eqb_neq in Ek.
    split; [| tauto].
    repeat match goal with
           | |- (if ?c then _ else _) = Throw _ -> _ => destruct c; [discriminate |]
           end.
    discriminate.
Qed.

End CriteriaMore.


(** ** More on the criteria of length and on the extraction of the context *)

Section ExtractMore.

(** X4: [length_min] passes exactly when the output is at least as long as
    the parsed value, a value that does not parse counting as 0; so a value
    that does not parse, or is negative, lets every output pass. *)
Theorem length_min_passes_iff (output minLength : string) :
  Criteria.passed (Criteria.evaluateLengthMin output minLength) = true
  <-> default 0 (JS.parseInt minLength) <= JS.len output.
Proof.
  unfold Criteria.evaluateLengthMin, JS.parseIntOr. cbn [Criteria.passed].
  destruct (JS.parseInt minLength) as [n|]; cbn [default].
  - destruct (n =? 0) eqn:E; cbn [JS.geNum].
    + apply Z.eqb_eq in E as ->. apply Z.leb_le.
    + apply Z.leb_le.
  - cbn [JS.geNum]. apply Z.leb_le.
Qed.

Lemma string_take_length (n : nat) (s : string) :
  String.length (JS.take n s) = Nat.min n (String.length s).
Proof.
  revert s. induction n as [|n IH]; intros [|c s]; cbn [JS.take String.length Nat.min];
    [reflexivity | reflexivity | reflexivity |]. now rewrite IH.
Qed.

(** X5: the [summary] of an output is the output itself when it has at most
    500 code units, and otherwise its first 500 code units followed by three
    dots; it never has more than 503 code units. *)
Theorem summary_is_bounded (output : string) :
  JS.len (Criteria.extractContext output "summary") <= 503
  /\ (JS.len output <= 500 -> Criteria.extractContext output "summary" = output)
  /\ (500 < JS.len output ->
      Criteria.extractContext output "summary" = JS.take 500 output +:+ "..."
      /\ JS.len (Criteria.extractContext output "summary") = 503).
Proof.
  unfold Criteria.extractContext. destruct output as [|c out].
  { cbn. change (JS.len EmptyString) with 0. split_and!; [lia | reflexivity | lia]. }
  cbn [JS.truthy negb String.eqb Ascii.eqb Bool.eqb andb].
  set (o := String c out). unfold JS.len.
  destruct (Z.of_nat (String.length o) <=? 500) eqn:E.
  - apply Z.leb_le in E. split_and!; [lia | reflexivity | lia].
  - apply Z.leb_gt in E.
    assert (Hlen : String.length (JS.take 500 o +:+ "...") = 503%nat).
    { rewrite length_append, string_take_length. cbn [String.length]. lia. }
    split_and!; [lia | lia | intros _; split; [reflexivity | lia]].
Qed.

Lemma trim_empty : JS.trim EmptyString = EmptyString.
Proof. reflexivity. Qed.

Lemma paragraphs_truthy (output p : string) :
  p ∈ Criteria.paragraphs output -> JS.truthy p = true.
Proof.
  unfold Criteria.paragraphs. intros [Hp _]%list_elem_of_filter.
  destruct p; [discriminate Hp | reflexivity].
Qed.

(** X6: in every mode but [code_only], the context extracted from an output
    that is not empty is not empty. *)
Theorem extractContext_keeps_nonempty (output mode : string) :
  JS.truthy output = true -> mode <> "code_only" ->
  JS.truthy (Criteria.extractContext output mode) = true.
Proof.
  intros Ho Hm. unfold Criteria.extractContext. rewrite Ho. cbn [negb].
  destruct (String.eqb mode "full"); [exact Ho |].
  destruct (String.eqb mode "code_only") eqn:E; [apply String.eqb_eq in E; congruence |].
  destruct (String.eqb mode "last_paragraph").
  { destruct (last (Criteria.paragraphs output)) as [p|] eqn:L; cbn [default]; [| exact Ho].
    eapply paragraphs_truthy. apply last_Some_elem_of. exact L. }
  destruct (String.eqb mode "first_paragraph").
  { destruct (head (Criteria.paragraphs output)) as [p|] eqn:L; cbn [default]; [| exact Ho].
    eapply paragraphs_truthy. apply head_Some_elem_of. exact L. }
  destruct (String.eqb mode "summary"); [| exact Ho].
  destruct (JS.len output <=? 500) eqn:E5; [exact Ho |].
  destruct output as [|c out]; [discriminate |]. reflexivity.
Qed.

End ExtractMore.


Section FallbackMore.

Lemma isLF_eq (c : ascii) : JS.isLF c = true -> c = ascii_of_nat 10.
Proof.
  unfold JS.isLF, JS.code. intros H%Nat.eqb_eq.
  rewrite <- (ascii_nat_embedding c). now rewrite H.
Qed.

Lemma includes_cons_false (c : ascii) (r sub : string) :
  JS.includes (String c r) sub = false ->
  JS.startsWith (String c r) sub = false /\ JS.includes r sub = false.
Proof.
  cbn [JS.includes]. destruct (JS.startsWith (String c r) sub); [discriminate | auto].
Qed.

(** Without two line feeds in a row there is one piece. *)
Lemma split_paragraphs_single (s cur : string) :
  JS.includes s (JS.LF +:+ JS.LF) = false ->
  JS.split_paragraphs cur s false = [cur +:+ s].
Proof.
  revert cur. induction s as [|c r IH]; intros cur H; cbn [JS.split_paragraphs].
  - now rewrite append_empty_r.
  - apply includes_cons_false in H as [Hstart Hrest].
    assert (Hgo : JS.split_paragraphs (cur +:+ String c EmptyString) r false
                  = [cur +:+ String c r]).
    { rewrite IH by exact Hrest. now rewrite append_assoc. }
    destruct (JS.isLF c) eqn:Ec; [| exact Hgo].
    destruct r as [|c' r']; [exact Hgo |].
    destruct (JS.isLF c') eqn:Ec'; [| exact Hgo].
    apply isLF_eq in Ec as ->. apply isLF_eq in Ec' as ->.
    destruct r'; vm_compute in Hstart; discriminate Hstart.
Qed.

(** X7: an output without a blank line (two line feeds in a row) is its own
    first and last paragraph. *)
Theorem paragraph_of_single_block (output : string) :
  JS.includes output (JS.LF +:+ JS.LF) = false ->
  Criteria.extractContext output "first_paragraph" = output
  /\ Criteria.extractContext output "last_paragraph" = output.
Proof.
  intros H. unfold Criteria.extractContext, Criteria.paragraphs.
  destruct (JS.truthy output) eqn:Ho; cbn [negb]; [| destruct output; [auto | discriminate]].
  cbn [String.eqb Ascii.eqb Bool.eqb andb].
  rewrite split_paragraphs_single by exact H. rewrite append_nil_l.
  rewrite filter_cons, filter_nil. destruct (decide _); auto.
Qed.

Lemma match_all_no_fence (s : string) :
  JS.includes s JS.fence = false -> JS.match_all JS.block_at s 0 = [].
Proof.
  induction s as [|c r IH]; intros H; cbn [JS.match_all]; [reflexivity |].
  apply includes_cons_false in H as [Hstart Hrest].
  unfold JS.block_at at 1. rewrite Hstart. now apply IH.
Qed.

(** X8: in the mode [code_only] an output without a fence is passed on as
    it is. *)
Theorem code_only_without_fence (output : string) :
  JS.includes output JS.fence = false ->
  Criteria.extractContext output "code_only" = output.
Proof.
  intros H. unfold Criteria.extractContext.
  destruct (JS.truthy output) eqn:Ho; cbn [negb]; [| destruct output; [auto | discriminate]].
  cbn [String.eqb Ascii.eqb Bool.eqb andb]. now rewrite match_all_no_fence.
Qed.

(** X9: a context that replaced the placeholder is not passed to the
    provider a second time: the provider receives the rendered prompt alone.
    A context that is in neither the template nor a placeholder is put in
    front of the prompt. *)
Theorem provider_receives_context_once (prompt previousContext : string) :
  JS.truthy previousContext = true ->
  (JS.includes prompt Prompt.placeholder = true ->
   Prompt.has_dollar_pattern previousContext = false ->
   let rendered := Prompt.renderPrompt prompt previousContext in
   Prompt.contextToPass rendered previousContext = EmptyString
   /\ Executor.fullPrompt rendered (Prompt.contextToPass rendered previousContext) = rendered)
  /\ (JS.includes prompt Prompt.placeholder = false ->
      JS.includes prompt previousContext = false ->
      let rendered := Prompt.renderPrompt prompt previousContext in
      Executor.fullPrompt rendered (Prompt.contextToPass rendered previousContext)
      = "Context from previous step:" +:+ JS.LF +:+ previousContext +:+ JS.LF +:+ JS.LF
          +:+ "---" +:+ JS.LF +:+ JS.LF +:+ prompt).
Proof.
  intros Hctx. split.
  - intros Hinc Hplain rendered.
    assert (Hin : JS.includes rendered previousContext = true).
    { subst rendered. unfold Prompt.renderPrompt. rewrite Hctx, Hinc. cbn [andb].
      unfold JS.replace_global, Prompt.placeholder.
      rewrite (replace_scan_spec _ _ _ Hplain (String.length prompt)) by lia.
      fold Prompt.placeholder.
      destruct (Prompt.find_first Prompt.placeholder prompt) as [[pre rest]|] eqn:F.
      - destruct prompt as [|c p]; [discriminate Hinc |].
        cbn [String.length Prompt.substitute_every_occurrence]. rewrite F.
        apply includes_iff. eauto.
      - apply find_first_none in F. congruence. }
    unfold Prompt.contextToPass. rewrite Hin. split; reflexivity.
  - intros Hinc Hnot rendered. subst rendered. unfold Prompt.renderPrompt.
    rewrite Hinc, andb_false_r. unfold Prompt.contextToPass. rewrite Hnot.
    unfold Executor.fullPrompt. now rewrite Hctx.
Qed.

End FallbackMore.


(** ** More on the attempts of a step *)

Section AttemptsMore.

Import Db Executor Spec Ledger.

Variable RegExp_new : string -> string -> Completion (string -> bool).
Variable completion : nat -> string -> string -> Completion ProviderResult.
Variable clock : nat -> Instant.
Variable wsServer : option (nat -> list Client).


(** What one attempt computes, and how many requests it makes. *)
Lemma attempt_result (runId : Id) (step : Step) (ctx : string) (a : Attempts) (s : State) :
  let n := provider_calls s in
  let r := attempt RegExp_new completion clock wsServer runId step ctx a s in
  match completion n (model step) (requestOf step ctx) with
  | Throw message =>
      fst r = mkAttempts (a_passed a) (lastOutput a) message (a_attempts a + 1) (stepCost a)
                (stepTokens a)
      /\ provider_calls (snd r) = S n
  | Return result =>
      let cost' := (stepCost a + cost result)%float in
      let tokens' := stepTokens a + tk_total (tokens result) in
      provider_calls (snd r)
      = (if String.eqb (criteria_type step) "llm" && JS.truthy (content result)
         then S (S n) else S n)
      /\ match Criteria.evaluateCriteria RegExp_new (content result) (criteria_type step)
                 (criteria_value step) (judgeOf completion step (S n)) with
         | Throw message =>
             fst r = mkAttempts (a_passed a) (content result) message (a_attempts a + 1) cost'
                       tokens'
         | Return evaluation =>
             fst r = if Criteria.passed evaluation
                     then mkAttempts true (content result) (lastError a) (a_attempts a + 1)
                            cost' tokens'
                     else mkAttempts (a_passed a) (content result)
                            (Criteria.reason evaluation) (a_attempts a + 1) cost' tokens'
         end
  end.
Proof.
  unfold requestOf, judgeOf, attempt, broadcast, unbound_call, evaluate.
  unfold bind, Date_now, ret.
  destruct wsServer;
    cbn [fst snd data activeRuns sent next_uuid provider_calls clock_reads];
    (destruct (completion (provider_calls s) _ _) as [result | message];
     [| split; reflexivity]);
    cbn [fst snd data activeRuns sent next_uuid provider_calls clock_reads];
    (destruct (Criteria.evaluateCriteria _ _ _ _ _) as [evaluation | message];
     [destruct (Criteria.passed evaluation) |]);
    (split; [destruct (String.eqb (criteria_type step) "llm" && JS.truthy (content result));
             reflexivity | reflexivity]).
Qed.


Lemma attempt_counts (runId : Id) (step : Step) (ctx : string) (a : Attempts) (s : State) :
  let r := attempt RegExp_new completion clock wsServer runId step ctx a s in
  a_attempts (fst r) = a_attempts a + 1
  /\ (S (provider_calls s) <= provider_calls (snd r) <= S (S (provider_calls s)))%nat
  /\ (criteria_type step <> "llm" -> provider_calls (snd r) = S (provider_calls s)).
Proof.
  pose proof (attempt_result runId step ctx a s) as H. cbv zeta in *.
  destruct (completion (provider_calls s) (model step) (requestOf step ctx))
    as [result | message].
  - destruct H as [Hn H]. rewrite Hn.
    assert (Ha : a_attempts
                   (fst (attempt RegExp_new completion clock wsServer runId step ctx a s))
                 = a_attempts a + 1).
    { destruct (Criteria.evaluateCriteria _ _ _ _ _) as [evaluation | message];
        [destruct (Criteria.passed evaluation) |]; now rewrite H. }
    split; [exact Ha |].
    destruct (String.eqb (criteria_type step) "llm") eqn:E; cbn [andb].
    + apply String.eqb_eq in E. destruct (JS.truthy (content result)); split; (lia || congruence).
    + split; [lia | reflexivity].
  - destruct H as [H Hn]. rewrite H, Hn. cbn [a_attempts]. split_and!; (lia || reflexivity).
Qed.

(** The requests of the loop of the attempts, counted. *)
Lemma attemptLoop_requests (runId : Id) (step : Step) (ctx : string) (fuel : nat) :
  forall (a : Attempts) (s : State) (a' : Attempts) (s' : State),
    attemptLoop RegExp_new completion clock wsServer fuel runId step ctx a s = (Some a', s') ->
    a_attempts a' - a_attempts a <= Z.of_nat (provider_calls s') - Z.of_nat (provider_calls s)
    /\ Z.of_nat (provider_calls s') - Z.of_nat (provider_calls s)
       <= 2 * (a_attempts a' - a_attempts a)
    /\ (criteria_type step <> "llm" ->
        Z.of_nat (provider_calls s') - Z.of_nat (provider_calls s)
        = a_attempts a' - a_attempts a).
Proof.
  induction fuel as [|fuel IH]; intros a s a' s' E; cbn [attemptLoop] in E.
  - destruct (negb (a_passed a) && (a_attempts a <? retry_limit step));
      [discriminate | injection E as <- <-; split_and!; intros; lia].
  - destruct (negb (a_passed a) && (a_attempts a <? retry_limit step));
      [| injection E as <- <-; split_and!; intros; lia].
    unfold bind in E.
    pose proof (attempt_counts runId step ctx a s) as (H1 & H2 & H3).
    destruct (attempt RegExp_new completion clock wsServer runId step ctx a s) as [a1 s1].
    cbn [fst snd] in H1, H2, H3.
    destruct (IH _ _ _ _ E) as (I1 & I2 & I3).
    split_and!; [lia | lia |]. intros Hk. specialize (H3 Hk). specialize (I3 Hk). lia.
Qed.

(** X10: for one step the engine makes at most [retry_limit] requests to the
    provider for answers, one per attempt, and with the criterion [llm] at
    most one more per attempt for the judge. *)
Theorem requests_per_step_bounded (runId : Id) (step : Step) (ctx : string) (s : State) :
  0 <= retry_limit step ->
  exists a s',
    attemptLoop RegExp_new completion clock wsServer (loopFuel step) runId step ctx
      (mkAttempts false EmptyString EmptyString 0 0%float 0) s = (Some a, s')
    /\ a_attempts a <= retry_limit step
    /\ a_attempts a <= Z.of_nat (provider_calls s') - Z.of_nat (provider_calls s)
       <= 2 * a_attempts a
    /\ (criteria_type step <> "llm" ->
        Z.of_nat (provider_calls s') = Z.of_nat (provider_calls s) + a_attempts a).
Proof.
  intros Hpos.
  destruct (attemptLoop_spec RegExp_new completion clock wsServer runId step ctx
              (loopFuel step) (mkAttempts false EmptyString EmptyString 0 0%float 0) s)
    as (a & s' & E & _ & _ & _ & Hmax & _).
  { unfold loopFuel. cbn [a_attempts]. lia. }
  cbn [a_attempts] in Hmax.
  destruct (attemptLoop_requests _ _ _ _ _ _ _ _ E) as (R1 & R2 & R3). cbn [a_attempts] in *.
  exists a, s'. split_and!; [exact E | lia | lia | lia |]. intros Hk. specialize (R3 Hk). lia.
Qed.

(** X11: when the first answer of the provider is accepted by the criterion
    of the step, the loop ends after this one attempt, with the answer as
    the output of the step. *)
Theorem first_accepted_answer_ends_attempts (runId : Id) (step : Step) (ctx : string)
    (s : State) (result : ProviderResult) (evaluation : Criteria.Verdict) :
  0 < retry_limit step ->
  completion (provider_calls s) (model step) (requestOf step ctx) = Return result ->
  Criteria.evaluateCriteria RegExp_new (content result) (criteria_type step)
    (criteria_value step) (judgeOf completion step (S (provider_calls s))) = Return evaluation ->
  Criteria.passed evaluation = true ->
  exists a s',
    attemptLoop RegExp_new completion clock wsServer (loopFuel step) runId step ctx
      (mkAttempts false EmptyString EmptyString 0 0%float 0) s = (Some a, s')
    /\ a_passed a = true
    /\ a_attempts a = 1
    /\ lastOutput a = content result
    /\ stepTokens a = tk_total (tokens result).
Proof.
  intros Hpos Hcall Heval Hpass. unfold loopFuel.
  destruct (Z.to_nat (retry_limit step)) as [|fuel] eqn:Hfuel; [lia |].
  cbn [attemptLoop a_passed a_attempts negb andb].
  destruct (0 <? retry_limit step) eqn:Hlt; [| apply Z.ltb_ge in Hlt; lia].
  unfold bind.
  pose proof (attempt_result runId step ctx
                (mkAttempts false EmptyString EmptyString 0 0%float 0) s) as H.
  cbv zeta in H. rewrite Hcall in H. destruct H as [_ H]. rewrite Heval, Hpass in H.
  destruct (attempt RegExp_new completion clock wsServer runId step ctx _ s) as [a1 s1].
  cbn [fst] in H. subst a1.
  exists (mkAttempts true (content result) EmptyString (0 + 1) (0 + cost result)%float
            (0 + tk_total (tokens result))), s1.
  split; [| cbn; split_and!; reflexivity || lia].
  destruct fuel; reflexivity.
Qed.

(** X12: when the provider never gives an output (each request throws or is
    answered with an empty text), the step does not pass, whatever its
    criterion: the loop makes exactly [retry_limit] attempts and as many
    requests, and leaves the output empty. *)
Theorem unanswered_step_uses_all_attempts (runId : Id) (step : Step) (ctx : string)
    (s : State) :
  (forall n full,
      match completion n (model step) full with
      | Return result => content result = EmptyString
      | Throw _ => True
      end) ->
  exists a s',
    attemptLoop RegExp_new completion clock wsServer (loopFuel step) runId step ctx
      (mkAttempts false EmptyString EmptyString 0 0%float 0) s = (Some a, s')
    /\ a_passed a = false
    /\ a_attempts a = Z.max 0 (retry_limit step)
    /\ lastOutput a = EmptyString
    /\ provider_calls s' = (provider_calls s + Z.to_nat (retry_limit step))%nat.
Proof.
  intros Hnever. unfold loopFuel.
  assert (Hgen : forall fuel a s0,
             a_passed a = false -> lastOutput a = EmptyString ->
             (Z.to_nat (retry_limit step - a_attempts a) <= fuel)%nat ->
             exists a' s',
               attemptLoop RegExp_new completion clock wsServer fuel runId step ctx a s0
               = (Some a', s')
               /\ a_passed a' = false
               /\ a_attempts a' = Z.max (a_attempts a) (retry_limit step)
               /\ lastOutput a' = EmptyString
               /\ provider_calls s'
                  = (provider_calls s0 + Z.to_nat (retry_limit step - a_attempts a))%nat).
  { induction fuel as [|fuel IH]; intros a s0 Hp Ho Hfuel; cbn [attemptLoop];
      rewrite Hp; cbn [negb andb];
      destruct (a_attempts a <? retry_limit step) eqn:Hlt;
      try (apply Z.ltb_ge in Hlt; exists a, s0; cbn [ret]; split_and!; auto; lia);
      apply Z.ltb_lt in Hlt; [lia |].
    unfold bind.
    pose proof (attempt_result runId step ctx a s0) as H. cbv zeta in H.
    specialize (Hnever (provider_calls s0) (requestOf step ctx)).
    destruct (completion (provider_calls s0) (model step) (requestOf step ctx))
      as [result | message].
    - rewrite Hnever in H. destruct H as [Hn H].
      rewrite andb_false_r in Hn. cbn in H.
      destruct (attempt RegExp_new completion clock wsServer runId step ctx a s0) as [a1 s1].
      cbn [fst snd] in H, Hn. subst a1.
      match goal with |- context [attemptLoop _ _ _ _ fuel _ _ _ ?a1 s1] =>
        destruct (IH a1 s1) as (a' & s' & E & ? & ? & ? & ?);
          [exact Hp | reflexivity | cbn [a_attempts]; lia |] end.
      cbn [a_attempts] in *. exists a', s'. split_and!; auto; lia.
    - destruct H as [H Hn].
      destruct (attempt RegExp_new completion clock wsServer runId step ctx a s0) as [a1 s1].
      cbn [fst snd] in H, Hn. subst a1.
      match goal with |- context [attemptLoop _ _ _ _ fuel _ _ _ ?a1 s1] =>
        destruct (IH a1 s1) as (a' & s' & E & ? & ? & ? & ?);
          [exact Hp | exact Ho | cbn [a_attempts]; lia |] end.
      cbn [a_attempts] in *. exists a', s'. split_and!; auto; lia. }
  destruct (Hgen (Z.to_nat (retry_limit step))
              (mkAttempts false EmptyString EmptyString 0 0%float 0) s)
    as (a' & s' & E & ? & ? & ? & ?); [reflexivity | reflexivity | cbn [a_attempts]; lia |].
  cbn [a_attempts] in *. exists a', s'. split_and!; auto.
  rewrite H2. f_equal. f_equal. lia.
Qed.

End AttemptsMore.


(** ** More on the records a run leaves *)
Section LedgerFacts.

Import Db Executor Spec Ledger.

Variable RegExp_new : string -> string -> Completion (string -> bool).
Variable completion : nat -> string -> string -> Completion ProviderResult.
Variable clock : nat -> Instant.
Variable wsServer : option (nat -> list Client).

Lemma pendingRecords_untouched (base : nat) (runId : Id) (steps : list Step) :
  Forall2 (untouched runId) (pendingRecords base runId steps) steps.
Proof.
  revert base. induction steps as [|step rest IH]; intros base; cbn [pendingRecords];
    constructor; [now unfold untouched | apply IH].
Qed.

Lemma sumTokens_untouched (runId : Id) (todo : list StepExecution) (rest : list Step) :
  Forall2 (untouched runId) todo rest ->
  forall start, sumTokens start todo = start.
Proof.
  unfold sumTokens. induction 1 as [|se step todo rest Hu _ IH]; intros start; cbn [foldl];
    [reflexivity |].
  destruct Hu as (_ & _ & _ & _ & _ & _ & _ & Ht). rewrite Ht, Z.add_0_r. apply IH.
Qed.

Lemma executed_untouched (runId : Id) (todo : list StepExecution) (rest : list Step) :
  Forall2 (untouched runId) todo rest -> executed todo = [].
Proof.
  unfold executed. induction 1 as [|se step todo rest Hu _ IH]; cbn [List.filter];
    [reflexivity |].
  destruct Hu as (_ & _ & Hs & _). rewrite Hs. cbn. exact IH.
Qed.

(** The records and the totals of a run whose records are in place, as in
    [executeStepsFrom_trace]. *)
Lemma executeStepsFrom_ledger (runId : Id) (rest : list Step) :
  forall (i : nat) (ctx : string) (totalCost : float) (totalTokens : Z) (s : State)
         (pre todo : list StepExecution),
    step_executions (data s) = pre ++ todo ->
    Forall2 (untouched runId) todo rest ->
    NoDup (map step_id rest) ->
    NoDup (map se_id todo) ->
    Forall (fun y => forall t, t ∈ todo -> se_id y <> se_id t) pre ->
    Forall (fun y => forall step, step ∈ rest ->
                       ~ (se_run_id y = runId /\ se_step_id y = step_id step)) pre ->
    exists s' ses status now,
      executeStepsFrom RegExp_new completion clock wsServer runId rest i ctx totalCost
        totalTokens s = (Finished, s')
      /\ step_executions (data s') = pre ++ ses
      /\ Forall2 Recorded ses rest
      /\ runs (data s')
         = runs (updateRun runId
                   (terminal status now (sumCosts totalCost (executed ses))
                      (sumTokens totalTokens ses))
                   (data s)).
Proof.
  induction rest as [|step rest IH];
    intros i ctx totalCost totalTokens s pre todo Hd Htodo Hsteps Hids Hpre_id Hpre_key.
  - apply Forall2_nil_inv_r in Htodo as ->.
    cbn [executeStepsFrom]. unfold bind.
    destruct (completeRun_spec clock wsServer runId totalCost totalTokens s)
      as (s' & now & E & Hdata & Hact & Hid).
    rewrite E. cbn [ret].
    destruct (updateRun_others runId (terminal RunCompleted now totalCost totalTokens) (data s))
      as (Hw & Hst & Hse).
    exists s', [], RunCompleted, now.
    split_and!; [reflexivity | | constructor |]; rewrite Hdata; [congruence | reflexivity].
  - apply Forall2_cons_inv_r in Htodo as (se0 & todo' & Hu0 & Htodo & ->).
    pose proof Hu0 as (Hrun0 & Hstep0 & Hst0 & _).
    change (map step_id (step :: rest)) with (step_id step :: map step_id rest) in Hsteps.
    change (map se_id (se0 :: todo')) with (se_id se0 :: map se_id todo') in Hids.
    apply NoDup_cons in Hsteps as [Hstep_new Hsteps].
    apply NoDup_cons in Hids as [Hid_new Hids].
    assert (Hpre_ne : Forall (fun y => se_id y <> se_id se0) pre).
    { eapply Forall_impl; [exact Hpre_id |]. intros y Hy. apply Hy. left. }
    cbn [executeStepsFrom]. unfold bind at 1. cbn [get_data].
    rewrite (getStepExecution_middle runId (step_id step) (data s) pre se0 todo' Hd);
      [| | exact Hrun0 | exact Hstep0].
    2:{ eapply Forall_impl; [exact Hpre_key |]. intros y Hy.
        specialize (Hy step (list_elem_of_here _ _)).
        destruct (Nat.eqb_spec (se_run_id y) runId), (Nat.eqb_spec (se_step_id y) (step_id step));
          cbn; auto. exfalso. auto. }
    unfold bind at 1. unfold Date_now at 1.
    unfold bind at 1. unfold db_updateStepExecution at 1, bind at 1, get_data, set_data.
    cbn [data activeRuns sent next_uuid provider_calls clock_reads].
    match goal with |- context [updateStepExecution (se_id se0) ?f (data s)] =>
      set (f1 := f);
      rewrite (updateStepExecution_middle (se_id se0) f1 (data s) pre se0 todo' Hd Hpre_ne
                 eq_refl)
    end.
    unfold bind at 1.
    match goal with |- context [broadcast clock wsServer runId ?e ?s0] =>
      pose proof (broadcast_store clock wsServer runId e s0) as (B1 & B2 & B3);
      destruct (broadcast clock wsServer runId e s0) as [[] s2] end.
    cbn [snd data activeRuns next_uuid] in B1, B2, B3.
    unfold bind at 1.
    destruct (attemptLoop_spec RegExp_new completion clock wsServer runId step ctx
                (loopFuel step) (mkAttempts false EmptyString EmptyString 0 0%float 0) s2)
      as (a & s3 & E & (L1 & L2 & L3) & Hexit & Hle & Hmax & Hfirst & Hpass).
    { unfold loopFuel. cbn [a_attempts]. lia. }
    rewrite E. cbn [a_attempts a_passed] in Hexit, Hle, Hmax, Hfirst, Hpass.
    unfold bind at 1. unfold Date_now at 1.
    unfold bind at 1. unfold db_updateStepExecution at 1, bind at 1, get_data, set_data.
    cbn [data activeRuns sent next_uuid provider_calls clock_reads].
    assert (Hd3 : step_executions (data s3) = pre ++ f1 se0 :: todo').
    { rewrite L1, B1. reflexivity. }
    match goal with |- context [updateStepExecution (se_id se0) ?f (data s3)] =>
      set (f2 := f);
      rewrite (updateStepExecution_middle (se_id se0) f2 (data s3) pre (f1 se0) todo' Hd3
                 Hpre_ne eq_refl)
    end.
    set (se' := f2 (f1 se0)).
    destruct (a_passed a) eqn:Hp.
    + unfold bind at 1.
      match goal with |- context [broadcast clock wsServer runId ?e ?s0] =>
        pose proof (broadcast_store clock wsServer runId e s0) as (C1 & C2 & C3);
        destruct (broadcast clock wsServer runId e s0) as [[] s4] end.
      cbn [snd data activeRuns next_uuid] in C1, C2, C3.
      destruct (IH (S i) (Criteria.extractContext (lastOutput a) (context_mode step))
                  (totalCost + stepCost a)%float (totalTokens + stepTokens a) s4
                  (pre ++ [se']) todo')
        as (s' & ses & status & now & E' & Hses & Hrec & Hruns).
      * rewrite C1. cbn [step_executions]. now rewrite <- app_assoc.
      * exact Htodo.
      * exact Hsteps.
      * exact Hids.
      * apply Forall_app. split.
        -- eapply Forall_impl; [exact Hpre_id |]. intros y Hy t0 Ht. apply Hy. now right.
        -- constructor; [| constructor]. intros t0 Ht Heq. apply Hid_new.
           subst se' f2 f1. cbn [se_id] in Heq. rewrite Heq.
           apply list_elem_of_fmap. now exists t0.
      * apply Forall_app. split.
        -- eapply Forall_impl; [exact Hpre_key |]. intros y Hy st0 Hst0'. apply Hy. now right.
        -- constructor; [| constructor]. intros st0 Hin [_ Heq]. apply Hstep_new.
           subst se' f2 f1. cbn [se_step_id] in Heq. rewrite <- Hstep0, Heq.
           apply list_elem_of_fmap. now exists st0.
      * exists s', (se' :: ses), status, now.
        split_and!.
        -- exact E'.
        -- rewrite Hses. now rewrite <- app_assoc.
        -- constructor; [| exact Hrec]. unfold Recorded. subst se' f2 f1.
           cbn [se_status error attempts]. split; [reflexivity | lia].
        -- rewrite Hruns.
           replace (sumCosts totalCost (executed (se' :: ses)))
             with (sumCosts (totalCost + stepCost a)%float (executed ses)) by reflexivity.
           replace (sumTokens totalTokens (se' :: ses))
             with (sumTokens (totalTokens + stepTokens a) ses) by reflexivity.
           apply updateRun_same_runs. rewrite C1. cbn [runs]. now rewrite L1, B1.
    + unfold bind at 1.
      match goal with |- context [broadcast clock wsServer runId ?e ?s0] =>
        pose proof (broadcast_store clock wsServer runId e s0) as (C1 & C2 & C3);
        destruct (broadcast clock wsServer runId e s0) as [[] s4] end.
      cbn [snd data activeRuns next_uuid] in C1, C2, C3.
      unfold bind at 1.
      destruct (failRun_spec clock wsServer runId (stepFailedMessage step (lastError a))
                  (totalCost + stepCost a)%float (totalTokens + stepTokens a) s4)
        as (s' & now & E' & Hdata & Hact & Hid).
      rewrite E'. cbn [ret].
      destruct (updateRun_others runId
                  (terminal RunFailed now (totalCost + stepCost a)%float
                     (totalTokens + stepTokens a)) (data s4)) as (Hw & Hst & Hse).
      exists s', (se' :: todo'), RunFailed, now.
      split_and!.
      * reflexivity.
      * rewrite Hdata, Hse, C1. reflexivity.
      * constructor.
        -- unfold Recorded. subst se' f2 f1. cbn [se_status error attempts].
           split; [eexists; reflexivity |]. destruct Hexit as [? | Hexit]; [discriminate | lia].
        -- eapply Forall2_impl; [exact Htodo |]. intros se step' Hu. unfold Recorded.
           destruct Hu as (_ & _ & -> & ? & ? & ? & ? & ?). now split_and!.
      * rewrite Hdata.
        replace (sumCosts totalCost (executed (se' :: todo')))
          with (totalCost + stepCost a)%float.
        2:{ unfold executed. cbn [List.filter]. subst se' f2 f1. cbn [se_status].
            change (negb (bool_decide (Failed = Pending))) with true. cbn iota.
            fold (executed todo'). rewrite (executed_untouched runId todo' rest Htodo).
            reflexivity. }
        replace (sumTokens totalTokens (se' :: todo'))
          with (totalTokens + stepTokens a).
        2:{ change (sumTokens totalTokens (se' :: todo'))
              with (sumTokens (totalTokens + stepTokens a) todo').
            symmetry. eapply sumTokens_untouched. exact Htodo. }
        apply updateRun_same_runs. rewrite C1. cbn [runs]. now rewrite L1, B1.
Qed.

End LedgerFacts.


Section LedgerOfRun.

Import Db Executor Spec Ledger.

Variable RegExp_new : string -> string -> Completion (string -> bool).
Variable completion : nat -> string -> string -> Completion ProviderResult.
Variable clock : nat -> Instant.
Variable wsServer : option (nat -> list Client).

Lemma execute_ledger (workflowId : Id) (s0 : State) (runId : Id) (o : option Outcome)
    (s' : State) :
  fresh_ids s0 -> distinct_steps s0 ->
  execute RegExp_new completion clock wsServer workflowId s0 = ((Return runId, o), s') ->
  Forall2 Recorded (stepExecutionsOf runId (data s')) (getWorkflowSteps workflowId (data s0))
  /\ exists r,
      getRun runId (data s') = Some r
      /\ total_tokens r = sumTokens 0 (stepExecutionsOf runId (data s'))
      /\ total_cost r = sumCosts 0%float (executed (stepExecutionsOf runId (data s'))).
Proof.
  intros [Hruns Hses] Hdistinct Hexec.
  unfold execute, bind in Hexec.
  pose proof (start_spec clock workflowId s0) as Hstart.
  destruct (getWorkflow workflowId (data s0)) as [workflow|].
  2:{ rewrite Hstart in Hexec. discriminate. }
  pose proof (getWorkflowSteps_distinct workflowId (data s0) Hdistinct) as Hnd.
  destruct (getWorkflowSteps workflowId (data s0)) as [|step0 steps0] eqn:Hsteps.
  { rewrite Hstart in Hexec. discriminate. }
  destruct Hstart as (s1 & now & E1 & Hd1 & Ha1 & Hn1).
  rewrite E1 in Hexec. unfold background, bind, executeSteps in Hexec.
  destruct (executeStepsFrom_ledger RegExp_new completion clock wsServer (next_uuid s0)
              (step0 :: steps0) 0%nat EmptyString 0%float 0 s1
              (step_executions (data s0))
              (pendingRecords (S (next_uuid s0)) (next_uuid s0) (step0 :: steps0)))
    as (s2 & ses & status & now' & E2 & Hses2 & Hrec & Hruns2).
  - rewrite Hd1. reflexivity.
  - apply pendingRecords_untouched.
  - exact Hnd.
  - apply pendingRecords_ids.
  - eapply Forall_impl; [exact Hses |]. intros y [Hy _] t0 Ht.
    destruct (pendingRecords_ids (S (next_uuid s0)) (next_uuid s0) (step0 :: steps0))
      as [Hge _].
    eapply Forall_forall in Hge; [| exact Ht]. cbv beta in Hge. lia.
  - eapply Forall_impl; [exact Hses |]. intros y [_ Hy] st0 _ [Heq _]. rewrite Heq in Hy. lia.
  - rewrite E2 in Hexec. cbn [ret] in Hexec. injection Hexec as <- <- <-.
    assert (Hof : stepExecutionsOf (next_uuid s0) (data s2) = ses).
    { unfold stepExecutionsOf. rewrite Hses2.
      rewrite List.filter_app, filter_none, filter_all; [reflexivity | |].
      - destruct (executeStepsFrom_trace RegExp_new completion clock wsServer (next_uuid s0)
                    (step0 :: steps0) 0%nat EmptyString 0%float 0 s1
                    (step_executions (data s0))
                    (pendingRecords (S (next_uuid s0)) (next_uuid s0) (step0 :: steps0)))
          as (s2' & ses' & ? & ? & ? & ? & E2' & Hses2' & Hrun2 & _).
        + rewrite Hd1. reflexivity.
        + apply pendingRecords_steps.
        + exact Hnd.
        + apply pendingRecords_ids.
        + eapply Forall_impl; [exact Hses |]. intros y [Hy _] t0 Ht.
          destruct (pendingRecords_ids (S (next_uuid s0)) (next_uuid s0) (step0 :: steps0))
            as [Hge _].
          eapply Forall_forall in Hge; [| exact Ht]. cbv beta in Hge. lia.
        + eapply Forall_impl; [exact Hses |]. intros y [_ Hy] st0 _ [Heq _].
          rewrite Heq in Hy. lia.
        + rewrite E2 in E2'. injection E2' as <-. rewrite Hses2 in Hses2'.
          apply app_inv_head in Hses2' as <-.
          eapply Forall_impl; [exact Hrun2 |]. intros se Hse. cbn. now apply Nat.eqb_eq.
      - eapply Forall_impl; [exact Hses |]. intros se [_ Hse]. cbv beta.
        apply Nat.eqb_neq. lia. }
    rewrite Hof. split; [exact Hrec |].
    exists (terminal status now' (sumCosts 0%float (executed ses)) (sumTokens 0 ses)
              (mkRun (next_uuid s0) workflowId RunRunning now None 0%float 0)).
    split; [| split; reflexivity].
    unfold getRun. rewrite Hruns2.
    match goal with |- find _ (runs (updateRun ?id ?f ?d)) = _ =>
      change (find (fun r => Nat.eqb (run_id r) id) (runs (updateRun id f d)))
        with (getRun id (updateRun id f d)) end.
    rewrite getRun_updateRun by reflexivity.
    unfold getRun, find. rewrite Hd1. cbn [runs].
    rewrite find_middle; [reflexivity | | cbn; apply Nat.eqb_refl].
    eapply Forall_impl; [exact Hruns |]. intros r Hr. cbv beta in *. apply Nat.eqb_neq. lia.
Qed.

(** X13: when a run has ended, the tokens of the run are the sum of the
    tokens of its step executions, and its cost is the costs of the step
    executions that were executed, added up in the order of the steps. *)
Theorem run_totals_are_sums (workflowId : Id) (s0 : State) (runId : Id)
    (o : option Outcome) (s' : State) :
  fresh_ids s0 -> distinct_steps s0 ->
  execute RegExp_new completion clock wsServer workflowId s0 = ((Return runId, o), s') ->
  exists r,
    getRun runId (data s') = Some r
    /\ total_tokens r = sumTokens 0 (stepExecutionsOf runId (data s'))
    /\ total_cost r = sumCosts 0%float (executed (stepExecutionsOf runId (data s'))).
Proof. intros H1 H2 H3. exact (proj2 (execute_ledger _ _ _ _ _ H1 H2 H3)). Qed.

(** X14: when a run has ended, no step execution of the run is left running;
    a passed one has no error; a failed one has an error and, for a retry
    limit that is not negative, exactly as many attempts as the limit; a
    pending one was never touched. *)
Theorem run_records_are_settled (workflowId : Id) (s0 : State) (runId : Id)
    (o : option Outcome) (s' : State) :
  fresh_ids s0 -> distinct_steps s0 ->
  execute RegExp_new completion clock wsServer workflowId s0 = ((Return runId, o), s') ->
  Forall2 Recorded (stepExecutionsOf runId (data s')) (getWorkflowSteps workflowId (data s0)).
Proof. intros H1 H2 H3. exact (proj1 (execute_ledger _ _ _ _ _ H1 H2 H3)). Qed.

Lemma PassingOutput_nonempty (step : Step) (ctx out : string) :
  PassingOutput RegExp_new completion step ctx out -> JS.truthy out = true.
Proof.
  intros (n & result & judge & verdict & _ & _ & Hev & Hp).
  destruct out; [| reflexivity]. cbn in Hev. injection Hev as <-. discriminate Hp.
Qed.

Lemma Trace_passed_output (ctx : string) steps ses status :
  Trace RegExp_new completion ctx steps ses status ->
  forall se, se ∈ ses -> se_status se = Passed ->
             exists out, output se = Some out /\ JS.truthy out = true.
Proof.
  induction 1 as [| ctx step rest se ses status out Hid Hst Hin Hout Hpo Hb Htr IH
                  | ctx step rest se ses Hid Hst Hin Hb Hpend]; intros se0 Hse0 Hp.
  - now apply elem_of_nil in Hse0.
  - apply elem_of_cons in Hse0 as [-> | Hse0]; [| now apply IH].
    exists out. split; [exact Hout | eapply PassingOutput_nonempty; exact Hpo].
  - apply elem_of_cons in Hse0 as [-> | Hse0]; [congruence |].
    apply list_elem_of_lookup in Hse0 as [j Hj].
    eapply Forall2_lookup_l in Hpend as (? & _ & _ & Hpe); eauto. congruence.
Qed.

(** X15: a step execution that passed has an output that is not empty: an
    empty answer is never accepted, whatever the criterion. *)
Theorem passed_step_has_output (workflowId : Id) (s0 : State) (runId : Id)
    (o : option Outcome) (s' : State) (se : StepExecution) :
  fresh_ids s0 -> distinct_steps s0 ->
  execute RegExp_new completion clock wsServer workflowId s0 = ((Return runId, o), s') ->
  se ∈ stepExecutionsOf runId (data s') ->
  se_status se = Passed ->
  exists out, output se = Some out /\ JS.truthy out = true.
Proof.
  intros H1 H2 H3 Hse Hp.
  destruct (execute_trace RegExp_new completion clock wsServer workflowId s0 runId o s'
              H1 H2 H3) as (_ & _ & _ & _ & r & _ & Htrace).
  eapply Trace_passed_output; eauto.
Qed.

End LedgerOfRun.


(** ** The messages of a run *)

Section EventFacts.

Import Db Executor Spec Ledger.

Variable RegExp_new : string -> string -> Completion (string -> bool).
Variable completion : nat -> string -> string -> Completion ProviderResult.
Variable clock : nat -> Instant.
Variable wsServer : option (nat -> list Client).

Lemma appends_refl (runId : Id) (s s' : State) : sent s' = sent s -> appends wsServer runId s s'.
Proof. intros H. exists []. rewrite app_nil_r. auto. Qed.

Lemma appends_trans (runId : Id) (s1 s2 s3 : State) :
  appends wsServer runId s1 s2 -> appends wsServer runId s2 s3 -> appends wsServer runId s1 s3.
Proof.
  intros (m1 & E1 & F1 & N1) (m2 & E2 & F2 & N2). exists (m1 ++ m2).
  split_and!.
  - now rewrite E2, E1, app_assoc.
  - now apply Forall_app.
  - intros H. now rewrite N1, N2.
Qed.

Lemma broadcast_appends (runId : Id) (event : Event) (s : State) :
  appends wsServer runId s (snd (broadcast clock wsServer runId event s)).
Proof.
  unfold appends, broadcast, bind, Date_now, ret.
  destruct wsServer as [clients|]; cbn [snd sent].
  - rewrite sendAll_open. eexists. split_and!; [reflexivity | | discriminate].
    apply Forall_forall. intros d Hd. apply list_elem_of_fmap in Hd as (client & -> & Hc).
    apply list_elem_of_In, List.filter_In in Hc as [Hc Hopen]. split; [reflexivity |].
    exists clients, (S (clock_reads s)), client.
    split_and!; try reflexivity; [now apply list_elem_of_In | now apply Z.eqb_eq].
  - exists []. now rewrite app_nil_r.
Qed.

Lemma attempt_appends (runId : Id) (step : Step) (ctx : string) (a : Attempts) (s : State) :
  appends wsServer runId s
    (snd (attempt RegExp_new completion clock wsServer runId step ctx a s)).
Proof.
  unfold attempt, bind.
  pose proof (broadcast_appends runId
                (step_attempt (step_id step) (a_attempts a + 1) (retry_limit step)) s) as H1.
  destruct (broadcast clock wsServer runId _ s) as [u1 s1]. cbn [snd] in H1.
  assert (H2 : sent (snd (unbound_call completion (Prompt.renderPrompt (prompt step) ctx)
                            (model step)
                            (Prompt.contextToPass (Prompt.renderPrompt (prompt step) ctx) ctx)
                            s1)) = sent s1) by reflexivity.
  destruct (unbound_call completion _ _ _ s1) as [called s2]. cbn [snd] in H2.
  apply (appends_trans _ _ _ _ H1). apply (appends_trans _ _ s2); [now apply appends_refl |].
  destruct called as [result | message].
  - pose proof (broadcast_appends runId
                  (step_response (step_id step) (content result) (tokens result) (cost result))
                  s2) as H3.
    destruct (broadcast clock wsServer runId _ s2) as [u3 s3]. cbn [snd] in H3.
    apply (appends_trans _ _ _ _ H3).
    assert (H4 : sent (snd (evaluate RegExp_new completion (content result) step s3))
                 = sent s3).
    { unfold evaluate. cbn [snd].
      destruct (String.eqb (criteria_type step) "llm" && JS.truthy (content result));
        reflexivity. }
    destruct (evaluate RegExp_new completion (content result) step s3) as [evaluated s4].
    cbn [snd] in H4. apply (appends_trans _ _ s4); [now apply appends_refl |].
    destruct evaluated as [evaluation | message].
    + pose proof (broadcast_appends runId
                    (step_evaluated (step_id step) (Criteria.passed evaluation)
                       (Criteria.reason evaluation)) s4) as H5.
      destruct (broadcast clock wsServer runId _ s4) as [u5 s5]. cbn [snd] in H5.
      destruct (Criteria.passed evaluation); exact H5.
    + pose proof (broadcast_appends runId (step_error (step_id step) message) s4) as H5.
      destruct (broadcast clock wsServer runId _ s4) as [u5 s5]. exact H5.
  - pose proof (broadcast_appends runId (step_error (step_id step) message) s2) as H3.
    destruct (broadcast clock wsServer runId _ s2) as [u3 s3]. exact H3.
Qed.

Lemma attemptLoop_appends (runId : Id) (step : Step) (ctx : string) (fuel : nat) :
  forall (a : Attempts) (s : State),
    appends wsServer runId s
      (snd (attemptLoop RegExp_new completion clock wsServer fuel runId step ctx a s)).
Proof.
  induction fuel as [|fuel IH]; intros a s; cbn [attemptLoop];
    destruct (negb (a_passed a) && (a_attempts a <? retry_limit step));
    try (now apply appends_refl).
  unfold bind.
  pose proof (attempt_appends runId step ctx a s) as H.
  destruct (attempt RegExp_new completion clock wsServer runId step ctx a s) as [a1 s1].
  cbn [snd] in H. eapply appends_trans; [exact H | apply IH].
Qed.

Lemma completeRun_closes (runId : Id) (c : float) (t : Z) (s : State) :
  closes wsServer runId s (snd (completeRun clock wsServer runId c t s)).
Proof.
  unfold closes, completeRun, broadcast, db_updateRun, activeRuns_delete.
  unfold bind, Date_now, get_data, set_data, ret.
  exists RunCompleted, (clock (clock_reads s)), c, t, [].
  destruct wsServer as [clients|]; cbn [snd data sent clock_reads];
    (split_and!; [discriminate | reflexivity | constructor |]); [| reflexivity].
  eexists. split; [| rewrite sendAll_open; reflexivity].
  eexists. split; reflexivity.
Qed.

Lemma failRun_closes (runId : Id) (error : string) (c : float) (t : Z) (s : State) :
  closes wsServer runId s (snd (failRun clock wsServer runId error c t s)).
Proof.
  unfold closes, failRun, broadcast, db_updateRun, activeRuns_delete.
  unfold bind, Date_now, get_data, set_data, ret.
  exists RunFailed, (clock (clock_reads s)), c, t, [].
  destruct wsServer as [clients|]; cbn [snd data sent clock_reads];
    (split_and!; [discriminate | reflexivity | constructor |]); [| reflexivity].
  eexists. split; [| rewrite sendAll_open; reflexivity].
  eexists. split; reflexivity.
Qed.

(** Messages of the run sent before do not change how it is closed. *)
Lemma appends_closes (runId : Id) (s1 s2 s3 : State) :
  appends wsServer runId s1 s2 -> runs (data s2) = runs (data s1) ->
  closes wsServer runId s2 s3 -> closes wsServer runId s1 s3.
Proof.
  intros (m1 & E1 & F1 & N1) Hruns (status & now & c & t & msgs & Hst & Hr & F & Hsent).
  exists status, now, c, t, (m1 ++ msgs). split_and!.
  - exact Hst.
  - rewrite Hr. now apply updateRun_same_runs.
  - now apply Forall_app.
  - destruct wsServer as [clients|].
    + destruct Hsent as (final & Hf & Hs). exists final. split; [exact Hf |].
      now rewrite Hs, E1, <- !app_assoc.
    + rewrite Hsent, E1, N1 by reflexivity. apply app_nil_r.
Qed.


Lemma executeStepsFrom_events (runId : Id) (rest : list Step) :
  forall (i : nat) (ctx : string) (totalCost : float) (totalTokens : Z) (s : State),
    exists o s',
      executeStepsFrom RegExp_new completion clock wsServer runId rest i ctx totalCost
        totalTokens s = (o, s')
      /\ ((o = Finished /\ closes wsServer runId s s')
          \/ (exists message,
                 o = Thrown message /\ appends wsServer runId s s'
                 /\ runs (data s') = runs (data s))).
Proof.
  induction rest as [|step rest IH]; intros i ctx totalCost totalTokens s.
  - cbn [executeStepsFrom]. unfold bind.
    pose proof (completeRun_closes runId totalCost totalTokens s) as H.
    destruct (completeRun clock wsServer runId totalCost totalTokens s) as [[] s'].
    exists Finished, s'. split; [reflexivity |]. left. split; [reflexivity | exact H].
  - cbn [executeStepsFrom]. unfold bind at 1. cbn [get_data].
    destruct (getStepExecution runId (step_id step) (data s)) as [stepExec|].
    2:{ eexists _, s. split; [reflexivity |]. right. eexists.
        split_and!; [reflexivity | | reflexivity]. now apply appends_refl. }
    unfold bind at 1. unfold Date_now at 1.
    unfold bind at 1. unfold db_updateStepExecution at 1, bind at 1, get_data, set_data.
    cbn [data activeRuns sent next_uuid provider_calls clock_reads].
    unfold bind at 1.
    match goal with |- context [broadcast clock wsServer runId ?e ?s0] =>
      pose proof (broadcast_store clock wsServer runId e s0) as (B1 & _);
      pose proof (broadcast_appends runId e s0) as B2;
      destruct (broadcast clock wsServer runId e s0) as [[] s2] end.
    cbn [snd data sent] in B1, B2.
    unfold bind at 1.
    pose proof (attemptLoop_appends runId step ctx (loopFuel step)
                  (mkAttempts false EmptyString EmptyString 0 0%float 0) s2) as L2.
    destruct (attemptLoop_spec RegExp_new completion clock wsServer runId step ctx
                (loopFuel step) (mkAttempts false EmptyString EmptyString 0 0%float 0) s2)
      as (a & s3 & E & (L1 & _) & _).
    { unfold loopFuel. cbn [a_attempts]. lia. }
    rewrite E in L2 |- *. cbn [snd] in L2.
    unfold bind at 1. unfold Date_now at 1.
    unfold bind at 1. unfold db_updateStepExecution at 1, bind at 1, get_data, set_data.
    cbn [data activeRuns sent next_uuid provider_calls clock_reads].
    assert (Hruns3 : runs (data s3) = runs (data s)).
    { rewrite L1, B1. apply updateStepExecution_runs. }
    assert (Happ3 : appends wsServer runId s s3).
    { eapply appends_trans; [| exact L2]. destruct B2 as (m & Em & Fm & Nm).
      exists m. auto. }
    destruct (a_passed a).
    + unfold bind at 1.
      match goal with |- context [broadcast clock wsServer runId ?e ?s0] =>
        pose proof (broadcast_store clock wsServer runId e s0) as (C1 & _);
        pose proof (broadcast_appends runId e s0) as C2;
        destruct (broadcast clock wsServer runId e s0) as [[] s4] end.
      cbn [snd data sent] in C1, C2.
      assert (Hruns4 : runs (data s4) = runs (data s)).
      { rewrite C1, updateStepExecution_runs. exact Hruns3. }
      assert (Happ4 : appends wsServer runId s s4).
      { eapply appends_trans; [exact Happ3 |]. destruct C2 as (m & Em & Fm & Nm).
        exists m. auto. }
      destruct (IH (S i) (Criteria.extractContext (lastOutput a) (context_mode step))
                  (totalCost + stepCost a)%float (totalTokens + stepTokens a) s4)
        as (o & s' & E' & [[-> Hc] | (message & -> & Ha & Hr)]).
      * exists Finished, s'. split; [exact E' |]. left. split; [reflexivity |].
        eapply appends_closes; eauto.
      * exists (Thrown message), s'. split; [exact E' |]. right. exists message.
        split_and!; [reflexivity | | congruence]. eapply appends_trans; eauto.
    + unfold bind at 1.
      match goal with |- context [broadcast clock wsServer runId ?e ?s0] =>
        pose proof (broadcast_store clock wsServer runId e s0) as (C1 & _);
        pose proof (broadcast_appends runId e s0) as C2;
        destruct (broadcast clock wsServer runId e s0) as [[] s4] end.
      cbn [snd data sent] in C1, C2.
      assert (Hruns4 : runs (data s4) = runs (data s)).
      { rewrite C1, updateStepExecution_runs. exact Hruns3. }
      assert (Happ4 : appends wsServer runId s s4).
      { eapply appends_trans; [exact Happ3 |]. destruct C2 as (m & Em & Fm & Nm).
        exists m. auto. }
      unfold bind at 1.
      pose proof (failRun_closes runId (stepFailedMessage step (lastError a))
                    (totalCost + stepCost a)%float (totalTokens + stepTokens a) s4) as Hc.
      destruct (failRun clock wsServer runId _ _ _ s4) as [[] s'].
      cbn [ret snd] in Hc |- *. exists Finished, s'. split; [reflexivity |].
      left. split; [reflexivity |]. eapply appends_closes; eauto.
Qed.

(** X16: a background sequence gives its run a final status; every message
    it sends carries the identifier of the run and goes to a client of the
    WebSocket server whose [readyState] is 1; the last one is
    [run_completed], with the status and the totals that are written to the
    run, and it goes to each client that is open then, once, and to no
    other; without a WebSocket server no message is sent. *)
Theorem background_messages (runId : Id) (steps : list Step) (s : State) :
  closes wsServer runId s
    (snd (background RegExp_new completion clock wsServer runId steps s)).
Proof.
  unfold background, bind, executeSteps.
  destruct (executeStepsFrom_events runId steps 0%nat EmptyString 0%float 0 s)
    as (o & s1 & E & [[-> Hc] | (message & -> & Ha & Hr)]); rewrite E.
  - exact Hc.
  - pose proof (failRun_closes runId message 0%float 0 s1) as Hc.
    unfold bind. destruct (failRun clock wsServer runId message _ _ s1) as [[] s'].
    cbn [ret snd] in Hc |- *. eapply appends_closes; eauto.
Qed.

End EventFacts.


(** ** The properties above on the samples *)

Lemma contains_ignores_case_witness :
  Criteria.passed (Criteria.evaluateContains (JS.toUpperCase "Hello World") (JS.toLowerCase "WORLD"))
  = Criteria.passed (Criteria.evaluateContains "Hello World" "WORLD")
  /\ Criteria.passed
       (Criteria.evaluateNotContains (JS.toLowerCase "Hello World") (JS.toUpperCase "WORLD"))
     = Criteria.passed (Criteria.evaluateNotContains "Hello World" "WORLD").
Proof.
  apply (contains_ignores_case "Hello World" "WORLD");
    refine (bool_decide_unpack _ _); vm_compute; exact I.
Defined.

Lemma extractContext_keeps_nonempty_witness :
  JS.truthy (Criteria.extractContext "hello" "summary") = true.
Proof.
  apply (extractContext_keeps_nonempty "hello" "summary"); [reflexivity | discriminate].
Defined.

Lemma paragraph_of_single_block_witness :
  Criteria.extractContext "one line" "first_paragraph" = "one line"
  /\ Criteria.extractContext "one line" "last_paragraph" = "one line".
Proof. apply (paragraph_of_single_block "one line"). reflexivity. Defined.

Lemma code_only_without_fence_witness :
  Criteria.extractContext "plain text" "code_only" = "plain text".
Proof. apply (code_only_without_fence "plain text"). reflexivity. Defined.

Lemma provider_receives_context_once_witness :
  Executor.fullPrompt (Prompt.renderPrompt "Use {context} now" "data")
    (Prompt.contextToPass (Prompt.renderPrompt "Use {context} now" "data") "data")
  = Prompt.renderPrompt "Use {context} now" "data".
Proof.
  apply (provider_receives_context_once "Use {context} now" "data"); reflexivity.
Defined.

Lemma requests_per_step_bounded_witness :
  exists a s',
    Executor.attemptLoop Sample.RegExp_none Sample.provider Sample.clock Sample.server
      (Executor.loopFuel Sample.step_one) 100 Sample.step_one EmptyString
      (Executor.mkAttempts false EmptyString EmptyString 0 0%float 0) Sample.state
    = (Some a, s')
    /\ Executor.a_attempts a <= 3.
Proof.
  destruct (requests_per_step_bounded Sample.RegExp_none Sample.provider Sample.clock Sample.server
              100%nat Sample.step_one EmptyString Sample.state) as (a & s' & E & H & _).
  - cbn. lia.
  - exists a, s'. split; [exact E | exact H].
Defined.

Lemma first_accepted_answer_ends_attempts_witness :
  exists a s',
    Executor.attemptLoop Sample.RegExp_none Sample.provider Sample.clock Sample.server
      (Executor.loopFuel Sample.step_one) 100 Sample.step_one EmptyString
      (Executor.mkAttempts false EmptyString EmptyString 0 0%float 0) Sample.state
    = (Some a, s')
    /\ Executor.a_passed a = true
    /\ Executor.a_attempts a = 1
    /\ Executor.lastOutput a = "answer 0"
    /\ Executor.stepTokens a = 3.
Proof.
  apply (first_accepted_answer_ends_attempts Sample.RegExp_none Sample.provider Sample.clock
           Sample.server 100%nat Sample.step_one EmptyString Sample.state
           (mkProviderResult "answer 0" (mkTokens 1 2 3) 0.5%float)
           (Criteria.mkVerdict true "Always passes")).
  - cbn. lia.
  - reflexivity.
  - reflexivity.
  - reflexivity.
Defined.

Lemma unanswered_step_uses_all_attempts_witness :
  exists a s',
    Executor.attemptLoop Sample.RegExp_none Fixture.silent Sample.clock Sample.server
      (Executor.loopFuel Sample.step_one) 100 Sample.step_one EmptyString
      (Executor.mkAttempts false EmptyString EmptyString 0 0%float 0) Sample.state
    = (Some a, s')
    /\ Executor.a_passed a = false
    /\ Executor.a_attempts a = 3
    /\ Executor.lastOutput a = EmptyString
    /\ Executor.provider_calls s' = 3%nat.
Proof.
  apply (unanswered_step_uses_all_attempts Sample.RegExp_none Fixture.silent Sample.clock
           Sample.server 100%nat Sample.step_one EmptyString Sample.state).
  intros n full. exact I.
Defined.

Lemma run_totals_are_sums_witness :
  exists r,
    Db.getRun 100 (Executor.data (snd (Sample.run 1))) = Some r
    /\ Db.total_tokens r
       = Ledger.sumTokens 0 (Db.stepExecutionsOf 100 (Executor.data (snd (Sample.run 1))))
    /\ Db.total_cost r
       = Ledger.sumCosts 0%float
           (Ledger.executed (Db.stepExecutionsOf 100 (Executor.data (snd (Sample.run 1))))).
Proof.
  apply (run_totals_are_sums Sample.RegExp_none Sample.provider Sample.clock Sample.server 1%nat
           Sample.state 100%nat (Some Executor.Finished) (snd (Sample.run 1))).
  - exact sample_fresh_ids.
  - exact sample_distinct_steps.
  - exact sample_run_1.
Defined.

Lemma run_records_are_settled_witness :
  Forall2 Ledger.Recorded (Db.stepExecutionsOf 100 (Executor.data (snd (Sample.run 1))))
    (Db.getWorkflowSteps 1 (Executor.data Sample.state)).
Proof.
  apply (run_records_are_settled Sample.RegExp_none Sample.provider Sample.clock Sample.server 1%nat
           Sample.state 100%nat (Some Executor.Finished) (snd (Sample.run 1))).
  - exact sample_fresh_ids.
  - exact sample_distinct_steps.
  - exact sample_run_1.
Defined.

Lemma passed_step_has_output_witness :
  exists se,
    Db.stepExecutionsOf 100 (Executor.data (snd (Sample.run 1))) !! 0%nat = Some se
    /\ exists out, Db.output se = Some out /\ JS.truthy out = true.
Proof.
  eexists. split; [vm_compute; reflexivity |].
  eapply (passed_step_has_output Sample.RegExp_none Sample.provider Sample.clock Sample.server 1%nat
            Sample.state 100%nat (Some Executor.Finished) (snd (Sample.run 1))).
  - exact sample_fresh_ids.
  - exact sample_distinct_steps.
  - exact sample_run_1.
  - apply (list_elem_of_lookup_2 _ 0%nat). vm_compute. reflexivity.
  - reflexivity.
Defined.


(** ** The database: sorting, listing and deleting *)

Section SortByFacts.

Import Db Schema.

Context {A : Type}.
Variable before : A -> A -> bool.

Lemma insertBy_perm (a : A) (l : list A) : insertBy before a l ≡ₚ a :: l.
Proof.
  induction l as [|x rest IH]; cbn [insertBy]; [reflexivity |].
  destruct (before a x); [reflexivity |]. rewrite IH. apply Permutation_swap.
Qed.

Lemma sortBy_perm (l : list A) : sortBy before l ≡ₚ l.
Proof.
  induction l as [|x rest IH]; cbn [sortBy foldr]; [reflexivity |].
  fold (sortBy before rest). now rewrite insertBy_perm, IH.
Qed.

Lemma sortBy_length (l : list A) : length (sortBy before l) = length l.
Proof. apply Permutation_length, sortBy_perm. Qed.

(** A list that is in order is left as it is: the sort is stable. *)
Lemma insertBy_first (a : A) (l : list A) :
  Forall (fun b => before a b = true) l -> insertBy before a l = a :: l.
Proof.
  destruct l as [|x rest]; [reflexivity |]. intros [H _]%Forall_cons. cbn [insertBy].
  now rewrite H.
Qed.

Lemma sortBy_ordered_id (l : list A) : ordered before l -> sortBy before l = l.
Proof.
  induction l as [|x rest IH]; [reflexivity |]. intros [Hx Hrest].
  cbn [sortBy foldr]. fold (sortBy before rest). rewrite IH by exact Hrest.
  now apply insertBy_first.
Qed.

Hypothesis total : forall a b, before a b = true \/ before b a = true.
Hypothesis trans : forall a b c, before a b = true -> before b c = true -> before a c = true.

Lemma insertBy_ordered (a : A) (l : list A) :
  ordered before l -> ordered before (insertBy before a l).
Proof.
  induction l as [|x rest IH]; intros H; cbn [insertBy].
  - cbn. auto.
  - destruct H as [Hx Hrest]. destruct (before a x) eqn:E.
    + cbn [ordered]. split_and!; [| exact Hx | exact Hrest].
      apply Forall_cons. split; [exact E |].
      eapply Forall_impl; [exact Hx |]. intros b Hb. cbv beta in *. eauto.
    + cbn [ordered]. split; [| now apply IH].
      rewrite insertBy_perm. apply Forall_cons. split; [| exact Hx].
      destruct (total a x) as [H | H]; [congruence | exact H].
Qed.

Lemma sortBy_ordered (l : list A) : ordered before (sortBy before l).
Proof.
  induction l as [|x rest IH]; cbn [sortBy foldr]; [exact I |].
  now apply insertBy_ordered.
Qed.

End SortByFacts.

Section OrderedFacts.

Import Db Schema.

Lemma ordered_lookup {A} (before : A -> A -> bool) (l : list A) (i j : nat) (a b : A) :
  ordered before l -> (i < j)%nat -> l !! i = Some a -> l !! j = Some b -> before a b = true.
Proof.
  revert i j. induction l as [|x rest IH]; intros i j Ho Hij Ha Hb; [discriminate |].
  destruct Ho as [Hx Hrest]. destruct i as [|i], j as [|j]; try lia.
  - cbn in Ha, Hb. injection Ha as ->.
    rewrite Forall_forall in Hx. apply Hx. eapply list_elem_of_lookup_2. exact Hb.
  - cbn in Ha, Hb. eapply (IH i j); eauto. lia.
Qed.

Lemma sort_by_order_sortBy (l : list Step) :
  sort_by_order l = sortBy (fun a b => order_index a <=? order_index b) l.
Proof.
  unfold sort_by_order, sortBy. induction l as [|x rest IH]; [reflexivity |].
  cbn [foldr]. rewrite IH.
  generalize (foldr (insertBy (fun a b => order_index a <=? order_index b)) [] rest).
  intros sorted.
  induction sorted as [|y ys IHs]; [reflexivity |]. cbn [insert_by_order insertBy].
  now rewrite IHs.
Qed.

Lemma count_le {A} (p : A -> bool) (l : list A) : (count p l <= length l)%nat.
Proof. unfold count. apply List.filter_length_le. Qed.

Lemma filter_negb_none {A} (p : A -> bool) (l : list A) :
  List.filter p (List.filter (fun x => negb (p x)) l) = [].
Proof.
  induction l as [|x rest IH]; [reflexivity |]. cbn [List.filter].
  destruct (p x) eqn:E; cbn [negb List.filter]; [exact IH |]. now rewrite E.
Qed.

Lemma filter_negb_other {A} (p q : A -> bool) (l : list A) :
  (forall x, q x = true -> p x = false) ->
  List.filter q (List.filter (fun x => negb (p x)) l) = List.filter q l.
Proof.
  intros H. induction l as [|x rest IH]; [reflexivity |]. cbn [List.filter].
  destruct (q x) eqn:E.
  - rewrite (H x E). cbn [negb List.filter]. rewrite E. now rewrite IH.
  - destruct (p x); cbn [negb List.filter]; [exact IH |]. now rewrite E.
Qed.

Lemma getWorkflowSteps_perm (workflowId : Id) (data : Data) :
  getWorkflowSteps workflowId data
  ≡ₚ List.filter (fun s => Nat.eqb (step_workflow_id s) workflowId) (steps data).
Proof. unfold getWorkflowSteps. rewrite sort_by_order_sortBy. apply sortBy_perm. Qed.

Lemma getWorkflowSteps_ordered (workflowId : Id) (data : Data) :
  ordered (fun a b => order_index a <=? order_index b) (getWorkflowSteps workflowId data).
Proof.
  unfold getWorkflowSteps. rewrite sort_by_order_sortBy. apply sortBy_ordered.
  - intros x y. rewrite !Z.leb_le. lia.
  - intros x y z. rewrite !Z.leb_le. lia.
Qed.

Lemma getWorkflowSteps_elem (workflowId : Id) (data : Data) (s : Step) :
  s ∈ getWorkflowSteps workflowId data <-> s ∈ steps data /\ step_workflow_id s = workflowId.
Proof.
  rewrite getWorkflowSteps_perm.
  rewrite list_elem_of_In, List.filter_In, <- list_elem_of_In. now rewrite Nat.eqb_eq.
Qed.

(** X17: [getWorkflowSteps] returns the steps of the workflow, each of them
    and nothing else, in ascending [order_index]. *)
Theorem getWorkflowSteps_sorted_exact (workflowId : Id) (data : Data) :
  (forall i j a b,
      (i < j)%nat ->
      getWorkflowSteps workflowId data !! i = Some a ->
      getWorkflowSteps workflowId data !! j = Some b ->
      order_index a <= order_index b)
  /\ getWorkflowSteps workflowId data
     ≡ₚ List.filter (fun s => Nat.eqb (step_workflow_id s) workflowId) (steps data)
  /\ (forall s, s ∈ getWorkflowSteps workflowId data
                <-> s ∈ steps data /\ step_workflow_id s = workflowId).
Proof.
  split_and!.
  - intros i j a b Hij Ha Hb. apply Z.leb_le.
    refine (ordered_lookup (fun a b => order_index a <=? order_index b) _ i j a b _ Hij Ha Hb).
    apply getWorkflowSteps_ordered.
  - apply getWorkflowSteps_perm.
  - intros s. apply getWorkflowSteps_elem.
Qed.

(** X30: [getAllWorkflows] lists every workflow once, the latest update
    first, each with the number of its steps and of its runs. *)
Theorem getAllWorkflows_lists (data : Data) :
  map ws_workflow (getAllWorkflows data) ≡ₚ workflows data
  /\ (forall i j a b,
         (i < j)%nat ->
         getAllWorkflows data !! i = Some a -> getAllWorkflows data !! j = Some b ->
         wf_updated_at (ws_workflow b) <= wf_updated_at (ws_workflow a))
  /\ Forall (fun w =>
               step_count w = length (getWorkflowSteps (wf_id (ws_workflow w)) data)
               /\ run_count w
                  = length (List.filter
                              (fun r => Nat.eqb (run_workflow_id r) (wf_id (ws_workflow w)))
                              (runs data)))
       (getAllWorkflows data).
Proof.
  unfold getAllWorkflows.
  set (before := fun a b => wf_updated_at (ws_workflow b) <=? wf_updated_at (ws_workflow a)).
  set (summary := fun w => mkWorkflowSummary w _ _).
  split_and!.
  - rewrite (Permutation_map ws_workflow (sortBy_perm before _)).
    rewrite List.map_map. cbn [summary ws_workflow]. now rewrite List.map_id.
  - intros i j a b Hij Ha Hb. apply Z.leb_le.
    refine (ordered_lookup before _ i j a b _ Hij Ha Hb). apply sortBy_ordered.
    + intros x y. unfold before. rewrite !Z.leb_le. lia.
    + intros x y z. unfold before. rewrite !Z.leb_le. lia.
  - rewrite (sortBy_perm before). apply Forall_forall. intros w Hw.
    apply list_elem_of_fmap in Hw as (w0 & -> & _).
    cbn [summary ws_workflow step_count run_count]. split; [| reflexivity].
    now rewrite (Permutation_length (getWorkflowSteps_perm _ _)).
Qed.

Lemma find_filter_other {A} (p q : A -> bool) (l : list A) :
  (forall x, q x = true -> p x = false) ->
  find q (List.filter (fun x => negb (p x)) l) = find q l.
Proof.
  intros H. unfold find. induction l as [|x rest IH]; [reflexivity |]. cbn [List.filter].
  destruct (q x) eqn:E.
  - rewrite (H x E). cbn [negb]. cbn [list_find]. rewrite !decide_True by exact E. reflexivity.
  - destruct (p x); cbn [negb].
    + cbn [list_find]. rewrite decide_False by congruence.
      rewrite <- option_fmap_compose. rewrite IH.
      destruct (list_find _ rest) as [[? ?]|]; reflexivity.
    + cbn [list_find]. rewrite !decide_False by congruence.
      rewrite <- !option_fmap_compose.
      destruct (list_find _ (List.filter _ rest)) as [[? ?]|] eqn:E1;
        destruct (list_find _ rest) as [[? ?]|] eqn:E2; cbn in IH |- *; congruence.
Qed.

Lemma find_filter_none {A} (p : A -> bool) (l : list A) :
  find p (List.filter (fun x => negb (p x)) l) = None.
Proof.
  unfold find. destruct (list_find _ _) as [[i x]|] eqn:E; [| reflexivity].
  apply list_find_Some in E as (Hi & Hp & _).
  apply list_elem_of_lookup_2, list_elem_of_In, List.filter_In in Hi as [_ Hn].
  rewrite Hp in Hn. discriminate.
Qed.

Lemma find_is_Some {A} (p : A -> bool) (l : list A) :
  is_Some (find p l) <-> exists x, x ∈ l /\ p x = true.
Proof.
  unfold find. split.
  - intros [x H]. destruct (list_find _ l) as [[i y]|] eqn:E; [| discriminate].
    apply list_find_Some in E as (Hi & Hp & _). exists y. split; [| exact Hp].
    eapply list_elem_of_lookup_2. exact Hi.
  - intros (x & Hx & Hp).
    destruct (list_find (fun x => p x = true) l) as [[i y]|] eqn:E; [eexists; reflexivity |].
    apply list_find_None in E. rewrite Forall_forall in E. now specialize (E x Hx).
Qed.

Lemma filter_length_all {A} (p : A -> bool) (l : list A) :
  length (List.filter p l) = length l <-> Forall (fun x => p x = true) l.
Proof.
  induction l as [|x rest IH]; [cbn; split; auto |]. cbn [List.filter].
  pose proof (List.filter_length_le p rest) as Hle. destruct (p x) eqn:E; cbn [length].
  - split.
    + intros H. apply Forall_cons. split; [exact E |]. apply IH. lia.
    + intros [_ H]%Forall_cons. apply IH in H. lia.
  - split; [lia |]. intros [H _]%Forall_cons. congruence.
Qed.

(** X18: [deleteWorkflow] removes the workflow, its steps and its runs, and
    tells whether there was such a workflow; the other workflows keep their
    steps, and no step execution is removed, those of the deleted runs
    included. *)
Theorem deleteWorkflow_cascade (id : Id) (data : Data) :
  let deleted := fst (deleteWorkflow id data) in
  let data' := snd (deleteWorkflow id data) in
  (deleted = true <-> is_Some (getWorkflow id data))
  /\ getWorkflow id data' = None
  /\ getWorkflowSteps id data' = []
  /\ Forall (fun r => run_workflow_id r <> id) (runs data')
  /\ step_executions data' = step_executions data
  /\ (forall other, other <> id ->
        getWorkflow other data' = getWorkflow other data
        /\ getWorkflowSteps other data' = getWorkflowSteps other data
        /\ List.filter (fun r => Nat.eqb (run_workflow_id r) other) (runs data')
           = List.filter (fun r => Nat.eqb (run_workflow_id r) other) (runs data)).
Proof.
  cbn zeta. unfold deleteWorkflow. cbn [fst snd]. split_and!.
  - cbn [workflows]. unfold getWorkflow. rewrite find_is_Some.
    rewrite negb_true_iff, Nat.eqb_neq.
    split.
    + intros Hne.
      destruct (decide (Forall (fun w => negb (wf_id w =? id)%nat = true) (workflows data)))
        as [Hall | Hex].
      * apply filter_length_all in Hall. congruence.
      * apply not_Forall_Exists in Hex; [| intros x; apply _].
        apply Exists_exists in Hex as (w & Hw & Hp). exists w. split; [exact Hw |].
        cbv [compose] in Hp.
        destruct (wf_id w =? id)%nat; [reflexivity | now contradict Hp].
    + intros (w & Hw & Hp) Heq. symmetry in Heq. apply filter_length_all in Heq.
      rewrite Forall_forall in Heq. specialize (Heq w Hw). rewrite Hp in Heq. discriminate.
  - unfold getWorkflow. cbn [workflows]. apply find_filter_none.
  - unfold getWorkflowSteps. cbn [steps]. now rewrite filter_negb_none.
  - cbn [runs]. apply Forall_forall. intros r Hr.
    apply list_elem_of_In, List.filter_In in Hr as [_ Hr].
    apply negb_true_iff, Nat.eqb_neq in Hr. exact Hr.
  - reflexivity.
  - intros other Hother.
    assert (Hq : forall n : nat, (n =? other)%nat = true -> (n =? id)%nat = false).
    { intros n ->%Nat.eqb_eq. now apply Nat.eqb_neq. }
    split_and!.
    + unfold getWorkflow. cbn [workflows].
      apply (find_filter_other (fun w => Nat.eqb (wf_id w) id)). intros w. apply Hq.
    + unfold getWorkflowSteps. cbn [steps].
      now rewrite (filter_negb_other (fun s => Nat.eqb (step_workflow_id s) id)) by
        (intros s; apply Hq).
    + cbn [runs].
      now rewrite (filter_negb_other (fun r => Nat.eqb (run_workflow_id r) id)) by
        (intros r; apply Hq).
Qed.

End OrderedFacts.


(** ** The database: the pages of runs and the statistics *)

Section RunsFacts.

Import Db Schema.

Lemma slice_length {A} (start end_ : Z) (l : list A) :
  0 <= end_ - start -> Z.of_nat (length (slice start end_ l)) <= end_ - start.
Proof.
  intros H. unfold slice. rewrite length_take.
  assert (sliceIndex (Z.of_nat (length l)) end_ - sliceIndex (Z.of_nat (length l)) start
          <= end_ - start).
  { unfold sliceIndex. destruct (end_ <? 0) eqn:E1, (start <? 0) eqn:E2; lia. }
  lia.
Qed.

Lemma slice_sublist {A} (start end_ : Z) (l : list A) (x : A) :
  x ∈ slice start end_ l -> x ∈ l.
Proof.
  unfold slice. intros H. eapply subseteq_drop, subseteq_take, H.
Qed.

(** With indexes that are not negative, a slice is what follows [start], up
    to [end_ - start] elements of it. *)
Lemma slice_from {A} (offset limit : Z) (l : list A) :
  0 <= offset -> 0 <= limit ->
  slice offset (offset + limit) l = take (Z.to_nat limit) (drop (Z.to_nat offset) l).
Proof.
  intros Ho Hl. unfold slice, sliceIndex.
  destruct (offset <? 0) eqn:E1; [lia |]. destruct (offset + limit <? 0) eqn:E2; [lia |].
  destruct (Z.le_gt_cases offset (Z.of_nat (length l))) as [Hin | Hout].
  - rewrite (Z.min_l offset) by exact Hin.
    destruct (Z.le_gt_cases (offset + limit) (Z.of_nat (length l))) as [Hin' | Hout'].
    + rewrite Z.min_l by exact Hin'. f_equal. lia.
    + rewrite Z.min_r by lia.
      rewrite !take_ge; [reflexivity | |]; rewrite length_drop; lia.
  - rewrite (Z.min_r offset) by lia. rewrite !drop_ge by lia. now rewrite !take_nil.
Qed.

Lemma count_and_le {A} (p q : A -> bool) (l : list A) :
  (count (fun x => p x && q x) l <= count p l)%nat.
Proof.
  unfold count. induction l as [|x rest IH]; [reflexivity |]. cbn [List.filter].
  destruct (p x), (q x); cbn [andb length]; lia.
Qed.

(** X19: [getAllRuns] returns the number of all runs and, for a limit that
    is not negative, at most [limit] runs, each a run of the database with
    no more passed steps than steps; for an offset and a limit that are not
    negative the page is what follows the first [offset] runs, the latest
    start first. Reading a page puts the runs of the database itself in that
    order and changes nothing else. *)
Theorem getAllRuns_page (limit offset : Z) (data : Data) :
  let page := fst (fst (getAllRuns limit offset data)) in
  let total := snd (fst (getAllRuns limit offset data)) in
  let data' := snd (getAllRuns limit offset data) in
  total = length (runs data)
  /\ (0 <= limit -> Z.of_nat (length page) <= limit)
  /\ Forall (fun r => rs_run r ∈ runs data /\ (passed_steps r <= total_steps r)%nat) page
  /\ (0 <= offset -> 0 <= limit ->
      map rs_run page = take (Z.to_nat limit) (drop (Z.to_nat offset) (runs data')))
  /\ runs data' ≡ₚ runs data
  /\ (forall i j a b,
         (i < j)%nat -> runs data' !! i = Some a -> runs data' !! j = Some b ->
         run_started_at b <= run_started_at a)
  /\ workflows data' = workflows data
  /\ steps data' = steps data
  /\ step_executions data' = step_executions data.
Proof.
  cbn zeta. unfold getAllRuns. cbn [fst snd runs workflows steps step_executions].
  set (before := fun a b : Run => run_started_at b <=? run_started_at a).
  split_and!; try reflexivity.
  - apply sortBy_length.
  - intros Hl. rewrite length_map. etrans; [apply slice_length; lia |]. lia.
  - apply Forall_forall. intros r Hr. apply list_elem_of_fmap in Hr as (run & -> & Hrun).
    cbn [rs_run passed_steps total_steps]. split.
    + apply slice_sublist in Hrun. now rewrite (sortBy_perm before) in Hrun.
    + apply count_and_le.
  - intros Ho Hl. rewrite <- list_fmap_compose. rewrite <- (slice_from _ _ _ Ho Hl).
    generalize (slice offset (offset + limit) (sortBy before (runs data))). intros l.
    induction l as [|r rest IH]; [reflexivity |]. cbn [fmap list_fmap]. now rewrite IH.
  - apply sortBy_perm.
  - intros i j a b Hij Ha Hb. apply Z.leb_le.
    refine (ordered_lookup before _ i j a b _ Hij Ha Hb). apply sortBy_ordered.
    + intros x y. unfold before. rewrite !Z.leb_le. lia.
    + intros x y z. unfold before. rewrite !Z.leb_le. lia.
Qed.

Lemma count_partition (l : list Run) :
  (count (fun r => bool_decide (run_status r = RunCompleted)) l
   + count (fun r => bool_decide (run_status r = RunFailed)) l
   + count (fun r => bool_decide (run_status r = RunRunning)) l = length l)%nat.
Proof.
  unfold count. induction l as [|r rest IH]; [reflexivity |]. cbn [List.filter].
  destruct (run_status r); repeat case_bool_decide; try congruence; cbn [length]; lia.
Qed.

Lemma sum_tokens_foldl (l : list Run) (start : Z) :
  foldl (fun sum r => sum + orZ (Some (total_tokens r)) 0) start l
  = start + foldr (fun r sum => total_tokens r + sum) 0 l.
Proof.
  revert start. induction l as [|r rest IH]; intros start; cbn [foldl foldr]; [lia |].
  rewrite IH. unfold orZ. destruct (total_tokens r =? 0) eqn:E; [apply Z.eqb_eq in E |]; lia.
Qed.

(** X20: in the statistics every run is counted once: the completed, the
    failed and the running runs add up to [total_runs]; [total_tokens] is
    the sum of the tokens of the runs, and without a run the average cost
    is 0. *)
Theorem getStats_counts (data : Data) :
  (completed_runs (getStats data) + failed_runs (getStats data)
   + count (fun r => bool_decide (run_status r = RunRunning)) (runs data)
   = total_runs (getStats data))%nat
  /\ total_runs (getStats data) = length (runs data)
  /\ stats_total_tokens (getStats data)
     = foldr (fun r sum => total_tokens r + sum) 0 (runs data)
  /\ (runs data = [] -> avg_cost_per_run (getStats data) = 0%float).
Proof.
  unfold getStats.
  cbn [completed_runs failed_runs total_runs stats_total_tokens avg_cost_per_run].
  split_and!.
  - apply count_partition.
  - reflexivity.
  - now rewrite sum_tokens_foldl.
  - intros ->. reflexivity.
Qed.

End RunsFacts.


(** ** The routes of the workflows *)

Section StepFacts.

Import Db Schema Executor Routes.

Lemma orString_truthy (s : option string) (d : string) :
  JS.truthy d = true -> JS.truthy (orString s d) = true.
Proof.
  intros Hd. unfold orString. destruct s as [v|]; [| exact Hd].
  destruct (JS.truthy v) eqn:E; [exact E | exact Hd].
Qed.

Lemma orString_given (v d : string) : JS.truthy v = true -> orString (Some v) d = v.
Proof. intros H. unfold orString. now rewrite H. Qed.

Lemma orString_blank (v : string) : orString (Some v) EmptyString = v.
Proof. unfold orString. destruct v; reflexivity. Qed.

Lemma orZ_given (v d : Z) : v <> 0 -> orZ (Some v) d = v.
Proof. intros H. unfold orZ. destruct (v =? 0) eqn:E; [apply Z.eqb_eq in E; lia | reflexivity]. Qed.

(** What [addStep] stores has no blank name, model, criteria type or
    context mode, and no retry limit of 0. *)
Lemma newStep_filled (id workflowId : Id) (orderIndex : Z) (stepData : StepData) :
  filled (newStep id workflowId orderIndex stepData).
Proof.
  unfold filled, newStep.
  cbn [step_name model criteria_type context_mode retry_limit].
  split_and!; try (apply orString_truthy; reflexivity).
  unfold orZ. destruct (sd_retry_limit stepData) as [v|]; [| lia].
  destruct (v =? 0) eqn:E; [lia | apply Z.eqb_neq in E; exact E].
Qed.

(** A step that is filled is stored again as it was exported. *)
Lemma newStep_exported (id workflowId : Id) (orderIndex : Z) (st : Step) :
  filled st ->
  exportStep (newStep id workflowId orderIndex (asStepData (exportStep st))) = exportStep st.
Proof.
  intros (Hn & Hm & Hc & Hx & Hr). unfold newStep, asStepData, exportStep.
  cbn [sd_name sd_model sd_prompt sd_criteria_type sd_criteria_value sd_retry_limit
       sd_context_mode x_name x_model x_prompt x_criteria_type x_criteria_value
       x_retry_limit x_context_mode step_name model prompt criteria_type criteria_value
       retry_limit context_mode].
  rewrite !orString_blank, !orString_given, orZ_given by assumption. reflexivity.
Qed.

Lemma newSteps_length (id : nat) (workflowId : Id) (index : Z) (sds : list StepData) :
  length (newSteps id workflowId index sds) = length sds.
Proof.
  revert id index. induction sds as [|sd rest IH]; intros id index; cbn [newSteps length];
    [reflexivity |]. now rewrite IH.
Qed.

Lemma newSteps_lookup (id : nat) (workflowId : Id) (index : Z) (sds : list StepData) (i : nat) :
  newSteps id workflowId index sds !! i
  = newStep (id + i) workflowId (index + Z.of_nat i) <$> sds !! i.
Proof.
  revert id index i. induction sds as [|sd rest IH]; intros id index i; cbn [newSteps].
  - reflexivity.
  - destruct i as [|i]; cbn [lookup list_lookup].
    + cbn. now rewrite Nat.add_0_r, Z.add_0_r.
    + fold (@lookup nat Step (list Step) _). rewrite IH.
      assert (E1 : (S id + i = id + S i)%nat) by lia.
      assert (E2 : index + 1 + Z.of_nat i = index + Z.of_nat (S i)) by lia.
      now rewrite E1, E2.
Qed.

Lemma newSteps_workflow (id : nat) (workflowId : Id) (index : Z) (sds : list StepData) :
  Forall (fun st => step_workflow_id st = workflowId /\ index <= order_index st
                    /\ (id <= step_id st)%nat /\ filled st)
    (newSteps id workflowId index sds).
Proof.
  revert id index. induction sds as [|sd rest IH]; intros id index; cbn [newSteps];
    [apply Forall_nil_2 |].
  apply Forall_cons. split.
  - split_and!; [reflexivity | cbn; lia | cbn; lia | apply newStep_filled].
  - eapply Forall_impl; [apply IH |]. intros st (H1 & H2 & H3 & H4). cbv beta.
    split_and!; [exact H1 | lia | lia | exact H4].
Qed.

Lemma newSteps_ordered (id : nat) (workflowId : Id) (index : Z) (sds : list StepData) :
  ordered (fun a b => order_index a <=? order_index b) (newSteps id workflowId index sds).
Proof.
  revert id index. induction sds as [|sd rest IH]; intros id index; cbn [newSteps ordered];
    [exact I |].
  split; [| apply IH].
  eapply Forall_impl; [apply newSteps_workflow |]. intros st (_ & H & _). cbv beta.
  apply Z.leb_le. cbn. lia.
Qed.

Lemma newSteps_exported (id : nat) (workflowId : Id) (index : Z) (sts : list Step) :
  Forall filled sts ->
  map exportStep
    (newSteps id workflowId index (map (fun st => asStepData (exportStep st)) sts))
  = map exportStep sts.
Proof.
  revert id index. induction sts as [|st rest IH]; intros id index H; [reflexivity |].
  apply Forall_cons in H as [Hst Hrest]. cbn [map newSteps]. cbn [fmap list_fmap].
  f_equal; [now apply newStep_exported | now apply IH].
Qed.

(** The steps of a workflow, once new steps were stored for it and no other
    step of it is there. *)
Lemma getWorkflowSteps_new (ws : list Workflow) (old : list Step) (rs : list Run)
    (ses : list StepExecution) (id : nat) (workflowId : Id) (index : Z)
    (sds : list StepData) :
  Forall (fun st => step_workflow_id st <> workflowId) old ->
  getWorkflowSteps workflowId
    (mkData ws (old ++ newSteps id workflowId index sds) rs ses)
  = newSteps id workflowId index sds.
Proof.
  intros Hold. unfold getWorkflowSteps. cbn [steps]. rewrite List.filter_app.
  rewrite filter_none.
  2:{ eapply Forall_impl; [exact Hold |]. intros st Hst. cbv beta in *.
      now apply Nat.eqb_neq. }
  rewrite filter_all.
  2:{ eapply Forall_impl; [apply newSteps_workflow |]. intros st (Hst & _). cbv beta in *.
      now apply Nat.eqb_eq. }
  cbn [app]. rewrite sort_by_order_sortBy. apply sortBy_ordered_id, newSteps_ordered.
Qed.

(** What [forEach] stores for an array without [null], and where it stops at
    a [null]. *)
Lemma addSteps_all (workflowId : Id) (sds : list StepData) (index : Z) (s : State) :
  addSteps workflowId index (map Some sds) s
  = (None,
     mkState
       (mkData (workflows (data s))
          (steps (data s) ++ newSteps (next_uuid s) workflowId index sds)
          (runs (data s)) (step_executions (data s)))
       (activeRuns s) (sent s) (next_uuid s + length sds) (provider_calls s) (clock_reads s)).
Proof.
  revert index s. induction sds as [|sd rest IH]; intros index s.
  - destruct s as [[ws sts rs ses] ar snt n pc cr]. cbn. unfold ret.
    now rewrite app_nil_r, Nat.add_0_r.
  - destruct s as [[ws sts rs ses] ar snt n pc cr].
    cbn [map addSteps]. unfold db_addStep, bind, uuidv4, get_data, set_data, addStep, ret, push.
    cbn [data next_uuid activeRuns sent provider_calls clock_reads workflows steps runs
         step_executions].
    rewrite IH.
    cbn [data next_uuid activeRuns sent provider_calls clock_reads workflows steps runs
         step_executions newSteps length].
    rewrite <- app_assoc. cbn [app]. now rewrite Nat.add_succ_r.
Qed.

Lemma addSteps_null (workflowId : Id) (sds : list StepData) (rest : list (option StepData))
    (index : Z) (s : State) :
  addSteps workflowId index (map Some sds ++ None :: rest) s
  = (Some (property_of_null "name"),
     mkState
       (mkData (workflows (data s))
          (steps (data s) ++ newSteps (next_uuid s) workflowId index sds)
          (runs (data s)) (step_executions (data s)))
       (activeRuns s) (sent s) (S (next_uuid s + length sds)) (provider_calls s)
       (clock_reads s)).
Proof.
  revert index s. induction sds as [|sd more IH]; intros index s.
  - destruct s as [[ws sts rs ses] ar snt n pc cr]. cbn.
    unfold db_addStep, bind, uuidv4, ret. cbn. now rewrite app_nil_r, Nat.add_0_r.
  - destruct s as [[ws sts rs ses] ar snt n pc cr].
    cbn [map app addSteps].
    unfold db_addStep, bind, uuidv4, get_data, set_data, addStep, ret, push.
    cbn [data next_uuid activeRuns sent provider_calls clock_reads workflows steps runs
         step_executions].
    fold (db_addStep workflowId). rewrite IH.
    cbn [data next_uuid activeRuns sent provider_calls clock_reads workflows steps runs
         step_executions newSteps length].
    rewrite <- app_assoc. cbn [app]. now rewrite Nat.add_succ_r.
Qed.

End StepFacts.


Section RouteFacts.

Import Db Schema Executor Routes.

Variable clock : nat -> Instant.

Lemma find_last {A} (p : A -> bool) (l : list A) (x : A) :
  Forall (fun y => p y = false) l -> p x = true -> find p (l ++ [x]) = Some x.
Proof. intros Hl Hx. unfold find. now rewrite find_middle. Qed.

(** X21: an import with a name that is not empty and an array of steps
    without [null] is answered with 201, the new workflow and one step per
    element of the array, in the order of the array, numbered from 0, with
    no blank field; the workflow and the steps are appended to the
    database, and the runs and the step executions are as before. No stored
    step is to refer to the identifier the workflow is given. *)
Theorem import_stores_posted_steps (name : string) (description : option string)
    (sds : list StepData) (s : State) :
  JS.truthy name = true ->
  Forall (fun st => step_workflow_id st <> next_uuid s) (steps (data s)) ->
  let id := next_uuid s in
  let now := clock (clock_reads s) in
  let workflow := mkWorkflow id name (orString description EmptyString) now now in
  let created := newSteps (S id) id 0 sds in
  exists s',
    importWorkflow clock (mkBody (Some name) description (Some (map Some sds))) s
    = (json 201 (mkWorkflowWithSteps workflow created), s')
    /\ workflows (data s') = workflows (data s) ++ [workflow]
    /\ steps (data s') = steps (data s) ++ created
    /\ runs (data s') = runs (data s)
    /\ step_executions (data s') = step_executions (data s)
    /\ length created = length sds
    /\ Forall filled created
    /\ (forall i st, created !! i = Some st ->
          order_index st = Z.of_nat i /\ step_workflow_id st = id).
Proof.
  intros Hname Hfresh. cbn zeta. destruct s as [[ws sts rs ses] ar snt n pc cr].
  cbn [data next_uuid clock_reads steps] in *.
  unfold importWorkflow. cbn [b_name b_steps b_description]. rewrite Hname.
  unfold db_createWorkflow, bind, uuidv4, Date_now, get_data, set_data, createWorkflow, ret,
    push.
  cbn [data next_uuid activeRuns sent provider_calls clock_reads workflows steps runs
       step_executions wf_id].
  rewrite addSteps_all.
  cbn [data next_uuid activeRuns sent provider_calls clock_reads workflows steps runs
       step_executions wf_id].
  rewrite getWorkflowSteps_new by exact Hfresh.
  eexists. split; [reflexivity |].
  cbn [data workflows steps runs step_executions].
  split_and!; try reflexivity.
  - apply newSteps_length.
  - eapply Forall_impl; [apply newSteps_workflow |]. now intros st (_ & _ & _ & H).
  - intros i st Hi. rewrite newSteps_lookup in Hi.
    destruct (sds !! i) as [sd|]; [| discriminate]. injection Hi as <-. cbn. split; [lia | reflexivity].
Qed.

(** X22: an import is not undone when it fails: with a [null] in the array
    of steps the answer is 500, and the workflow and the steps before the
    [null] stay in the database. *)
Theorem import_is_not_atomic (name : string) (description : option string)
    (sds : list StepData) (rest : list (option StepData)) (s : State) :
  JS.truthy name = true ->
  let id := next_uuid s in
  let now := clock (clock_reads s) in
  exists s',
    importWorkflow clock (mkBody (Some name) description (Some (map Some sds ++ None :: rest)))
      s
    = (failure 500 (message_of (property_of_null "name")), s')
    /\ workflows (data s')
       = workflows (data s) ++ [mkWorkflow id name (orString description EmptyString) now now]
    /\ steps (data s') = steps (data s) ++ newSteps (S id) id 0 sds.
Proof.
  intros Hname. cbn zeta. destruct s as [[ws sts rs ses] ar snt n pc cr].
  cbn [data next_uuid clock_reads steps] in *.
  unfold importWorkflow. cbn [b_name b_steps b_description]. rewrite Hname.
  unfold db_createWorkflow, bind, uuidv4, Date_now, get_data, set_data, createWorkflow, ret,
    push.
  cbn [data next_uuid activeRuns sent provider_calls clock_reads workflows steps runs
       step_executions wf_id].
  rewrite addSteps_null.
  cbn [data next_uuid activeRuns sent provider_calls clock_reads workflows steps runs
       step_executions wf_id].
  eexists. split; [reflexivity |]. cbn [data workflows steps]. split; reflexivity.
Qed.

(** An import with no name, an empty name or no array of steps is answered
    with 400 and leaves the state as it is. *)
Lemma import_rejected (body : Body) (s : State) :
  orString (b_name body) EmptyString = EmptyString \/ b_steps body = None ->
  importWorkflow clock body s = (failure 400 (text "Invalid workflow format"), s).
Proof.
  unfold importWorkflow, orString, ret.
  destruct (b_name body) as [name|], (b_steps body) as [steps|]; intros [H | H];
    try reflexivity; try discriminate.
  all: destruct (JS.truthy name) eqn:E; [| reflexivity].
  all: destruct name; discriminate.
Qed.

Lemma exportWorkflow_found (id : Id) (w : Workflow) (s : State) :
  getWorkflow id (data s) = Some w ->
  exportWorkflow id s
  = (json 200
       (mkExport (sanitize (wf_name w) +:+ ".json")
          (mkExportData (wf_name w) (wf_description w)
             (map exportStep (getWorkflowSteps id (data s))))), s).
Proof. intros H. unfold exportWorkflow, bind, get_data, ret. now rewrite H. Qed.

(** X23: what a workflow exports to can be imported, and the copy exports to
    the same file: the same file name, name, description and steps, when
    the name of the workflow is not empty and its steps have no blank
    field, as the steps [addStep] stores. No stored workflow or step is to
    refer to the identifier the copy is given. *)
Theorem export_import_round_trip (id : Id) (w : Workflow) (s : State) :
  getWorkflow id (data s) = Some w ->
  JS.truthy (wf_name w) = true ->
  Forall filled (getWorkflowSteps id (data s)) ->
  Forall (fun st => step_workflow_id st <> next_uuid s) (steps (data s)) ->
  Forall (fun w' => wf_id w' <> next_uuid s) (workflows (data s)) ->
  exists x copy created s',
    exportWorkflow id s = (json 200 x, s)
    /\ importWorkflow clock (asBody (exportData x)) s
       = (json 201 (mkWorkflowWithSteps copy created), s')
    /\ wf_id copy = next_uuid s
    /\ exportWorkflow (wf_id copy) s' = (json 200 x, s').
Proof.
  intros Hw Hname Hfilled Hsteps Hids.
  rewrite (exportWorkflow_found id w s Hw).
  exists (mkExport (sanitize (wf_name w) +:+ ".json")
            (mkExportData (wf_name w) (wf_description w)
               (map exportStep (getWorkflowSteps id (data s))))).
  cbn [exportData]. unfold asBody. cbn [ex_name ex_description ex_steps].
  assert (Hbody : map (fun st => Some (asStepData st))
                    (map exportStep (getWorkflowSteps id (data s)))
                  = map Some (map (fun st => asStepData (exportStep st))
                                (getWorkflowSteps id (data s)))).
  { now rewrite !List.map_map. }
  rewrite Hbody.
  destruct (import_stores_posted_steps (wf_name w) (Some (wf_description w))
              (map (fun st => asStepData (exportStep st)) (getWorkflowSteps id (data s)))
              s Hname Hsteps) as (s' & E & Hws & Hsts & Hrs & Hses & _).
  cbn zeta in *. eexists _, _, s'. split; [reflexivity |]. split; [exact E |].
  cbn [wf_id]. split; [reflexivity |].
  assert (Hcopy : getWorkflow (next_uuid s) (data s')
                  = Some (mkWorkflow (next_uuid s) (wf_name w)
                            (orString (Some (wf_description w)) EmptyString)
                            (clock (clock_reads s)) (clock (clock_reads s)))).
  { unfold getWorkflow. rewrite Hws. apply find_last.
    - eapply Forall_impl; [exact Hids |]. intros w' Hw'. cbv beta in *. now apply Nat.eqb_neq.
    - cbn. apply Nat.eqb_refl. }
  rewrite (exportWorkflow_found _ _ _ Hcopy). cbn [wf_name wf_description].
  rewrite orString_blank.
  assert (Hnew : getWorkflowSteps (next_uuid s) (data s')
                 = newSteps (S (next_uuid s)) (next_uuid s) 0
                     (map (fun st => asStepData (exportStep st))
                        (getWorkflowSteps id (data s)))).
  { destruct (data s') as [ws' sts' rs' ses']. cbn [steps] in Hsts. subst sts'.
    now apply getWorkflowSteps_new. }
  rewrite Hnew. rewrite newSteps_exported by exact Hfilled. reflexivity.
Qed.

Lemma find_findIndex {A} (p : A -> bool) (l : list A) (x : A) :
  find p l = Some x ->
  exists i, findIndex p l = Some i /\ l !! i = Some x
            /\ p x = true /\ forall j y, l !! j = Some y -> (j < i)%nat -> p y = false.
Proof.
  unfold find, findIndex. destruct (list_find _ l) as [[i y]|] eqn:F; [| discriminate].
  intros [= ->]. apply list_find_Some in F as (Hi & Hp & Hleast).
  exists i. split_and!; [reflexivity | exact Hi | exact Hp |].
  intros j y Hj Hlt. specialize (Hleast j y Hj Hlt). now destruct (p y).
Qed.

(** X24: a [PUT] with an array of steps without [null] replaces the steps of
    the workflow: the answer lists the new steps, one per element, numbered
    from 0; the earlier steps of the workflow are gone and the steps of the
    other workflows, the runs and the step executions are kept. The name is
    kept when the body gives none or an empty one, the description when the
    body gives none. *)
Theorem put_replaces_steps (id : Id) (w : Workflow) (body : Body) (sds : list StepData)
    (s : State) :
  getWorkflow id (data s) = Some w ->
  b_steps body = Some (map Some sds) ->
  let updated :=
    mkWorkflow (wf_id w) (orString (b_name body) (wf_name w))
      (default (wf_description w) (b_description body)) (wf_created_at w)
      (clock (clock_reads s)) in
  let created := newSteps (next_uuid s) id 0 sds in
  exists s',
    updateWorkflowRoute clock id body s
    = (json 200 (Some (mkWorkflowWithSteps updated created)), s')
    /\ wf_id w = id
    /\ getWorkflow id (data s') = Some updated
    /\ getWorkflowSteps id (data s') = created
    /\ steps (data s')
       = List.filter (fun st => negb (Nat.eqb (step_workflow_id st) id)) (steps (data s))
           ++ created
    /\ runs (data s') = runs (data s)
    /\ step_executions (data s') = step_executions (data s).
Proof.
  intros Hw Hsteps. cbn zeta. destruct s as [[ws sts rs ses] ar snt n pc cr].
  cbn [data next_uuid clock_reads steps workflows] in *.
  unfold getWorkflow in Hw. cbn [workflows] in Hw.
  destruct (find_findIndex _ _ _ Hw) as (i & Hi & Hlook & Hid & Hleast).
  apply Nat.eqb_eq in Hid.
  unfold updateWorkflowRoute, bind at 1, get_data at 1. cbn [data].
  unfold getWorkflow. cbn [workflows]. rewrite Hw. rewrite Hsteps.
  unfold db_updateWorkflow, db_deleteWorkflowSteps, bind, get_data, set_data, Date_now, ret,
    updateWorkflow, deleteWorkflowSteps.
  cbn [data next_uuid activeRuns sent provider_calls clock_reads workflows steps runs
       step_executions].
  rewrite Hi, Hlook.
  cbn [data next_uuid activeRuns sent provider_calls clock_reads workflows steps runs
       step_executions].
  rewrite addSteps_all.
  cbn [data next_uuid activeRuns sent provider_calls clock_reads workflows steps runs
       step_executions fmap option_fmap option_map].
  assert (Hnew : getWorkflowSteps id
                   (mkData
                      (<[i:=mkWorkflow (wf_id w) (orString (b_name body) (wf_name w))
                                (default (wf_description w) (b_description body))
                                (wf_created_at w) (clock cr)]> ws)
                      (List.filter (fun st => negb (Nat.eqb (step_workflow_id st) id)) sts
                         ++ newSteps n id 0 sds) rs ses)
                 = newSteps n id 0 sds).
  { apply getWorkflowSteps_new. apply Forall_forall. intros st Hst.
    apply list_elem_of_In, List.filter_In in Hst as [_ Hst].
    now apply negb_true_iff, Nat.eqb_neq in Hst. }
  rewrite Hnew. eexists. split; [reflexivity |].
  cbn [data workflows steps runs step_executions].
  split_and!; try reflexivity; [exact Hid | | exact Hnew].
  unfold find.
  replace (list_find _ _)
    with (Some (i, mkWorkflow (wf_id w) (orString (b_name body) (wf_name w))
                     (default (wf_description w) (b_description body))
                     (wf_created_at w) (clock cr))); [reflexivity |].
  symmetry. apply list_find_Some. split_and!.
  - apply list_lookup_insert_eq. eapply lookup_lt_Some; eauto.
  - cbn. now apply Nat.eqb_eq.
  - intros j y Hj Hlt. rewrite list_lookup_insert_ne in Hj by lia.
    rewrite (Hleast j y Hj Hlt). discriminate.
Qed.

Lemma mapChars_length (f : ascii -> ascii) (s : string) :
  String.length (JS.mapChars f s) = String.length s.
Proof. induction s as [|c r IH]; cbn; [reflexivity | now rewrite IH]. Qed.

Lemma sanitize_word (name : string) :
  Forall (fun c => JS.isWordChar c = true) (String.list_ascii_of_string (sanitize name)).
Proof.
  unfold sanitize. induction name as [|c r IH]; cbn [JS.mapChars String.list_ascii_of_string];
    [apply Forall_nil_2 |].
  apply Forall_cons. split; [| exact IH]. unfold JS.isWordChar.
  destruct (JS.in_range 97 122 c) eqn:E1; cbn [orb]; [now rewrite E1, orb_true_r |].
  destruct (JS.in_range 65 90 c) eqn:E2; cbn [orb]; [now rewrite E2 |].
  destruct (JS.isDigit c) eqn:E3; [now rewrite E1, E2, E3 | reflexivity].
Qed.

(** X25: the file name of an export is the name of the workflow with every
    code unit that is not an ASCII letter or digit replaced by an
    underscore, the letters and the digits staying as they are, followed by
    [.json]: it has no quote, no separator and no line break, and exporting
    changes nothing. *)
Theorem export_filename_is_safe (id : Id) (s s' : State) (x : Export) :
  exportWorkflow id s = (json 200 x, s') ->
  s' = s
  /\ exists base,
      filename x = base +:+ ".json"
      /\ String.length base = String.length (ex_name (exportData x))
      /\ Forall (fun c => JS.isWordChar c = true) (String.list_ascii_of_string base)
      /\ forall i c,
           String.get i (ex_name (exportData x)) = Some c ->
           String.get i base
           = Some (if JS.isDigit c || JS.in_range 65 90 c || JS.in_range 97 122 c
                   then c else "_"%char).
Proof.
  unfold exportWorkflow, bind, get_data, ret.
  destruct (getWorkflow id (data s)) as [w|]; [| discriminate].
  intros [= <- <-]. split; [reflexivity |]. exists (sanitize (wf_name w)).
  cbn [filename exportData ex_name]. split_and!.
  - reflexivity.
  - apply mapChars_length.
  - apply sanitize_word.
  - unfold sanitize. generalize (wf_name w). intros name.
    induction name as [|c0 r IH]; intros i c; [discriminate |].
    destruct i as [|i]; cbn [String.get JS.mapChars].
    + intros [= ->]. f_equal.
      destruct (JS.in_range 97 122 c), (JS.in_range 65 90 c), (JS.isDigit c); reflexivity.
    + apply IH.
Qed.

End RouteFacts.


(** ** The retries of the service *)

Section UnboundFacts.

Import Unbound.

Variable post : nat -> string -> string -> AxiosError + ResponseData.

Lemma retryLoop_bounded (model fullPrompt : string) (maxRetries : Z) (n : nat) (fuel : nat) :
  forall (attempt : Z) (lastError : option AxiosError) (fx : Effects),
    1 <= attempt <= maxRetries ->
    Z.of_nat (requests fx) = attempt - 1 ->
    waited fx = 1000 * (attempt - 1) * attempt ->
    (Z.to_nat (maxRetries - attempt + 1) <= fuel)%nat ->
    exists e fx',
      retryLoop post fuel model fullPrompt maxRetries attempt lastError n fx = (e, fx')
      /\ settled e
      /\ attempt <= Z.of_nat (requests fx') <= maxRetries
      /\ waited fx' = 1000 * (Z.of_nat (requests fx') - 1) * Z.of_nat (requests fx').
Proof.
  induction fuel as [|fuel IH]; intros attempt lastError fx Ha Hr Hw Hfuel; [lia |].
  cbn [retryLoop]. destruct (attempt <=? maxRetries) eqn:E; [| apply Z.leb_gt in E; lia].
  destruct (post (n + requests fx) model fullPrompt) as [error | data].
  - destruct (isRetryable error && (attempt <? maxRetries)) eqn:R.
    + apply andb_true_iff in R as [_ Hlt%Z.ltb_lt].
      cbn [requests waited].
      destruct (IH (attempt + 1) (Some error)
                  (mkEffects (S (requests fx)) (waited fx + attempt * 2000)))
        as (e & fx' & Eq & Hs & Hreq & Hwait); cbn [requests waited]; try lia.
      exists e, fx'. split; [exact Eq |]. split; [exact Hs |]. split; [lia | exact Hwait].
    + eexists _, _. split; [reflexivity |]. cbn [settled requests waited].
      split; [exact I |]. split; [lia |].
      replace (Z.of_nat (S (requests fx))) with attempt by lia. rewrite Hw. ring.
  - eexists _, _. split; [reflexivity |]. cbn [settled requests waited].
    split; [exact I |]. split; [lia |].
    replace (Z.of_nat (S (requests fx))) with attempt by lia. rewrite Hw. ring.
Qed.

(** X26: a call ends. With a [maxRetries] of at least 1 it makes at least
    one request and at most [maxRetries] of them, and then returns or throws
    an [Error]; after [r] requests it has waited 1000 * (r - 1) * r
    milliseconds between them, so 6 seconds at most with the default of 3.
    With a [maxRetries] below 1 it makes no request and throws [null]. *)
Theorem call_requests_bounded (prompt model context : string) (maxRetries : Z) (n : nat) :
  let e := fst (call post prompt model context maxRetries n) in
  let fx := snd (call post prompt model context maxRetries n) in
  e <> OutOfFuel
  /\ waited fx = 1000 * (Z.of_nat (requests fx) - 1) * Z.of_nat (requests fx)
  /\ (1 <= maxRetries -> settled e /\ 1 <= Z.of_nat (requests fx) <= maxRetries)
  /\ (maxRetries < 1 -> e = ThrewLast None /\ requests fx = 0%nat).
Proof.
  cbn zeta. unfold call.
  destruct (Z.le_gt_cases 1 maxRetries) as [Hpos | Hneg].
  - destruct (retryLoop_bounded model (Executor.fullPrompt prompt context) maxRetries n
                (Z.to_nat maxRetries) 1 None (mkEffects 0 0))
      as (e & fx' & Eq & Hs & Hreq & Hwait); cbn [requests waited]; try lia.
    rewrite Eq. cbn [fst snd]. split_and!.
    + intros ->. exact Hs.
    + exact Hwait.
    + intros _. split; [exact Hs | lia].
    + lia.
  - destruct (Z.to_nat maxRetries) eqn:F; [| lia]. cbn [retryLoop].
    destruct (1 <=? maxRetries) eqn:E; [apply Z.leb_le in E; lia |].
    cbn [fst snd requests waited]. split_and!; [discriminate | reflexivity | lia | auto].
Qed.

Lemma retryLoop_decided (model fullPrompt : string) (maxRetries : Z) (n : nat) (k : nat) :
  forall (fuel : nat) (attempt : Z) (lastError : option AxiosError) (fx : Effects),
    (k < fuel)%nat ->
    attempt + Z.of_nat k <= maxRetries ->
    (forall j, (j < k)%nat ->
               exists error, post (n + requests fx + j) model fullPrompt = inl error
                             /\ isRetryable error = true) ->
    match post (n + requests fx + k) model fullPrompt with
    | inl error => isRetryable error = false \/ attempt + Z.of_nat k = maxRetries
    | inr _ => True
    end ->
    retryLoop post fuel model fullPrompt maxRetries attempt lastError n fx
    = (match post (n + requests fx + k) model fullPrompt with
       | inl error => ThrewError (thrownMessage error)
       | inr data => Returned (resultOf model data)
       end,
       mkEffects (requests fx + S k)
         (waited fx + 2000 * attempt * Z.of_nat k + 1000 * Z.of_nat k * (Z.of_nat k - 1))).
Proof.
  induction k as [|k IH]; intros fuel attempt lastError fx Hfuel Hmax Hbefore Hlast.
  - destruct fuel as [|fuel]; [lia |]. cbn [retryLoop].
    destruct (attempt <=? maxRetries) eqn:E; [| apply Z.leb_gt in E; lia].
    rewrite Nat.add_0_r in *.
    destruct (post (n + requests fx) model fullPrompt) as [error | data].
    + replace (isRetryable error && (attempt <? maxRetries)) with false.
      * f_equal. f_equal; [lia | cbn [waited]; lia].
      * symmetry. apply andb_false_iff. destruct Hlast as [H | H]; [now left |].
        right. apply Z.ltb_ge. lia.
    + f_equal. f_equal; [lia | cbn [waited]; lia].
  - destruct fuel as [|fuel]; [lia |]. cbn [retryLoop].
    destruct (attempt <=? maxRetries) eqn:E; [| apply Z.leb_gt in E; lia].
    destruct (Hbefore 0%nat) as (error & Hpost & Hretry); [lia |].
    rewrite Nat.add_0_r in Hpost. rewrite Hpost, Hretry. cbn [andb].
    destruct (attempt <? maxRetries) eqn:L; [| apply Z.ltb_ge in L; lia].
    cbn [requests waited].
    rewrite (IH fuel (attempt + 1) (Some error)
               (mkEffects (S (requests fx)) (waited fx + attempt * 2000))); cbn [requests waited].
    + replace (n + S (requests fx) + k)%nat with (n + requests fx + S k)%nat by lia.
      f_equal. f_equal; [lia | lia].
    + lia.
    + lia.
    + intros j Hj. destruct (Hbefore (S j)) as (err & Hp & Hr); [lia |].
      exists err. split; [| exact Hr].
      now replace (n + S (requests fx) + j)%nat with (n + requests fx + S j)%nat by lia.
    + replace (n + S (requests fx) + k)%nat with (n + requests fx + S k)%nat by lia.
      destruct (post (n + requests fx + S k) model fullPrompt); [| exact I].
      destruct Hlast as [H | H]; [now left | right; lia].
Qed.

(** X27: a call is decided by the first request that is answered, or is
    rejected with an error that is not retried (the server answered with a
    status below 500 and the code is neither [ECONNABORTED] nor
    [ECONNRESET]), or is the last one allowed: if the [k] requests before it
    were rejected with errors that are retried, the call makes [k + 1]
    requests, waits 2, 4, ... seconds between them, and returns the answer
    or throws the message of that last error, the one of the server first. *)
Theorem call_decided_by_first_final_answer (prompt model context : string)
    (maxRetries : Z) (n k : nat) :
  Z.of_nat k < maxRetries ->
  (forall j, (j < k)%nat ->
             exists error,
               post (n + j) model (Executor.fullPrompt prompt context) = inl error
               /\ isRetryable error = true) ->
  match post (n + k) model (Executor.fullPrompt prompt context) with
  | inl error => isRetryable error = false \/ Z.of_nat (S k) = maxRetries
  | inr _ => True
  end ->
  call post prompt model context maxRetries n
  = (match post (n + k) model (Executor.fullPrompt prompt context) with
     | inl error => ThrewError (thrownMessage error)
     | inr data => Returned (resultOf model data)
     end,
     mkEffects (S k) (1000 * Z.of_nat k * (Z.of_nat k + 1))).
Proof.
  intros Hk Hbefore Hlast. unfold call.
  rewrite (retryLoop_decided model (Executor.fullPrompt prompt context) maxRetries n k);
    cbn [requests waited].
  - rewrite Nat.add_0_r. f_equal. f_equal. lia.
  - lia.
  - lia.
  - intros j Hj. rewrite Nat.add_0_r. now apply Hbefore.
  - rewrite Nat.add_0_r. destruct (post (n + k) model _); [| exact I].
    destruct Hlast as [H | H]; [now left | right; lia].
Qed.

End UnboundFacts.


(** ** A run and the rest of the database *)

Section FrameFacts.

Import Db Schema Executor Spec.

Variable RegExp_new : string -> string -> Completion (string -> bool).
Variable completion : nat -> string -> string -> Completion ProviderResult.
Variable clock : nat -> Instant.
Variable wsServer : option (nat -> list Client).

Lemma updateRun_last (id : Id) (updates : Run -> Run) (d : Data) (pre : list Run) (r : Run) :
  runs d = pre ++ [r] ->
  Forall (fun y => Nat.eqb (run_id y) id = false) pre ->
  run_id r = id ->
  runs (updateRun id updates d) = pre ++ [updates r].
Proof.
  intros Hd Hpre Hr. unfold updateRun, findIndex. rewrite Hd.
  rewrite find_middle; [| exact Hpre | now apply Nat.eqb_eq]. cbn [fmap option_fmap option_map fst].
  rewrite lookup_middle. cbn [runs]. apply insert_middle.
Qed.

Lemma Trace_step_ids (ctx : string) (sts : list Step) (ses : list StepExecution)
    (status : RunStatus) :
  Trace RegExp_new completion ctx sts ses status ->
  Forall2 (fun se st => se_step_id se = step_id st) ses sts.
Proof.
  induction 1 as [| ctx step rest se ses status out Hid Hst Hin Hout Hpo Hb Htr IH
                  | ctx step rest se ses Hid Hst Hin Hb Hpend].
  - constructor.
  - constructor; [exact Hid | exact IH].
  - constructor; [exact Hid |]. eapply Forall2_impl; [exact Hpend |]. now intros ? ? [? _].
Qed.

(** What [execute] and the background sequence of the run change. *)
Lemma execute_frame (workflowId : Id) (s0 : State) (runId : Id) (o : option Outcome)
    (s' : State) :
  fresh_ids s0 -> distinct_steps s0 ->
  execute RegExp_new completion clock wsServer workflowId s0 = ((Return runId, o), s') ->
  workflows (data s') = workflows (data s0)
  /\ steps (data s') = steps (data s0)
  /\ (exists r,
         runs (data s') = runs (data s0) ++ [r]
         /\ run_id r = runId /\ run_workflow_id r = workflowId /\ run_status r <> RunRunning)
  /\ step_executions (data s')
     = step_executions (data s0) ++ stepExecutionsOf runId (data s')
  /\ stepExecutionsOf runId (data s0) = []
  /\ next_uuid s'
     = (S (next_uuid s0) + length (getWorkflowSteps workflowId (data s0)))%nat.
Proof.
  intros [Hruns Hses] Hdistinct Hexec.
  unfold execute, bind in Hexec.
  pose proof (start_spec clock workflowId s0) as Hstart.
  destruct (getWorkflow workflowId (data s0)) as [workflow|].
  2:{ rewrite Hstart in Hexec. discriminate. }
  pose proof (getWorkflowSteps_distinct workflowId (data s0) Hdistinct) as Hnd.
  destruct (getWorkflowSteps workflowId (data s0)) as [|step0 steps0] eqn:Hsteps.
  { rewrite Hstart in Hexec. discriminate. }
  destruct Hstart as (s1 & now & E1 & Hd1 & Ha1 & Hn1).
  rewrite E1 in Hexec. unfold background, bind, executeSteps in Hexec.
  destruct (executeStepsFrom_trace RegExp_new completion clock wsServer (next_uuid s0)
              (step0 :: steps0) 0%nat EmptyString 0%float 0 s1
              (step_executions (data s0))
              (pendingRecords (S (next_uuid s0)) (next_uuid s0) (step0 :: steps0)))
    as (s2 & ses & status & now' & c & t & E2 & Hses2 & Hrun2 & Htrace & Hruns2 & Hw2 & Hst2
        & Ha2 & Hn2).
  - rewrite Hd1. reflexivity.
  - apply pendingRecords_steps.
  - exact Hnd.
  - apply pendingRecords_ids.
  - eapply Forall_impl; [exact Hses |]. intros y [Hy _] t0 Ht.
    destruct (pendingRecords_ids (S (next_uuid s0)) (next_uuid s0) (step0 :: steps0))
      as [Hge _].
    eapply Forall_forall in Hge; [| exact Ht]. lia.
  - eapply Forall_impl; [exact Hses |]. intros y [_ Hy] st0 _ [Heq _]. rewrite Heq in Hy.
    now apply Nat.lt_irrefl in Hy.
  - rewrite E2 in Hexec. cbn [ret] in Hexec. injection Hexec as <- <- <-.
    assert (Hold : List.filter (fun se => Nat.eqb (se_run_id se) (next_uuid s0))
                     (step_executions (data s0)) = []).
    { apply filter_none. eapply Forall_impl; [exact Hses |]. intros se [_ Hse]. cbv beta.
      apply Nat.eqb_neq. lia. }
    assert (Hnew : stepExecutionsOf (next_uuid s0) (data s2) = ses).
    { unfold stepExecutionsOf. rewrite Hses2, List.filter_app, Hold. cbn [app].
      apply filter_all. eapply Forall_impl; [exact Hrun2 |]. intros se Hse. cbv beta.
      now apply Nat.eqb_eq. }
    split_and!.
    + rewrite Hw2, Hd1. reflexivity.
    + rewrite Hst2, Hd1. reflexivity.
    + exists (terminal status now' c t
                (mkRun (next_uuid s0) workflowId RunRunning now None 0%float 0)).
      split_and!; [| reflexivity | reflexivity |].
      * rewrite Hruns2. apply updateRun_last; [now rewrite Hd1 | | reflexivity].
        eapply Forall_impl; [exact Hruns |]. intros r Hr. cbv beta in *. apply Nat.eqb_neq. lia.
      * cbn [terminal run_status].
        destruct (Trace_terminal RegExp_new completion _ _ _ _ Htrace) as [-> | ->];
          discriminate.
    + rewrite Hnew. exact Hses2.
    + exact Hold.
    + rewrite Hn2, Hn1. reflexivity.
Qed.

(** X28: a run changes nothing but its own records: the workflows and the
    steps stay as they were, the run is appended to the runs and its step
    executions to the step executions, and the records of the earlier runs
    are left as they were. *)
Theorem run_leaves_the_rest_untouched (workflowId : Id) (s0 : State) (runId : Id)
    (o : option Outcome) (s' : State) :
  fresh_ids s0 -> distinct_steps s0 ->
  execute RegExp_new completion clock wsServer workflowId s0 = ((Return runId, o), s') ->
  workflows (data s') = workflows (data s0)
  /\ steps (data s') = steps (data s0)
  /\ (exists r,
         runs (data s') = runs (data s0) ++ [r]
         /\ run_id r = runId /\ run_workflow_id r = workflowId /\ run_status r <> RunRunning)
  /\ step_executions (data s')
     = step_executions (data s0) ++ stepExecutionsOf runId (data s')
  /\ (forall other, other <> runId ->
        stepExecutionsOf other (data s') = stepExecutionsOf other (data s0)).
Proof.
  intros H1 H2 H3.
  destruct (execute_frame workflowId s0 runId o s' H1 H2 H3)
    as (Hw & Hs & Hr & Hse & Hold & _).
  split_and!; [exact Hw | exact Hs | exact Hr | exact Hse |].
  intros other Hother. unfold stepExecutionsOf at 1. rewrite Hse, List.filter_app.
  fold (stepExecutionsOf other (data s0)).
  rewrite (filter_none _ (stepExecutionsOf runId (data s'))); [apply app_nil_r |].
  apply Forall_forall. intros se Hin.
  apply list_elem_of_In, List.filter_In in Hin as [_ Hrun%Nat.eqb_eq].
  apply Nat.eqb_neq. congruence.
Qed.

Lemma find_unique {A} (p : A -> bool) (key : A -> nat) (l : list A) (x : A) :
  NoDup (map key l) -> x ∈ l -> (forall y, p y = Nat.eqb (key y) (key x)) -> find p l = Some x.
Proof.
  intros Hnd Hx Hp. unfold find.
  destruct (list_find (fun y => p y = true) l) as [[i y]|] eqn:F.
  - apply list_find_Some in F as (Hi & Hy & _). rewrite Hp in Hy. apply Nat.eqb_eq in Hy.
    cbn. f_equal.
    apply list_elem_of_lookup in Hx as [j Hj].
    assert (i = j).
    { eapply NoDup_lookup; [exact Hnd | |].
      - rewrite list_lookup_fmap, Hi. reflexivity.
      - rewrite list_lookup_fmap, Hj. cbn. now rewrite Hy. }
    subst j. congruence.
  - apply list_find_None in F. rewrite Forall_forall in F. specialize (F x Hx).
    rewrite Hp, Nat.eqb_refl in F. now contradict F.
Qed.

Lemma orZ_zero (v : Z) : orZ (Some v) 0 = v.
Proof. unfold orZ. destruct (v =? 0) eqn:E; [apply Z.eqb_eq in E; lia | reflexivity]. Qed.

(** The views of step executions that follow steps in ascending order are
    in the order of the page. *)
Lemma views_ordered (d : Data) (ses : list StepExecution) (sts : list Step) :
  NoDup (map step_id (steps d)) ->
  Forall (fun st => st ∈ steps d) sts ->
  Forall2 (fun se st => se_step_id se = step_id st) ses sts ->
  ordered (fun a b => order_index a <=? order_index b) sts ->
  ordered (fun a b => orderOf (se_step_id (sv_execution a)) d
                      <=? orderOf (se_step_id (sv_execution b)) d) (map (viewOf d) ses).
Proof.
  intros Hnd Hin Hids. 
  assert (Horder : forall se st, se_step_id se = step_id st -> st ∈ steps d ->
                                 orderOf (se_step_id se) d = order_index st).
  { intros se st Hid Hst. unfold orderOf, stepOf. rewrite Hid.
    rewrite (find_unique _ step_id (steps d) st Hnd Hst) by reflexivity.
    cbn. apply orZ_zero. }
  induction Hids as [|se st ses sts Hid Hrest IH]; intros Ho; [exact I |].
  apply Forall_cons in Hin as [Hst Hin]. destruct Ho as [Hfirst Ho].
  cbn [map ordered]. split; [| now apply IH].
  clear IH Ho. induction Hrest as [|se' st' ses' sts' Hid' Hrest' IH']; [apply Forall_nil_2 |].
  apply Forall_cons in Hin as [Hst' Hin]. apply Forall_cons in Hfirst as [Hle Hfirst].
  cbn [map]. apply Forall_cons. split; [| now apply IH'].
  cbn [viewOf sv_execution]. now rewrite (Horder se st Hid Hst), (Horder se' st' Hid' Hst').
Qed.

(** X29: in the state a run ends in, and in every later state that still
    stores the steps the run was started on, under identifiers of their
    own, and the step executions of the run as the run left them, the page
    of the run lists these step executions in the order of the steps, each
    with the criterion and the prompt of its step and, when they are not
    empty, its name and its model. *)
Theorem run_page_follows_the_steps (workflowId : Id) (s0 : State) (runId : Id)
    (o : option Outcome) (s' : State) (d : Data) :
  fresh_ids s0 -> distinct_steps s0 ->
  execute RegExp_new completion clock wsServer workflowId s0 = ((Return runId, o), s') ->
  d = data s'
  \/ (NoDup (map step_id (steps d))
      /\ Forall (fun st => st ∈ steps d) (getWorkflowSteps workflowId (data s0))
      /\ stepExecutionsOf runId d = stepExecutionsOf runId (data s')) ->
  map sv_execution (getRunStepExecutions runId d) = stepExecutionsOf runId (data s')
  /\ Forall2 (fun v st =>
                se_step_id (sv_execution v) = step_id st
                /\ sv_criteria_type v = Some (criteria_type st)
                /\ sv_criteria_value v = Some (criteria_value st)
                /\ sv_step_name v = orString (Some (step_name st)) "Unknown"
                /\ sv_model v = orString (Some (model st)) "Unknown"
                /\ sv_prompt v = prompt st)
       (getRunStepExecutions runId d) (getWorkflowSteps workflowId (data s0)).
Proof.
  intros H1 H2 H3 Hd.
  destruct (execute_frame workflowId s0 runId o s' H1 H2 H3) as (_ & Hs & _ & _ & _ & _).
  destruct (execute_trace RegExp_new completion clock wsServer workflowId s0 runId o s'
              H1 H2 H3) as (_ & _ & _ & _ & r & _ & Htrace).
  apply Trace_step_ids in Htrace.
  pose proof (getWorkflowSteps_ordered workflowId (data s0)) as Hord.
  assert (Hkept : NoDup (map step_id (steps d))
                  /\ Forall (fun st => st ∈ steps d) (getWorkflowSteps workflowId (data s0))
                  /\ stepExecutionsOf runId d = stepExecutionsOf runId (data s')).
  { destruct Hd as [-> | Hd]; [| exact Hd]. split_and!.
    - rewrite Hs. exact H2.
    - apply Forall_forall. intros st Hst. rewrite Hs.
      now apply getWorkflowSteps_elem in Hst as [Hst _].
    - reflexivity. }
  clear Hd. destruct Hkept as (Hnd & Hin & Hses).
  assert (Hpage : getRunStepExecutions runId d
                  = map (viewOf d) (stepExecutionsOf runId (data s'))).
  { unfold getRunStepExecutions. fold (stepExecutionsOf runId d). rewrite Hses.
    apply sortBy_ordered_id. eapply views_ordered; eauto. }
  rewrite Hpage. split.
  - rewrite List.map_map. cbn [viewOf sv_execution]. apply List.map_id.
  - clear Hord Hpage Hses. revert Hin.
    induction Htrace as [|se st ses sts Hid Hrest IH]; intros Hin; [constructor |].
    apply Forall_cons in Hin as [Hst Hin]. cbn [map]. constructor; [| now apply IH].
    cbn [viewOf sv_execution sv_criteria_type sv_criteria_value sv_step_name sv_model sv_prompt].
    unfold stepOf. rewrite Hid.
    rewrite (find_unique _ step_id (steps d) st Hnd Hst) by reflexivity.
    cbn [fmap option_fmap option_map]. rewrite orString_blank. split_and!; reflexivity.
Qed.

End FrameFacts.


Lemma import_stores_posted_steps_witness :
  exists s',
    Routes.importWorkflow Sample.clock
      (Routes.mkBody (Some "copy") None (Some (map Some Fixture.posted))) Sample.state
    = (Routes.json 201
         (Routes.mkWorkflowWithSteps (Db.mkWorkflow 100 "copy" EmptyString 0 0)
            (Routes.newSteps 101 100 0 Fixture.posted)), s')
    /\ length (Routes.newSteps 101 100 0 Fixture.posted) = 2%nat.
Proof.
  destruct (import_stores_posted_steps Sample.clock "copy" None Fixture.posted Sample.state)
    as (s' & E & _ & _ & _ & _ & L & _).
  - reflexivity.
  - repeat (apply Forall_cons; split); try apply Forall_nil; cbn; lia.
  - exists s'. split; [exact E | exact L].
Defined.

Lemma import_is_not_atomic_witness :
  exists s',
    Routes.importWorkflow Sample.clock
      (Routes.mkBody (Some "copy") None (Some (map Some Fixture.posted ++ [None])))
      Sample.state
    = (Routes.failure 500 (Routes.message_of (Routes.property_of_null "name")), s')
    /\ Db.steps (Executor.data s')
       = Db.steps (Executor.data Sample.state) ++ Routes.newSteps 101 100 0 Fixture.posted.
Proof.
  destruct (import_is_not_atomic Sample.clock "copy" None Fixture.posted [] Sample.state)
    as (s' & E & _ & Hs).
  - reflexivity.
  - exists s'. split; [exact E | exact Hs].
Defined.

Lemma export_import_round_trip_witness :
  exists x copy created s',
    Routes.exportWorkflow 1 Sample.state = (Routes.json 200 x, Sample.state)
    /\ Routes.importWorkflow Sample.clock (Routes.asBody (Routes.exportData x)) Sample.state
       = (Routes.json 201 (Routes.mkWorkflowWithSteps copy created), s')
    /\ Db.wf_id copy = 100%nat
    /\ Routes.exportWorkflow (Db.wf_id copy) s' = (Routes.json 200 x, s').
Proof.
  apply (export_import_round_trip Sample.clock 1%nat (Db.mkWorkflow 1 "two steps" "d" 0 0)
           Sample.state).
  - reflexivity.
  - reflexivity.
  - vm_compute. repeat (apply Forall_cons; split); try apply Forall_nil;
      repeat split; discriminate.
  - repeat (apply Forall_cons; split); try apply Forall_nil; cbn; lia.
  - repeat (apply Forall_cons; split); try apply Forall_nil; cbn; lia.
Defined.

Lemma put_replaces_steps_witness :
  exists s',
    Routes.updateWorkflowRoute Sample.clock 1
      (Routes.mkBody None (Some "rewritten") (Some (map Some Fixture.posted))) Sample.state
    = (Routes.json 200
         (Some (Routes.mkWorkflowWithSteps (Db.mkWorkflow 1 "two steps" "rewritten" 0 0)
                  (Routes.newSteps 100 1 0 Fixture.posted))), s')
    /\ Db.getWorkflowSteps 1 (Executor.data s') = Routes.newSteps 100 1 0 Fixture.posted.
Proof.
  destruct (put_replaces_steps Sample.clock 1%nat (Db.mkWorkflow 1 "two steps" "d" 0 0)
              (Routes.mkBody None (Some "rewritten") (Some (map Some Fixture.posted)))
              Fixture.posted Sample.state) as (s' & E & _ & _ & Hs & _).
  - reflexivity.
  - reflexivity.
  - exists s'. split; [exact E | exact Hs].
Defined.

Lemma export_filename_is_safe_witness :
  exists x,
    Routes.exportWorkflow 1 Sample.state = (Routes.json 200 x, Sample.state)
    /\ exists base,
        Routes.filename x = base +:+ ".json"
        /\ String.length base = String.length "two steps"
        /\ String.get 3 base = Some "_"%char.
Proof.
  eexists. split; [reflexivity |].
  edestruct (export_filename_is_safe 1%nat Sample.state) as [_ (base & H1 & H2 & _ & H3)];
    [reflexivity |].
  exists base. split; [exact H1 |]. split; [exact H2 |].
  exact (H3 3%nat " "%char eq_refl).
Defined.

Lemma call_decided_by_first_final_answer_witness :
  Unbound.call Fixture.flaky "Say hi" "kimi-k2p5" EmptyString 3 0
  = (Unbound.Returned
       (Unbound.resultOf "kimi-k2p5" (Unbound.mkResponseData (Some "hello")
                                        (Some (Unbound.mkUsage 10 5)))),
     Unbound.mkEffects 3 6000).
Proof.
  apply (call_decided_by_first_final_answer Fixture.flaky "Say hi" "kimi-k2p5" EmptyString 3
           0%nat 2%nat).
  - lia.
  - intros j Hj. destruct j as [|[|j]]; [eexists; split; reflexivity .. | lia].
  - exact I.
Defined.

Lemma run_leaves_the_rest_untouched_witness :
  Db.steps (Executor.data (snd (Sample.run 1))) = Db.steps (Executor.data Sample.state)
  /\ Db.stepExecutionsOf 50 (Executor.data (snd (Sample.run 1)))
     = Db.stepExecutionsOf 50 (Executor.data Sample.state).
Proof.
  destruct (run_leaves_the_rest_untouched Sample.RegExp_none Sample.provider Sample.clock
              Sample.server 1%nat Sample.state 100%nat (Some Executor.Finished) (snd (Sample.run 1)))
    as (_ & Hs & _ & _ & Hother).
  - exact sample_fresh_ids.
  - exact sample_distinct_steps.
  - exact sample_run_1.
  - split; [exact Hs | apply Hother; lia].
Defined.

Lemma run_page_follows_the_steps_witness :
  map Schema.sv_execution (Schema.getRunStepExecutions 100 (Executor.data Fixture.later))
  = Db.stepExecutionsOf 100 (Executor.data (snd (Sample.run 1))).
Proof.
  destruct (run_page_follows_the_steps Sample.RegExp_none Sample.provider Sample.clock
              Sample.server 1%nat Sample.state 100%nat (Some Executor.Finished)
              (snd (Sample.run 1)) (Executor.data Fixture.later))
    as [H _].
  - exact sample_fresh_ids.
  - exact sample_distinct_steps.
  - exact sample_run_1.
  - right. split_and!.
    + refine (bool_decide_unpack _ _). vm_compute. exact I.
    + vm_compute. repeat (apply Forall_cons; split); try apply Forall_nil;
        repeat constructor.
    + vm_compute. reflexivity.
  - exact H.
Defined.

(** ** Samples *)

Example parseInt_samples :
  JS.parseInt "  42px" = Some 42 /\ JS.parseInt "-0" = Some 0 /\ JS.parseInt "0x1F" = Some 31
  /\ JS.parseInt "abc" = None /\ JS.parseInt EmptyString = None /\ JS.parseInt "+7.9" = Some 7
  /\ JS.parseInt "0" = Some 0 /\ JS.parseInt "0x" = None /\ JS.parseInt "- 3" = None.
Proof. vm_compute. repeat split. Qed.

Example toString_samples :
  JS.ZtoString 0 = "0" /\ JS.ZtoString 1234567890 = "1234567890" /\ JS.ZtoString (-15) = "-15"
  /\ JS.ZtoString 1000 = "1000" /\ JS.trim "  a b  " = "a b" /\ JS.trim "   " = EmptyString
  /\ JS.ZtoString 9007199254740993 = "9007199254740992"
  /\ JS.ZtoString (2 ^ 64) = "18446744073709552000"
  /\ JS.ZtoString (2 ^ 70) = "1.1805916207174113e+21"
  /\ JS.ZtoString (10 ^ 20) = "100000000000000000000"
  /\ JS.ZtoString (10 ^ 21) = "1e+21"
  /\ JS.ZtoString (- 123456789012345678901234567890) = "-1.2345678901234568e+29"
  /\ JS.ZtoString (10 ^ 400) = "Infinity".
Proof. vm_compute. repeat split. Qed.

Example json_samples :
  JS.JSON_parses ("{" +:+ JS.DQ +:+ "a" +:+ JS.DQ +:+ ":1}") = true
  /\ JS.JSON_parses (" [1, 2.5e-3, " +:+ JS.DQ +:+ "x" +:+ String JS.backslash "n" +:+ JS.DQ +:+ ", true, null, {}] ") = true
  /\ JS.JSON_parses "not json at all" = false /\ JS.JSON_parses EmptyString = false
  /\ JS.JSON_parses "01" = false /\ JS.JSON_parses "1." = false /\ JS.JSON_parses "[1,]" = false
  /\ JS.JSON_parses "{}" = true /\ JS.JSON_parses "[[[]],{}]" = true
  /\ JS.JSON_parses "[[[[[[[[[[[[]]]]]]]]]]]]" = true /\ JS.JSON_parses "[[[[]]]" = false
  /\ JS.JSON_parses ("{" +:+ JS.DQ +:+ "a" +:+ JS.DQ +:+ ":1} and more text") = false
  /\ JS.JSON_parses "-0.5E+2" = true /\ JS.JSON_parses "{'a':1}" = false /\ JS.JSON_parses "nul" = false.
Proof. vm_compute. repeat split. Qed.

Example matcher_samples :
  JS.search (JS.fenced_at "json") "x ```json  {} ``` y" = Some "{}"
  /\ JS.search (JS.fenced_at EmptyString) "x ```py a ```" = Some "py a"
  /\ JS.search (JS.delimited_at "{" "}") "a {b} c } d" = Some "{b} c }"
  /\ JS.search (JS.delimited_at "[" "]") "] [" = None
  /\ JS.match_all JS.block_at "a```1```b```2```c```" 0 = ["```1```"; "```2```"]
  /\ JS.split_paragraphs EmptyString ("a" +:+ JS.LF +:+ "b" +:+ JS.LF +:+ JS.LF +:+ JS.LF +:+ "c" +:+ JS.LF +:+ JS.LF) false
     = ["a" +:+ JS.LF +:+ "b"; "c"; EmptyString].
Proof. vm_compute. repeat split. Qed.

Example extract_samples :
  Criteria.extractContext ("```py" +:+ JS.LF +:+ "print(1)" +:+ JS.LF +:+ "```") "code_only" = "print(1)"
  /\ Criteria.extractContext ("para one" +:+ JS.LF +:+ JS.LF +:+ "para two") "first_paragraph" = "para one"
  /\ Criteria.extractContext ("para one" +:+ JS.LF +:+ JS.LF +:+ "para two") "last_paragraph" = "para two"
  /\ Criteria.extractContext "abc" "nonsense" = "abc"
  /\ Criteria.evaluateContains "Hello World" "hello" = Criteria.mkVerdict true ("Output contains " +:+ JS.DQ +:+ "hello" +:+ JS.DQ)
  /\ Criteria.evaluateLengthMax "abcd" "3" = Criteria.mkVerdict false "Output too long (4 > 3)"
  /\ Criteria.evaluateLengthMin "abcd" "x" = Criteria.mkVerdict true "Output length (4) meets minimum (0)".
Proof. vm_compute. repeat split. Qed.

Example case_samples :
  JS.toLowerCase (String (ascii_of_nat 192) " LA Carte") = String (ascii_of_nat 224) " la carte"
  /\ JS.toUpperCase (String "p" (String "a" (String (ascii_of_nat 223) EmptyString))) = "PASS"
  /\ JS.toUpperCase (String (ascii_of_nat 255) (String (ascii_of_nat 233) EmptyString))
     = String (ascii_of_nat 255) (String (ascii_of_nat 201) EmptyString)
  /\ Criteria.passed
       (Criteria.evaluateContains (String (ascii_of_nat 192) " la carte")
          (String (ascii_of_nat 224) EmptyString)) = true
  /\ Routes.sanitize ("a b/c" +:+ JS.DQ +:+ "_Z9" +:+ String (ascii_of_nat 233) EmptyString)
     = "a_b_c__Z9_".
Proof. vm_compute. repeat split. Qed.

(** Of the two clients of the sample only the first is open: the fourteen
    messages of the run all go to it. *)
Example sample_deliveries :
  map Executor.recipient (Executor.sent (snd (Sample.run 1))) = replicate 14 1%nat.
Proof. vm_compute. reflexivity. Qed.

(** After a PUT has replaced the steps of the workflow, the page of an
    earlier run finds none of its steps. *)
Example page_after_put :
  map Schema.sv_step_name
    (Schema.getRunStepExecutions 100 (Executor.data Fixture.rewritten))
  = ["Unknown"; "Unknown"]
  /\ map Schema.sv_criteria_type
       (Schema.getRunStepExecutions 100 (Executor.data Fixture.rewritten))
     = [None; None].
Proof. vm_compute. split; reflexivity. Qed.

Example render_two : Prompt.renderPrompt "a{context}b{context}" "X$&" = "aX{context}bX{context}".
Proof. vm_compute. reflexivity. Qed.

Example render_before : Prompt.renderPrompt "a{context}b{context}" "<$`|$'>" = "a<a|b{context}>b<a{context}b|>".
Proof. vm_compute. reflexivity. Qed.

Example spec_two : Prompt.spec_render "a{context}b{context}" "X" = "aXbX".
Proof. vm_compute. reflexivity. Qed.
